(** * mathOptimizations.h : fast approximate math primitives

    A shallow embedding of [include/utilities/mathOptimizations.h] and the
    properties of its functions.

    Modelling conventions.
    - A C [float] is its 32-bit IEEE-754 pattern, an integer [0 <= w < 2^32];
      arithmetic decodes the operands, computes with the Standard Library's
      specification of IEEE-754 ([SpecFloat], precision 24, [emax] 128,
      round to nearest even) and encodes the result.  Expressions are
      evaluated in the type C gives them (no excess precision, no fused
      multiply-add).
    - A C [double] appears only as an intermediate value (constants of
      [<cmath>], the unsuffixed literal in [POLYLOG]); it is a [spec_float]
      of precision 53, [emax] 1024.
    - A C [int] is a [Z] in the signed 32-bit range; arithmetic wraps, [>>] on
      a negative value is an arithmetic shift.
    - [union bitTwiddler] is a 32-bit cell read either as [int] or as
      [float]: writing one view and reading the other keeps the 32 bits.
    - A NaN produced by arithmetic is encoded as the quiet NaN 0x7FC00000;
      a NaN received as input keeps its bits until arithmetic touches it.
    - [(int)x] of a float is truncation toward zero and is undefined when the
      value does not fit (or is not a number): [None]. *)

From Stdlib Require Import ZArith Zbitwise Lia Bool Reals Lra.
From Stdlib Require Import Floats.SpecFloat.
Local Open Scope Z_scope.

(** ** Machine integers *)

Module Int32.

Definition modulus : Z := 2 ^ 32.
Definition min_signed : Z := - 2 ^ 31.
Definition max_signed : Z := 2 ^ 31 - 1.

(** Two's complement reading of the low 32 bits. *)
Definition wrap (z : Z) : Z :=
  let u := z mod modulus in
  if u <? 2 ^ 31 then u else u - modulus.

Definition add (a b : Z) : Z := wrap (a + b).
Definition sub (a b : Z) : Z := wrap (a - b).
Definition shl (a n : Z) : Z := wrap (Z.shiftl a n).
Definition shr (a n : Z) : Z := Z.shiftr a n.
Definition and (a b : Z) : Z := Z.land a b.
Definition or (a b : Z) : Z := Z.lor a b.

Definition in_range (z : Z) : bool :=
  (min_signed <=? z) && (z <=? max_signed).

End Int32.

(** ** IEEE-754 formats over [SpecFloat] *)

Module Fmt.

(** Value of a signed mantissa. *)
Definition signed (s : bool) (m : positive) : Z := cond_Zopp s (Zpos m).

(** The decimal literal [n * 10^k], correctly rounded. *)
Definition lit (prec emax : Z) (n k : Z) : spec_float :=
  if 0 <=? k then binary_normalize prec emax (n * 10 ^ k) 0 false
  else
    match n with
    | Z0 => S754_zero false
    | Zpos p =>
        SFdiv prec emax (S754_finite false p 0)
              (S754_finite false (Z.to_pos (10 ^ (- k))) 0)
    | Zneg p =>
        SFdiv prec emax (S754_finite true p 0)
              (S754_finite false (Z.to_pos (10 ^ (- k))) 0)
    end.

(** Conversion of a value of one format to another format (exact when
    widening, rounded when narrowing). *)
Definition conv (prec emax : Z) (x : spec_float) : spec_float :=
  match x with
  | S754_finite s m e => binary_normalize prec emax (signed s m) e s
  | _ => x
  end.

(** Conversion of an integer. *)
Definition of_Z (prec emax : Z) (n : Z) : spec_float :=
  binary_normalize prec emax n 0 false.

(** Truncation toward zero of a value that is a number: what a C cast
    of a floating value to an integer type computes. *)
Definition trunc (x : spec_float) : option Z :=
  match x with
  | S754_zero _ => Some 0
  | S754_finite s m e =>
      Some (match e with
            | Zneg p => Z.quot (signed s m) (2 ^ Zpos p)
            | _ => signed s m * 2 ^ e
            end)
  | _ => None
  end.

(** The largest integer below, and the least integer above, a number. *)
Definition floor (x : spec_float) : option Z :=
  match x with
  | S754_zero _ => Some 0
  | S754_finite s m e =>
      Some (match e with
            | Zneg p => signed s m / 2 ^ Zpos p
            | _ => signed s m * 2 ^ e
            end)
  | _ => None
  end.

Definition ceil (x : spec_float) : option Z :=
  match x with
  | S754_zero _ => Some 0
  | S754_finite s m e =>
      Some (match e with
            | Zneg p => - ((- signed s m) / 2 ^ Zpos p)
            | _ => signed s m * 2 ^ e
            end)
  | _ => None
  end.

Definition is_negative (x : spec_float) : bool :=
  match x with
  | S754_zero s | S754_infinity s | S754_finite s _ _ => s
  | S754_nan => false
  end.

Definition is_finite (x : spec_float) : bool :=
  match x with
  | S754_zero _ | S754_finite _ _ _ => true
  | _ => false
  end.

Definition is_nan (x : spec_float) : bool :=
  match x with S754_nan => true | _ => false end.

End Fmt.

(** ** [double] *)

Module F64.

Definition prec : Z := 53.
Definition emax : Z := 1024.

Definition lit (n k : Z) : spec_float := Fmt.lit prec emax n k.
Definition add := SFadd prec emax.
Definition sub := SFsub prec emax.
Definition mul := SFmul prec emax.
Definition opp := SFopp.
Definition ltb := SFltb.
Definition leb := SFleb.

End F64.

(** ** [float] *)

Module F32.

Definition prec : Z := 24.
Definition emax : Z := 128.

(** The float a 32-bit pattern stands for. *)
Definition dec (w : Z) : spec_float :=
  let s := Z.testbit w 31 in
  let E := Z.land (Z.shiftr w 23) 255 in
  let M := Z.land w 8388607 in
  if E =? 0 then
    match M with
    | Zpos m => S754_finite s m (-149)
    | _ => S754_zero s
    end
  else if E =? 255 then
    (if M =? 0 then S754_infinity s else S754_nan)
  else
    match M + 8388608 with
    | Zpos m => S754_finite s m (E - 150)
    | _ => S754_nan
    end.

Definition sign_bit (s : bool) : Z := if s then 2147483648 else 0.

(** The 32-bit pattern of a float of the format. *)
Definition enc (x : spec_float) : Z :=
  match x with
  | S754_zero s => sign_bit s
  | S754_infinity s => sign_bit s + 2139095040
  | S754_nan => 2143289344
  | S754_finite s m e =>
      if Zpos m <? 8388608 then sign_bit s + Zpos m
      else sign_bit s + (e + 150) * 8388608 + (Zpos m - 8388608)
  end.

Definition lit (n k : Z) : Z := enc (Fmt.lit prec emax n k).

Definition add (a b : Z) : Z := enc (SFadd prec emax (dec a) (dec b)).
Definition sub (a b : Z) : Z := enc (SFsub prec emax (dec a) (dec b)).
Definition mul (a b : Z) : Z := enc (SFmul prec emax (dec a) (dec b)).
Definition div (a b : Z) : Z := enc (SFdiv prec emax (dec a) (dec b)).

(** Unary minus and [std::fabs] act on the sign bit alone. *)
Definition neg (a : Z) : Z := Z.lxor (a mod 2 ^ 32) 2147483648.
Definition fabs (a : Z) : Z := Z.land a 2147483647.

Definition ltb (a b : Z) : bool := SFltb (dec a) (dec b).
Definition leb (a b : Z) : bool := SFleb (dec a) (dec b).
Definition eqb (a b : Z) : bool := SFeqb (dec a) (dec b).

(** [(float)n] for an [int] [n]. *)
Definition of_int (n : Z) : Z := enc (Fmt.of_Z prec emax n).

(** [(int)x]. *)
Definition to_int (a : Z) : option Z :=
  match Fmt.trunc (dec a) with
  | Some n => if Int32.in_range n then Some n else None
  | None => None
  end.

(** [(double)x] and [(float)d]. *)
Definition to_double (a : Z) : spec_float := Fmt.conv F64.prec F64.emax (dec a).
Definition of_double (d : spec_float) : Z := enc (Fmt.conv prec emax d).

Definition is_finite (a : Z) : bool := Fmt.is_finite (dec a).
Definition is_nan (a : Z) : bool := Fmt.is_nan (dec a).

(** [std::min(a, b)] is [(b < a) ? b : a]; [std::max(a, b)] is
    [(a < b) ? b : a]. *)
Definition min (a b : Z) : Z := if ltb b a then b else a.
Definition max (a b : Z) : Z := if ltb a b then b else a.

End F32.

(** ** [union bitTwiddler { int i; float f; }] *)

Module bitTwiddler.

Record t := mk { cell : Z }.

Definition set_f (x : Z) : t := mk (x mod 2 ^ 32).
Definition set_i (n : Z) : t := mk (n mod 2 ^ 32).
Definition f (u : t) : Z := cell u.
Definition i (u : t) : Z := Int32.wrap (cell u).

End bitTwiddler.

(** ** Constants and macros of the header *)

(** [<cmath>]. *)
Definition M_PI : spec_float := Eval vm_compute in F64.lit 314159265358979323846 (-20).
Definition M_PI_2 : spec_float := Eval vm_compute in F64.lit 157079632679489661923 (-20).
Definition M_PI_4 : spec_float := Eval vm_compute in F64.lit 78539816339744830962 (-20).

Definition M_2PI : spec_float := Eval vm_compute in F64.lit 628318530717958647692 (-20).
Definition M_1_2PI : spec_float := Eval vm_compute in F64.lit 15915494309189533577 (-20).
Definition M_4_PI : spec_float := Eval vm_compute in F64.lit 127323954473516268615 (-20).
Definition M_4_PI2 : spec_float := Eval vm_compute in F64.lit 40528473456935108578 (-20).

Definition f_HI : Z := Eval vm_compute in F32.lit 129 0.
Definition f_LOW : Z := Eval vm_compute in F32.lit (-12699999) (-5).

Definition LOG_EXP : Z := 0x7F800000.
Definition LOG_MANT : Z := 0x7FFFFF.

Definition CONST_P : Z := Eval vm_compute in F32.lit 225 (-3).

(** The literals of [POLYEXP], of [POLYLOG] and of the function bodies. *)
Module Lit.

Definition exp5 : Z := Eval vm_compute in F32.lit 18775767 (-10).
Definition exp4 : Z := Eval vm_compute in F32.lit 89893397 (-10).
Definition exp3 : Z := Eval vm_compute in F32.lit 55826318 (-9).
Definition exp2 : Z := Eval vm_compute in F32.lit 24015361 (-8).
Definition exp1 : Z := Eval vm_compute in F32.lit 69315308 (-8).
Definition exp0 : Z := Eval vm_compute in F32.lit 99999994 (-8).

Definition log5 : Z := Eval vm_compute in F32.neg (F32.lit 34436006 (-9)).
Definition log4 : Z := Eval vm_compute in F32.lit 31821337 (-8).
Definition log3 : Z := Eval vm_compute in F32.neg (F32.lit 12315303 (-7)).
Definition log2 : spec_float := Eval vm_compute in F64.lit 25988452 (-7).
Definition log1 : Z := Eval vm_compute in F32.neg (F32.lit 33241990 (-7)).
Definition log0 : Z := Eval vm_compute in F32.lit 31157899 (-7).

Definition zero : Z := Eval vm_compute in F32.lit 0 0.
Definition one : Z := Eval vm_compute in F32.lit 1 0.
Definition half : Z := Eval vm_compute in F32.lit 5 (-1).
Definition quarter : Z := Eval vm_compute in F32.lit 25 (-2).
Definition three_halves : Z := Eval vm_compute in F32.lit 15 (-1).

Definition asin1 : Z := Eval vm_compute in F32.lit 166666667 (-9).
Definition asin2 : Z := Eval vm_compute in F32.lit 75 (-3).
Definition asin3 : Z := Eval vm_compute in F32.lit 446428571 (-10).
Definition asin4 : Z := Eval vm_compute in F32.lit 303819444 (-10).
Definition asin5 : Z := Eval vm_compute in F32.lit 22372159 (-9).

Definition atan1 : Z := Eval vm_compute in F32.lit 333333333333 (-12).
Definition atan2 : Z := Eval vm_compute in F32.lit 2 (-1).
Definition atan3 : Z := Eval vm_compute in F32.lit 1428571429 (-10).
Definition atan4 : Z := Eval vm_compute in F32.lit 111111111111 (-12).
Definition atan5 : Z := Eval vm_compute in F32.lit 909090909 (-10).

(** [(float)M_PI_2], [(float)M_2PI], ... *)
Definition pi : Z := Eval vm_compute in F32.of_double M_PI.
Definition pi_2 : Z := Eval vm_compute in F32.of_double M_PI_2.
Definition pi_4 : Z := Eval vm_compute in F32.of_double M_PI_4.
Definition two_pi : Z := Eval vm_compute in F32.of_double M_2PI.
Definition inv_two_pi : Z := Eval vm_compute in F32.of_double M_1_2PI.
Definition four_pi : Z := Eval vm_compute in F32.of_double M_4_PI.
Definition four_pi2 : Z := Eval vm_compute in F32.of_double M_4_PI2.

End Lit.

(** [POLYEXP(x)]: every operand is a [float]. *)
Definition POLYEXP (x : Z) : Z :=
  F32.add (F32.mul x
    (F32.add (F32.mul x
      (F32.add (F32.mul x
        (F32.add (F32.mul x
          (F32.add (F32.mul x Lit.exp5) Lit.exp4)) Lit.exp3)) Lit.exp2)) Lit.exp1))
    Lit.exp0.

(** [POLYLOG(x)]: the literal [2.5988452] has no suffix, so from there
    outwards the arithmetic is in [double]; the result is cast to [float]. *)
Definition POLYLOG (x : Z) : Z :=
  let t2 := F32.add (F32.mul x (F32.add (F32.mul x Lit.log5) Lit.log4)) Lit.log3 in
  let t3 := F64.add (F32.to_double (F32.mul x t2)) Lit.log2 in
  let t4 := F64.add (F64.mul (F32.to_double x) t3) (F32.to_double Lit.log1) in
  let t5 := F64.add (F64.mul (F32.to_double x) t4) (F32.to_double Lit.log0) in
  F32.of_double t5.

(** ** The functions *)

(** [fExp2], in three pieces: the clamp (lines 89-90), the conversion that
    fills [ipart.i] (line 92), and the rest of the body (lines 93-96). *)
Definition fExp2_clamp (x : Z) : Z :=
  let x := F32.min x f_HI in
  F32.max x f_LOW.

Definition fExp2_ipart (x : Z) : option Z :=
  F32.to_int (F32.sub (fExp2_clamp x) Lit.half).

Definition fExp2_body (x : Z) (n : Z) : Z :=
  let ipart := bitTwiddler.set_i n in
  let fpart := bitTwiddler.set_f (F32.sub x (F32.of_int (bitTwiddler.i ipart))) in
  let expipart :=
    bitTwiddler.set_i (Int32.shl (Int32.add (bitTwiddler.i ipart) 127) 23) in
  F32.mul (bitTwiddler.f expipart) (POLYEXP (bitTwiddler.f fpart)).

Definition fExp2 (x : Z) : option Z :=
  match fExp2_ipart x with
  | Some n => Some (fExp2_body (fExp2_clamp x) n)
  | None => None
  end.

Definition fLog2 (x : Z) : Z :=
  let one := bitTwiddler.set_f Lit.one in
  let i := bitTwiddler.set_f x in
  let e := bitTwiddler.set_f
             (F32.of_int
                (Int32.sub (Int32.shr (Int32.and (bitTwiddler.i i) LOG_EXP) 23) 127)) in
  let m := bitTwiddler.set_i
             (Int32.or (Int32.and (bitTwiddler.i i) LOG_MANT) (bitTwiddler.i one)) in
  F32.add (F32.mul (POLYLOG (bitTwiddler.f m))
                   (F32.sub (bitTwiddler.f m) (bitTwiddler.f one)))
          (bitTwiddler.f e).

(** The seed of [bab2xSqrt] (lines 116-117). *)
Definition bab2xSqrt_seed (x : Z) : Z :=
  let a := bitTwiddler.set_f x in
  let a := bitTwiddler.set_i
             (Int32.sub (Int32.add (Int32.shl 1 29) (Int32.shr (bitTwiddler.i a) 1))
                        (Int32.shl 1 22)) in
  bitTwiddler.f a.

Definition bab2xSqrt (x : Z) : Z :=
  let a := bab2xSqrt_seed x in
  let a := F32.add a (F32.div x a) in
  F32.add (F32.mul Lit.quarter a) (F32.div x a).

(** The seed of [iSqrt] (lines 129-130). *)
Definition iSqrt_seed (x : Z) : Z :=
  let a := bitTwiddler.set_f x in
  let a := bitTwiddler.set_i (Int32.sub 0x5f3759df (Int32.shr (bitTwiddler.i a) 1)) in
  bitTwiddler.f a.

Definition iSqrt (x : Z) : Z :=
  let xhalf := F32.mul Lit.half x in
  let a := iSqrt_seed x in
  F32.mul a (F32.sub Lit.three_halves (F32.mul (F32.mul xhalf a) a)).

Definition fAsin (x : Z) : Z :=
  let x2 := F32.mul x x in
  F32.add x
    (F32.mul (F32.add Lit.asin1
      (F32.mul (F32.add Lit.asin2
        (F32.mul (F32.add Lit.asin3
          (F32.mul (F32.add Lit.asin4
            (F32.mul Lit.asin5 x2)) x2)) x2)) x2)) x2).

Definition fAcos (x : Z) : Z :=
  F32.sub Lit.pi_2 (fAsin x).

Definition fAtan (x : Z) : Z :=
  let x2 := F32.mul x x in
  F32.sub x
    (F32.mul (F32.add Lit.atan1
      (F32.mul (F32.sub Lit.atan2
        (F32.mul (F32.add Lit.atan3
          (F32.mul (F32.sub Lit.atan4
            (F32.mul Lit.atan5 x2)) x2)) x2)) x2)) x2).

(** The range reduction at the head of the fast [fSin] (lines 195-203): the
    value handed to the parabola.  The comparisons are against the [double]
    constants, the arithmetic is in [float]. *)
Definition fSin_reduce (x : Z) : option Z :=
  let xd := F32.to_double x in
  let x1 :=
    if F64.ltb M_2PI xd || F64.ltb xd (F64.opp M_2PI) then
      match F32.to_int (F32.mul x Lit.inv_two_pi) with
      | Some k => Some (F32.sub x (F32.mul (F32.of_int k) Lit.two_pi))
      | None => None
      end
    else Some x in
  match x1 with
  | None => None
  | Some x =>
      let xd := F32.to_double x in
      if F64.ltb xd (F64.opp M_PI) then Some (F32.add x Lit.two_pi)
      else if F64.ltb M_PI xd then Some (F32.sub x Lit.two_pi)
      else Some x
  end.

(** The parabola and its correction (lines 205-206). *)
Definition fSin_parabola (x : Z) : Z :=
  let x := F32.sub (F32.mul Lit.four_pi x)
                   (F32.mul (F32.mul Lit.four_pi2 x) (F32.fabs x)) in
  F32.add (F32.mul CONST_P (F32.sub (F32.mul x (F32.fabs x)) x)) x.

Section Build.

(** The two build flags, and the functions of the C library that the
    accurate configuration calls. *)
Variables FAST_MATH FAST_TRIG : bool.
Variables libm_sin libm_cos libm_sqrt : Z -> Z.

Definition fISqrt (a : Z) : option Z :=
  if FAST_MATH then Some (iSqrt a)
  else Some (F32.div Lit.one (libm_sqrt a)).

Definition fSqrt (a : Z) : option Z :=
  if FAST_MATH then Some (bab2xSqrt a) else Some (libm_sqrt a).

Definition fSin (x : Z) : option Z :=
  if FAST_TRIG then
    match fSin_reduce x with
    | Some r => Some (fSin_parabola r)
    | None => None
    end
  else Some (libm_sin x).

Definition fCos (x : Z) : option Z :=
  if FAST_TRIG then fSin (F32.add x Lit.pi_2)
  else Some (libm_cos x).

End Build.

(** ** The functions built on the primitives *)

(** [M_LN2] and [M_LOG2E] of [<cmath>]. *)
Definition M_LN2 : spec_float := Eval vm_compute in F64.lit 69314718055994530942 (-20).
Definition M_LOG2E : spec_float := Eval vm_compute in F64.lit 14426950408889634074 (-19).

(** [(float)M_LOG2E]. *)
Definition log2e : Z := Eval vm_compute in F32.of_double M_LOG2E.

Section Derived.

Variables FAST_MATH FAST_TRIG : bool.
Variables libm_sin libm_cos libm_tan libm_log libm_exp : Z -> Z.
Variable libm_pow : Z -> Z -> Z.
Variable libm_ldexp : Z -> Z -> Z.

Definition fPow (a b : Z) : option Z :=
  if FAST_MATH then fExp2 (F32.mul (fLog2 a) b)
  else Some (libm_pow a b).

(** [fLog2(a) * M_LN2] is a product in [double], converted to [float] by
    the return. *)
Definition fLog (a : Z) : option Z :=
  if FAST_MATH then Some (F32.of_double (F64.mul (F32.to_double (fLog2 a)) M_LN2))
  else Some (libm_log a).

Definition fExp (a : Z) : option Z :=
  if FAST_MATH then fExp2 (F32.mul log2e a)
  else Some (libm_exp a).

(** Both branches of the source call [ldexp]. *)
Definition fLdexp (x : Z) (a : Z) : option Z :=
  if FAST_MATH then Some (libm_ldexp x a) else Some (libm_ldexp x a).

Definition fTan (x : Z) : option Z :=
  if FAST_TRIG then
    match fSin FAST_TRIG libm_sin x, fCos FAST_TRIG libm_sin libm_cos x with
    | Some s, Some c => Some (F32.div s c)
    | _, _ => None
    end
  else Some (libm_tan x).

End Derived.

(** ** What the specification says, where it is compared with the code *)

(** [fExp2] as the specification words it: the integer part is
    [floor(x - 0.5)]. *)
Definition fExp2_floor_model (x : Z) : option Z :=
  let x' := fExp2_clamp x in
  match Fmt.floor (F32.dec (F32.sub x' Lit.half)) with
  | Some n =>
      if Int32.in_range n then
        let expipart := bitTwiddler.set_i (Int32.shl (Int32.add n 127) 23) in
        Some (F32.mul (bitTwiddler.f expipart)
                      (POLYEXP (F32.sub x' (F32.of_int n))))
      else None
  | None => None
  end.

(** One step of the Babylonian recurrence [a <- 0.5 * (a + x / a)], and
    [bab2xSqrt] as the specification words it: two steps from the seed. *)
Definition babylonian_step (x a : Z) : Z :=
  F32.mul Lit.half (F32.add a (F32.div x a)).

Definition bab2xSqrt_model (x : Z) : Z :=
  babylonian_step x (babylonian_step x (bab2xSqrt_seed x)).

(** ** Real values, for the proofs *)

Definition bpow (e : Z) : R := powerRZ 2 e.

(** The real number a finite float stands for. *)
Definition B2R (x : spec_float) : R :=
  match x with
  | S754_finite s m e => (IZR (cond_Zopp s (Zpos m)) * bpow e)%R
  | _ => 0%R
  end.

(** The bits shifted out of a mantissa stand for a real [x] between the
    mantissa and its successor, equal to it when both flags are clear. *)
Definition inb (x : R) (mrs : shr_record) : Prop :=
  0 <= shr_m mrs /\
  if shr_r mrs || shr_s mrs
  then (IZR (shr_m mrs) < x < IZR (shr_m mrs) + 1)%R
  else x = IZR (shr_m mrs).

Definition finite_valid (prec emax : Z) (B : spec_float) : Prop :=
  valid_binary prec emax B = true /\ Fmt.is_finite B = true.

Definition above (b : R) (r : spec_float) : Prop :=
  match r with
  | S754_infinity s => s = false
  | S754_nan => False
  | _ => (b <= B2R r)%R
  end.

Definition below (r : spec_float) (b : R) : Prop :=
  match r with
  | S754_infinity s => s = true
  | S754_nan => False
  | _ => (B2R r <= b)%R
  end.

(** [r] is one of the two floats of the format that enclose [v] (and [v]
    itself when [v] is in the format): no float of the format lies strictly
    between [v] and [r]. *)
Definition faithful (prec emax : Z) (v : R) (r : spec_float) : Prop :=
  valid_binary prec emax r = true /\
  forall B, finite_valid prec emax B ->
    ((B2R B <= v)%R -> above (B2R B) r) /\ ((v <= B2R B)%R -> below r (B2R B)).

(** A float with its exponent raised by [k], overflowing to infinity. *)
Definition scale2 (prec emax k : Z) (f : spec_float) : spec_float :=
  match f with
  | S754_finite s m e =>
      if e + k <=? emax - prec then S754_finite s m (e + k) else S754_infinity s
  | _ => f
  end.

(** [k * 2^e] with a mantissa and an exponent the format can hold. *)
Definition dyadic_ok (prec emax k e : Z) : bool :=
  (Z.abs k <? 2 ^ prec) && (emin prec emax <=? e) && (prec + e <=? emax).

Module F32F.

(** The real value of a [float]. *)
Definition val (w : Z) : R := B2R (F32.dec w).

End F32F.

Module F64F.

Definition fv (d : spec_float) : Prop := finite_valid F64.prec F64.emax d.

End F64F.

(** * Proofs *)

(** ** Powers of two and mantissa lengths *)


Lemma bpow_gt_0 e : (0 < bpow e)%R.
Proof. apply powerRZ_lt. lra. Qed.

Lemma bpow_add a b : bpow (a + b) = (bpow a * bpow b)%R.
Proof. apply powerRZ_add. lra. Qed.

Lemma bpow_IZR e : 0 <= e -> bpow e = IZR (2 ^ e).
Proof.
  intros H. unfold bpow.
  rewrite <- (Z2Nat.id e H) at 2.
  rewrite <- pow_IZR. rewrite pow_powerRZ. rewrite Z2Nat.id by exact H. reflexivity.
Qed.

Lemma bpow_opp e : bpow (- e) = (/ bpow e)%R.
Proof. unfold bpow. rewrite powerRZ_neg'. reflexivity. Qed.

Lemma bpow_le a b : a <= b -> (bpow a <= bpow b)%R.
Proof.
  intros H. replace b with (a + (b - a)) by lia. rewrite bpow_add.
  rewrite (bpow_IZR (b - a)) by lia.
  assert (1 <= 2 ^ (b - a)) by (apply Z.pow_le_mono_r with (a := 2) (b := 0) (c := b - a) ; lia).
  apply IZR_le in H0. pose proof (bpow_gt_0 a). nra.
Qed.

Lemma bpow_lt a b : a < b -> (bpow a < bpow b)%R.
Proof.
  intros H. replace b with (a + (b - a)) by lia. rewrite bpow_add.
  rewrite (bpow_IZR (b - a)) by lia.
  assert (2 <= 2 ^ (b - a)) by (apply Z.pow_le_mono_r with (a := 2) (b := 1) (c := b - a) ; lia).
  apply IZR_le in H0. pose proof (bpow_gt_0 a). nra.
Qed.


Lemma digits2_pos_bounds p :
  2 ^ (Zpos (digits2_pos p) - 1) <= Zpos p < 2 ^ Zpos (digits2_pos p).
Proof.
  induction p as [p IH | p IH | ]; cbn [digits2_pos].
  - rewrite Pos2Z.inj_succ. replace (Z.succ (Z.pos (digits2_pos p)) - 1) with (Z.succ (Z.pos (digits2_pos p) - 1)) by lia.
    rewrite !Z.pow_succ_r by lia. lia.
  - rewrite Pos2Z.inj_succ. replace (Z.succ (Z.pos (digits2_pos p)) - 1) with (Z.succ (Z.pos (digits2_pos p) - 1)) by lia.
    rewrite !Z.pow_succ_r by lia. lia.
  - cbv. split; [discriminate | reflexivity].
Qed.

Lemma Zdigits2_bounds m : 0 < m -> 2 ^ (Zdigits2 m - 1) <= m < 2 ^ Zdigits2 m.
Proof. destruct m as [|p|p]; try lia. intros _. apply digits2_pos_bounds. Qed.

Lemma Zdigits2_pos m : 0 < m -> 0 < Zdigits2 m.
Proof. destruct m; simpl; lia. Qed.

Lemma Zdigits2_unique m d : 0 < m -> 2 ^ (d - 1) <= m < 2 ^ d -> Zdigits2 m = d.
Proof.
  intros Hm [H1 H2]. pose proof (Zdigits2_bounds m Hm) as [H3 H4].
  pose proof (Zdigits2_pos m Hm).
  assert (0 < d). { destruct (Z_lt_le_dec 0 d); auto. exfalso.
    assert (2 ^ d <= 2 ^ 0) by (apply Z.pow_le_mono_r; lia). simpl in *. lia. }
  destruct (Z_lt_le_dec (Zdigits2 m) d).
  - assert (2 ^ Zdigits2 m <= 2 ^ (d - 1)) by (apply Z.pow_le_mono_r; lia). lia.
  - destruct (Z_lt_le_dec d (Zdigits2 m)); [| lia].
    assert (2 ^ d <= 2 ^ (Zdigits2 m - 1)) by (apply Z.pow_le_mono_r; lia). lia.
Qed.

(** ** Shifting a mantissa right *)


Lemma IZR_xI p : IZR (Zpos p~1) = (2 * IZR (Zpos p) + 1)%R.
Proof. rewrite Pos2Z.inj_xI, plus_IZR, mult_IZR. reflexivity. Qed.

Lemma IZR_xO p : IZR (Zpos p~0) = (2 * IZR (Zpos p))%R.
Proof. rewrite Pos2Z.inj_xO, mult_IZR. reflexivity. Qed.

Lemma inb_shr_1 x mrs : inb x mrs -> inb (x / 2) (shr_1 mrs).
Proof.
  destruct mrs as [m r s]. unfold inb. cbn [shr_m shr_r shr_s].
  intros [Hm H].
  destruct m as [|[p|p|]|p]; try lia; cbn [shr_1 shr_m shr_r shr_s];
    (split; [lia|]);
    try rewrite IZR_xI in H; try rewrite IZR_xO in H;
    destruct r, s; cbn [orb] in *; lra.
Qed.

Lemma shr_m_shr_1 mrs : 0 <= shr_m mrs -> shr_m (shr_1 mrs) = shr_m mrs / 2.
Proof.
  destruct mrs as [m r s]. cbn [shr_m]. intros Hm.
  destruct m as [|[p|p|]|p]; try lia; cbn [shr_1 shr_m].
  - reflexivity.
  - rewrite Pos2Z.inj_xI. apply Z.div_unique with (r := 1); lia.
  - rewrite Pos2Z.inj_xO. apply Z.div_unique with (r := 0); lia.
  - reflexivity.
Qed.

Lemma shr_m_shr_1_nonneg mrs : 0 <= shr_m mrs -> 0 <= shr_m (shr_1 mrs).
Proof. intros H. rewrite shr_m_shr_1 by exact H. apply Z.div_pos; lia. Qed.

Lemma inb_iter p : forall x mrs,
  inb x mrs -> inb (x * bpow (- Zpos p)) (iter_pos shr_1 p mrs).
Proof.
  assert (H1 : forall x, (x / 2 = x * bpow (-1))%R).
  { intros x. unfold bpow. simpl. lra. }
  induction p as [p IH | p IH | ]; intros x mrs H; cbn [iter_pos].
  - replace (x * bpow (- Zpos p~1))%R
      with (x / 2 * bpow (- Zpos p) * bpow (- Zpos p))%R.
    + apply IH, IH, inb_shr_1, H.
    + rewrite H1, !Rmult_assoc, <- !bpow_add. f_equal. f_equal. lia.
  - replace (x * bpow (- Zpos p~0))%R
      with (x * bpow (- Zpos p) * bpow (- Zpos p))%R.
    + apply IH, IH, H.
    + rewrite !Rmult_assoc, <- !bpow_add. f_equal. f_equal. lia.
  - rewrite <- H1. apply inb_shr_1, H.
Qed.

Lemma shr_m_iter p : forall mrs,
  0 <= shr_m mrs ->
  shr_m (iter_pos shr_1 p mrs) = shr_m mrs / 2 ^ Zpos p.
Proof.
  induction p as [p IH | p IH | ]; intros mrs H; cbn [iter_pos].
  - assert (H2 := shr_m_shr_1_nonneg mrs H).
    assert (H3 : 0 <= shr_m (iter_pos shr_1 p (shr_1 mrs))).
    { rewrite IH by exact H2. apply Z.div_pos; lia. }
    rewrite IH by exact H3. rewrite IH by exact H2. rewrite shr_m_shr_1 by exact H.
    rewrite !Z.div_div by lia. f_equal.
    replace (Zpos p~1) with (1 + Zpos p + Zpos p) by lia.
    rewrite !Z.pow_add_r by lia. change (2 ^ 1) with 2. ring.
  - assert (H3 : 0 <= shr_m (iter_pos shr_1 p mrs)).
    { rewrite IH by exact H. apply Z.div_pos; lia. }
    rewrite IH by exact H3. rewrite IH by exact H.
    rewrite !Z.div_div by lia. f_equal.
    replace (Zpos p~0) with (Zpos p + Zpos p) by lia.
    rewrite !Z.pow_add_r by lia. ring.
  - apply shr_m_shr_1, H.
Qed.

(** ** The rounding of [SpecFloat] *)

Lemma Zdigits2_div m n :
  0 < m -> 0 <= n -> Zdigits2 (m / 2 ^ n) = Z.max 0 (Zdigits2 m - n).
Proof.
  intros Hm Hn. pose proof (Zdigits2_bounds m Hm) as [H1 H2].
  pose proof (Zdigits2_pos m Hm) as Hd.
  assert (Hp : 0 < 2 ^ n) by (apply Z.pow_pos_nonneg; lia).
  destruct (Z_lt_le_dec (Zdigits2 m - n) 1) as [Hlt | Hge].
  - assert (2 ^ Zdigits2 m <= 2 ^ n) by (apply Z.pow_le_mono_r; lia).
    rewrite Z.div_small by lia. simpl. lia.
  - rewrite Z.max_r by lia.
    assert (Hq : 2 ^ (Zdigits2 m - n - 1) <= m / 2 ^ n).
    { apply Z.div_le_lower_bound; [lia|]. rewrite <- Z.pow_add_r by lia.
      replace (n + (Zdigits2 m - n - 1)) with (Zdigits2 m - 1) by lia. exact H1. }
    assert (0 < 2 ^ (Zdigits2 m - n - 1)) by (apply Z.pow_pos_nonneg; lia).
    apply Zdigits2_unique; [lia|]. split; [exact Hq|].
    apply Z.div_lt_upper_bound; [lia|]. rewrite <- Z.pow_add_r by lia.
    replace (n + (Zdigits2 m - n)) with (Zdigits2 m) by lia. exact H2.
Qed.

Lemma shr_spec x mrs e n :
  inb x mrs ->
  let k := Z.max n 0 in
  snd (shr mrs e n) = e + k /\
  inb (x * bpow (- k)) (fst (shr mrs e n)) /\
  shr_m (fst (shr mrs e n)) = shr_m mrs / 2 ^ k.
Proof.
  intros H k. subst k. destruct n as [|p|p]; cbn [shr fst snd].
  - rewrite Z.max_id. change (bpow (- 0)) with 1%R. rewrite Rmult_1_r, Z.add_0_r.
    change (2 ^ 0) with 1. rewrite Z.div_1_r. auto.
  - rewrite Z.max_l by lia. split; [reflexivity | split].
    + apply inb_iter, H.
    + apply shr_m_iter, H.
  - rewrite Z.max_r by lia. change (bpow (- 0)) with 1%R. rewrite Rmult_1_r, Z.add_0_r.
    change (2 ^ 0) with 1. rewrite Z.div_1_r. auto.
Qed.

Lemma shr_m_of_loc m l : shr_m (shr_record_of_loc m l) = m.
Proof. destruct l as [|[ | | ]]; reflexivity. Qed.

Lemma rne_bounds m l :
  m <= round_nearest_even m l <= m + 1.
Proof.
  destruct l as [|[ | | ]]; cbn [round_nearest_even]; try lia.
  destruct (Z.even m); lia.
Qed.

Lemma loc_exact_iff mrs :
  loc_of_shr_record mrs = loc_Exact <-> shr_r mrs || shr_s mrs = false.
Proof.
  destruct mrs as [m [|] [|]]; cbn; split; intros H; try discriminate; reflexivity.
Qed.

Section Format.

Variables prec emax : Z.
Hypothesis Hprec : 0 < prec.
Hypothesis Hemax : prec < emax.

Local Abbreviation emin := (SpecFloat.emin prec emax).
Local Abbreviation fexp := (SpecFloat.fexp prec emax).

Lemma fexp_eq e : fexp e = Z.max (e - prec) emin.
Proof. reflexivity. Qed.

Lemma emin_eq : emin = 3 - emax - prec.
Proof. reflexivity. Qed.

(** First alignment: the mantissa is cut down to the exponent of its
    binade. *)
Lemma shr_fexp_spec x m e l :
  0 < m ->
  inb x (shr_record_of_loc m l) ->
  e <= fexp (Zdigits2 m + e) ->
  let e' := fexp (Zdigits2 m + e) in
  snd (shr_fexp prec emax m e l) = e' /\
  inb (x * bpow (e - e')) (fst (shr_fexp prec emax m e l)) /\
  shr_m (fst (shr_fexp prec emax m e l)) = m / 2 ^ (e' - e) /\
  fexp (Zdigits2 (m / 2 ^ (e' - e)) + e') = e'.
Proof.
  intros Hm Hx He e'. unfold shr_fexp.
  pose proof (shr_spec x (shr_record_of_loc m l) e (e' - e) Hx) as (H1 & H2 & H3).
  fold e'. rewrite Z.max_l in H1, H2, H3 by lia.
  rewrite shr_m_of_loc in H3.
  replace (- (e' - e)) with (e - e') in H2 by lia.
  split; [lia | split; [exact H2 | split; [exact H3 |]]].
  rewrite Zdigits2_div by lia.
  subst e'. rewrite !fexp_eq in *. lia.
Qed.


(** Renormalization after the mantissa was possibly incremented: the
    value is unchanged and the mantissa is again aligned. *)
Lemma shr_fexp_renorm q e m1 :
  0 <= q -> fexp (Zdigits2 q + e) = e -> q <= m1 <= q + 1 ->
  let r := shr_fexp prec emax m1 e loc_Exact in
  0 <= shr_m (fst r) /\
  (m1 = 0 <-> shr_m (fst r) = 0) /\
  (IZR (shr_m (fst r)) * bpow (snd r) = IZR m1 * bpow e)%R /\
  fexp (Zdigits2 (shr_m (fst r)) + snd r) = snd r.
Proof.
  intros Hq Hc Hm r. subst r. unfold shr_fexp. cbn [shr_record_of_loc].
  assert (Hstay : fexp (Zdigits2 m1 + e) = e ->
    let r := shr (Build_shr_record m1 false false) e (fexp (Zdigits2 m1 + e) - e) in
    0 <= shr_m (fst r) /\ (m1 = 0 <-> shr_m (fst r) = 0) /\
    (IZR (shr_m (fst r)) * bpow (snd r) = IZR m1 * bpow e)%R /\
    fexp (Zdigits2 (shr_m (fst r)) + snd r) = snd r).
  { intros E. rewrite E, Z.sub_diag. cbn [shr fst snd shr_m].
    repeat split; try lia; assumption. }
  assert (Hd : m1 = q \/ m1 = q + 1) by lia.
  destruct Hd as [-> | ->]; [apply Hstay, Hc|].
  destruct (Z.eq_dec q 0) as [-> | Hq0].
  { apply Hstay. change (Zdigits2 (0 + 1)) with 1. change (Zdigits2 0) with 0 in Hc.
    rewrite fexp_eq in *. lia. }
  assert (Hq' : 0 < q) by lia.
  pose proof (Zdigits2_bounds q Hq') as [Hb1 Hb2].
  pose proof (Zdigits2_pos q Hq') as Hdp.
  destruct (Z_lt_le_dec (q + 1) (2 ^ Zdigits2 q)) as [Hlt | Hge].
  { apply Hstay. rewrite (Zdigits2_unique (q + 1) (Zdigits2 q)) by lia. exact Hc. }
  assert (Eq1 : q + 1 = 2 ^ Zdigits2 q) by lia.
  assert (Ed : Zdigits2 (q + 1) = Zdigits2 q + 1).
  { apply Zdigits2_unique; [lia|]. rewrite Eq1.
    replace (Zdigits2 q + 1 - 1) with (Zdigits2 q) by lia.
    split; [lia|]. apply Z.pow_lt_mono_r; lia. }
  destruct (Z.eq_dec (fexp (Zdigits2 (q + 1) + e)) e) as [E | NE]; [apply Hstay, E|].
  assert (E1 : fexp (Zdigits2 (q + 1) + e) - e = 1).
  { rewrite Ed in *. rewrite fexp_eq in *. lia. }
  rewrite E1. cbn [shr iter_pos fst snd].
  assert (Hh : shr_m (shr_1 (Build_shr_record (q + 1) false false)) = 2 ^ (Zdigits2 q - 1)).
  { rewrite shr_m_shr_1 by (cbn; lia). cbn [shr_m]. rewrite Eq1.
    replace (Zdigits2 q) with (1 + (Zdigits2 q - 1)) at 1 by lia.
    rewrite Z.pow_add_r by lia. change (2 ^ 1) with 2.
    rewrite Z.mul_comm, Z.div_mul by lia. reflexivity. }
  rewrite Hh.
  assert (Hpp : 0 < 2 ^ (Zdigits2 q - 1)) by (apply Z.pow_pos_nonneg; lia).
  split; [lia|]. split; [lia|]. split.
  - rewrite Eq1. rewrite <- !bpow_IZR by lia. rewrite <- !bpow_add. f_equal. lia.
  - rewrite (Zdigits2_unique (2 ^ (Zdigits2 q - 1)) (Zdigits2 q)).
    + rewrite Ed in E1. replace (Zdigits2 q + (e + 1)) with (Zdigits2 q + 1 + e) by lia. lia.
    + lia.
    + split; [lia|]. apply Z.pow_lt_mono_r; lia.
Qed.

End Format.

Section Round.

Variables prec emax : Z.
Hypothesis Hprec : 0 < prec.
Hypothesis Hemax : prec < emax.

Local Abbreviation emin := (SpecFloat.emin prec emax).
Local Abbreviation fexp := (SpecFloat.fexp prec emax).
Local Abbreviation finite_valid := (finite_valid prec emax).
Local Abbreviation faithful := (faithful prec emax).

Lemma binary_round_aux_cases sx mx ex lx x :
  inb x (shr_record_of_loc (Zpos mx) lx) ->
  ex <= fexp (Zpos (digits2_pos mx) + ex) ->
  exists q m1 e1,
    0 <= q /\ fexp (Zdigits2 q + e1) = e1 /\ q <= m1 <= q + 1 /\
    (IZR q * bpow e1 <= x * bpow ex < (IZR q + 1) * bpow e1)%R /\
    ((x * bpow ex = IZR q * bpow e1)%R -> m1 = q) /\
    let r := binary_round_aux prec emax sx (Zpos mx) ex lx in
    (m1 = 0 /\ r = S754_zero sx) \/
    (exists m e, r = S754_finite sx m e /\ bounded prec emax m e = true /\
                 (IZR (Zpos m) * bpow e = IZR m1 * bpow e1)%R) \/
    (r = S754_infinity sx /\ (bpow emax <= IZR m1 * bpow e1)%R).
Proof.
  intros Hx He.
  pose proof (shr_fexp_spec prec emax Hprec x (Zpos mx) ex lx) as S1.
  specialize (S1 ltac:(lia) Hx He). cbv zeta in S1.
  destruct S1 as (E1 & I1 & M1 & C1).
  unfold binary_round_aux.
  destruct (shr_fexp prec emax (Zpos mx) ex lx) as [mrs' e'] eqn:S1.
  cbn [fst snd] in *.
  set (q := shr_m mrs') in *.
  set (m1 := round_nearest_even q (loc_of_shr_record mrs')).
  assert (Hq : 0 <= q) by (apply I1).
  assert (Hm1 : q <= m1 <= q + 1) by (apply rne_bounds).
  rewrite <- M1 in C1. rewrite <- E1 in C1.
  pose proof (shr_fexp_renorm prec emax Hprec q e' m1 Hq C1 Hm1) as S2.
  cbv zeta in S2. destruct S2 as (P1 & P2 & P3 & P4).
  destruct (shr_fexp prec emax m1 e' loc_Exact) as [mrs'' e''] eqn:S2.
  cbn [fst snd] in *.
  pose proof (bpow_gt_0 e') as Hb.
  assert (Hv : (x * bpow ex = x * bpow (ex - e') * bpow e')%R).
  { rewrite Rmult_assoc, <- bpow_add. f_equal. f_equal. lia. }
  exists q, m1, e'. split; [exact Hq|]. split; [exact C1|]. split; [exact Hm1|].
  rewrite <- E1 in I1. destruct I1 as [_ I1]. fold q in I1.
  split; [|split].
  - rewrite Hv. destruct (shr_r mrs' || shr_s mrs'); [nra | rewrite I1; nra].
  - intros Hex. rewrite Hv in Hex. apply Rmult_eq_reg_r in Hex; [|lra].
    subst m1. destruct (shr_r mrs' || shr_s mrs') eqn:F; [lra|].
    apply loc_exact_iff in F. rewrite F. reflexivity.
  - cbv zeta. destruct (shr_m mrs'') as [|m|m] eqn:Em; [| |lia].
    + left. split; [apply P2; reflexivity | reflexivity].
    + right. destruct (Z.leb_spec e'' (emax - prec)) as [Hle | Hgt].
      * left. exists m, e''. split; [reflexivity|]. split; [|exact P3].
        unfold bounded, canonical_mantissa. cbn [Zdigits2] in P4.
        rewrite P4, Z.eqb_refl. apply Z.leb_le in Hle. rewrite Hle. reflexivity.
      * right. split; [reflexivity|]. rewrite <- P3.
        cbn [Zdigits2] in P4. rewrite fexp_eq in P4. rewrite emin_eq in P4.
        assert (Ed : Zpos (digits2_pos m) = prec) by lia.
        pose proof (digits2_pos_bounds m) as [Hb1 _]. rewrite Ed in Hb1.
        apply IZR_le in Hb1. rewrite <- bpow_IZR in Hb1 by lia.
        pose proof (bpow_le emax (prec - 1 + e'') ltac:(lia)) as Hb2.
        rewrite bpow_add in Hb2. pose proof (bpow_gt_0 e''). 
        pose proof (bpow_gt_0 (prec - 1)). nra.
Qed.






Lemma bounded_inv m e :
  bounded prec emax m e = true ->
  fexp (Zpos (digits2_pos m) + e) = e /\ e <= emax - prec /\
  Zpos (digits2_pos m) <= prec /\ emin <= e.
Proof.
  unfold bounded, canonical_mantissa. intros H.
  apply andb_true_iff in H. destruct H as [H1 H2].
  apply Z.eqb_eq in H1. apply Z.leb_le in H2.
  split; [exact H1|]. split; [exact H2|].
  rewrite fexp_eq in H1. lia.
Qed.

Lemma bounded_lt_bpow m e :
  bounded prec emax m e = true -> (IZR (Zpos m) * bpow e < bpow emax)%R.
Proof.
  intros H. apply bounded_inv in H. destruct H as (_ & H2 & H3 & _).
  pose proof (digits2_pos_bounds m) as [_ Hm].
  assert (Hp : 2 ^ Zpos (digits2_pos m) <= 2 ^ prec) by (apply Z.pow_le_mono_r; lia).
  assert (Hm' : Zpos m + 1 <= 2 ^ prec) by lia.
  apply IZR_le in Hm'. rewrite plus_IZR in Hm'. rewrite <- bpow_IZR in Hm' by lia.
  pose proof (bpow_le e (emax - prec) H2) as He.
  pose proof (bpow_gt_0 e). pose proof (bpow_gt_0 prec).
  replace emax with (prec + (emax - prec)) at 1 by lia. rewrite bpow_add.
  apply Rlt_le_trans with (bpow prec * bpow e)%R.
  - apply Rmult_lt_compat_r; lra.
  - apply Rmult_le_compat_l; lra.
Qed.

Lemma finite_valid_lt B :
  finite_valid B -> (- bpow emax < B2R B < bpow emax)%R.
Proof.
  intros [Hv Hf]. pose proof (bpow_gt_0 emax).
  destruct B as [s|s| |s m e]; try discriminate; cbn [B2R]; try lra.
  cbn [valid_binary] in Hv. pose proof (bounded_lt_bpow m e Hv).
  assert (0 < IZR (Zpos m) * bpow e)%R.
  { apply Rmult_lt_0_compat; [apply IZR_lt; lia | apply bpow_gt_0]. }
  destruct s; cbn [cond_Zopp]; [rewrite opp_IZR|]; lra.
Qed.

(** The floats of the format avoid the open interval between two
    consecutive multiples of the unit of an aligned mantissa. *)
Lemma grid q e1 B :
  0 <= q -> fexp (Zdigits2 q + e1) = e1 -> finite_valid B ->
  (B2R B <= IZR q * bpow e1 \/ (IZR q + 1) * bpow e1 <= B2R B)%R.
Proof.
  intros Hq Hc [Hv Hf]. pose proof (bpow_gt_0 e1) as Hg.
  assert (Hq' : (0 <= IZR q)%R) by (apply IZR_le; exact Hq).
  destruct B as [s|s| |s m e]; try discriminate; cbn [B2R]; try (left; nra).
  cbn [valid_binary] in Hv. pose proof (bounded_inv m e Hv) as (Hc' & _ & Hd & Hmin).
  pose proof (bpow_gt_0 e) as Hge.
  destruct s; cbn [cond_Zopp].
  { left. rewrite opp_IZR. assert (0 < IZR (Zpos m))%R by (apply IZR_lt; lia). nra. }
  destruct (Z_lt_le_dec e e1) as [Hlt | Hle].
  - left. assert (Hdq : Zdigits2 q = prec) by (rewrite fexp_eq in Hc; lia).
    assert (Hq0 : 0 < q).
    { destruct q as [|p|p]; [cbn in Hdq; lia | lia | lia]. }
    pose proof (Zdigits2_bounds q Hq0) as [Hb1 _]. rewrite Hdq in Hb1.
    apply IZR_le in Hb1. rewrite <- bpow_IZR in Hb1 by lia.
    pose proof (digits2_pos_bounds m) as [_ Hm].
    assert (Hp : 2 ^ Zpos (digits2_pos m) <= 2 ^ prec) by (apply Z.pow_le_mono_r; lia).
    assert (Hm' : Zpos m <= 2 ^ prec) by lia.
    apply IZR_le in Hm'. rewrite <- bpow_IZR in Hm' by lia.
    pose proof (bpow_le e (e1 - 1) ltac:(lia)) as He.
    assert (E : (bpow prec * bpow (e1 - 1) = bpow (prec - 1) * bpow e1)%R).
    { rewrite <- !bpow_add. f_equal. lia. }
    pose proof (bpow_gt_0 prec). pose proof (bpow_gt_0 (e1 - 1)).
    pose proof (bpow_gt_0 (prec - 1)). nra.
  - assert (E : (IZR (Zpos m) * bpow e = IZR (Zpos m * 2 ^ (e - e1)) * bpow e1)%R).
    { rewrite mult_IZR, <- bpow_IZR by lia. rewrite Rmult_assoc, <- bpow_add.
      f_equal. f_equal. lia. }
    rewrite E. destruct (Z_le_gt_dec (Zpos m * 2 ^ (e - e1)) q) as [H1 | H1].
    + left. apply IZR_le in H1. nra.
    + right. assert (H2 : q + 1 <= Zpos m * 2 ^ (e - e1)) by lia.
      apply IZR_le in H2. rewrite plus_IZR in H2. nra.
Qed.


Lemma finite_valid_opp B : finite_valid B -> finite_valid (SFopp B).
Proof. intros [H1 H2]. destruct B; split; try discriminate; assumption. Qed.

Lemma B2R_opp B : B2R (SFopp B) = (- B2R B)%R.
Proof.
  destruct B as [s|s| |s m e]; cbn [SFopp B2R]; try lra.
  destruct s; cbn [negb cond_Zopp]; rewrite ?opp_IZR; lra.
Qed.

Theorem binary_round_aux_faithful (sx : bool) mx ex lx (x : R) :
  inb x (shr_record_of_loc (Zpos mx) lx) ->
  ex <= fexp (Zpos (digits2_pos mx) + ex) ->
  faithful (if sx then - (x * bpow ex) else x * bpow ex)%R
           (binary_round_aux prec emax sx (Zpos mx) ex lx).
Proof.
  intros Hx He.
  destruct (binary_round_aux_cases sx mx ex lx x Hx He)
    as (q & m1 & e1 & Hq & Hc & Hm1 & Hv & Hex & Hr).
  cbv zeta in Hr. set (v := (x * bpow ex)%R) in *.
  assert (Hq' : (0 <= IZR q)%R) by (apply IZR_le; exact Hq).
  pose proof (bpow_gt_0 e1) as Hg.
  assert (Hm1' : m1 = q \/ (m1 = q + 1 /\ (IZR q * bpow e1 < v)%R)).
  { destruct (Z.eq_dec m1 q) as [E | NE]; [left; exact E | right].
    split; [lia|]. destruct (Req_dec v (IZR q * bpow e1)) as [E | NE'].
    - apply Hex in E. contradiction.
    - lra. }
  assert (Hgrid : forall B, finite_valid B ->
            ((B2R B <= IZR q * bpow e1 \/ (IZR q + 1) * bpow e1 <= B2R B) /\
             (- B2R B <= IZR q * bpow e1 \/ (IZR q + 1) * bpow e1 <= - B2R B) /\
             - bpow emax < B2R B < bpow emax)%R).
  { intros B HB. split; [apply grid; assumption|]. split.
    - rewrite <- B2R_opp. apply grid; [assumption | assumption | apply finite_valid_opp, HB].
    - apply finite_valid_lt, HB. }
  destruct Hr as [[Hz Hr] | [(m & e & Hr & Hb & Hval) | [Hr Hov]]]; rewrite Hr.
  - (* zero *)
    split; [reflexivity|]. intros B HB. destruct (Hgrid B HB) as (G1 & G2 & G3).
    assert (q = 0) by lia. subst q.
    unfold above, below. cbn [B2R].
    destruct sx; split; intros Hle; lra.
  - (* finite *)
    split; [exact Hb|]. intros B HB. destruct (Hgrid B HB) as (G1 & G2 & G3).
    unfold above, below. cbn [B2R].
    assert (Hrv : (IZR (cond_Zopp sx (Zpos m)) * bpow e
                   = if sx then - (IZR m1 * bpow e1) else IZR m1 * bpow e1)%R).
    { destruct sx; cbn [cond_Zopp]; rewrite ?opp_IZR; lra. }
    rewrite Hrv.
    destruct Hm1' as [-> | [-> Hlt]]; rewrite ?plus_IZR;
      destruct sx; split; intros Hle; lra.
  - (* overflow *)
    split; [reflexivity|]. intros B HB. destruct (Hgrid B HB) as (G1 & G2 & G3).
    unfold above, below.
    destruct Hm1' as [-> | [-> Hlt]]; rewrite ?plus_IZR in Hov;
      destruct sx; split; intros Hle; try reflexivity; exfalso; lra.
Qed.

End Round.

(** ** The operations are faithful *)

Lemma iter_xO_Zpos d : forall m, Zpos (Pos.iter xO m d) = Zpos m * 2 ^ Zpos d.
Proof.
  induction d as [|d IH] using Pos.peano_ind; intros m.
  - cbn [Pos.iter]. rewrite Pos2Z.inj_xO. change (2 ^ 1) with 2. lia.
  - rewrite Pos.iter_succ, Pos2Z.inj_xO, IH, Pos2Z.inj_succ, Z.pow_succ_r by lia. lia.
Qed.

Lemma shl_align_spec mx ex ex' :
  let ez := Z.min ex ex' in
  snd (shl_align mx ex ex') = ez /\
  Zpos (fst (shl_align mx ex ex')) = Zpos mx * 2 ^ (ex - ez).
Proof.
  unfold shl_align. destruct (ex' - ex) as [|d|d] eqn:E; cbn [fst snd].
  - rewrite Z.min_l by lia. rewrite Z.sub_diag. change (2 ^ 0) with 1. lia.
  - rewrite Z.min_l by lia. rewrite Z.sub_diag. change (2 ^ 0) with 1. lia.
  - rewrite Z.min_r by lia. split; [reflexivity|].
    rewrite iter_xO_Zpos. f_equal. f_equal. lia.
Qed.

Lemma Zdigits2_mul_pow2 m k :
  0 < m -> 0 <= k -> Zdigits2 (m * 2 ^ k) = Zdigits2 m + k.
Proof.
  intros Hm Hk. pose proof (Zdigits2_bounds m Hm) as [H1 H2].
  pose proof (Zdigits2_pos m Hm).
  assert (0 < 2 ^ k) by (apply Z.pow_pos_nonneg; lia).
  apply Zdigits2_unique; [lia|].
  replace (Zdigits2 m + k - 1) with (Zdigits2 m - 1 + k) by lia.
  rewrite !Z.pow_add_r by lia. split; nia.
Qed.

Lemma Zdigits2_mul_ge a b :
  0 < a -> 0 < b -> Zdigits2 a + Zdigits2 b - 1 <= Zdigits2 (a * b).
Proof.
  intros Ha Hb.
  pose proof (Zdigits2_bounds a Ha) as [A1 _]. pose proof (Zdigits2_bounds b Hb) as [B1 _].
  pose proof (Zdigits2_pos a Ha). pose proof (Zdigits2_pos b Hb).
  assert (Hab : 0 < a * b) by nia.
  pose proof (Zdigits2_bounds (a * b) Hab) as [_ C2].
  destruct (Z_lt_le_dec (Zdigits2 (a * b)) (Zdigits2 a + Zdigits2 b - 1)) as [Hlt|]; [|lia].
  exfalso.
  assert (2 ^ Zdigits2 (a * b) <= 2 ^ (Zdigits2 a - 1 + (Zdigits2 b - 1)))
    by (apply Z.pow_le_mono_r; lia).
  rewrite Z.pow_add_r in * by lia.
  assert (0 < 2 ^ (Zdigits2 a - 1)) by (apply Z.pow_pos_nonneg; lia).
  assert (0 < 2 ^ (Zdigits2 b - 1)) by (apply Z.pow_pos_nonneg; lia).
  nia.
Qed.

Section Ops.

Variables prec emax : Z.
Hypothesis Hprec : 0 < prec.
Hypothesis Hemax : prec < emax.

Local Abbreviation emin := (SpecFloat.emin prec emax).
Local Abbreviation fexp := (SpecFloat.fexp prec emax).
Local Abbreviation faithful := (faithful prec emax).
Local Abbreviation finite_valid := (finite_valid prec emax).

Lemma faithful_exact v r : finite_valid r -> B2R r = v -> faithful v r.
Proof.
  intros [Hv Hf] <-. split; [exact Hv|]. intros B _.
  destruct r; try discriminate; unfold above, below; split; intros H; exact H.
Qed.

Lemma faithful_bounded v r L H :
  faithful v r -> finite_valid L -> finite_valid H ->
  (B2R L <= v <= B2R H)%R ->
  finite_valid r /\ (B2R L <= B2R r <= B2R H)%R.
Proof.
  intros [Hv Hf] HL HH [H1 H2].
  destruct (Hf L HL) as [A _]. destruct (Hf H HH) as [_ B].
  specialize (A H1). specialize (B H2).
  destruct r as [s|s| |s m e]; unfold above, below in *; try contradiction.
  - split; [split; [exact Hv | reflexivity] | lra].
  - congruence.
  - split; [split; [exact Hv | reflexivity] | lra].
Qed.

Lemma binary_round_faithful (sx : bool) mx ex :
  faithful (IZR (cond_Zopp sx (Zpos mx)) * bpow ex)%R (binary_round prec emax sx mx ex).
Proof.
  unfold binary_round.
  pose proof (shl_align_spec mx ex (fexp (Zpos (digits2_pos mx) + ex))) as S.
  cbv zeta in S. destruct S as [S1 S2].
  destruct (shl_align mx ex (fexp (Zpos (digits2_pos mx) + ex))) as [mz ez].
  cbn [fst snd] in *.
  assert (Hd : Zpos (digits2_pos mz) + ez = Zpos (digits2_pos mx) + ex).
  { change (Zpos (digits2_pos mz)) with (Zdigits2 (Zpos mz)). rewrite S2.
    rewrite Zdigits2_mul_pow2 by lia. cbn [Zdigits2]. lia. }
  pose proof (binary_round_aux_faithful prec emax Hprec Hemax sx mz ez loc_Exact
                (IZR (Zpos mz))) as F.
  assert (E : (IZR (Zpos mz) * bpow ez = IZR (Zpos mx) * bpow ex)%R).
  { rewrite S2, mult_IZR, <- bpow_IZR by lia. rewrite Rmult_assoc, <- bpow_add.
    f_equal. f_equal. lia. }
  rewrite E in F.
  replace (IZR (cond_Zopp sx (Zpos mx)) * bpow ex)%R
    with (if sx then - (IZR (Zpos mx) * bpow ex) else IZR (Zpos mx) * bpow ex)%R.
  - apply F.
    + split; [cbn; lia | reflexivity].
    + rewrite Hd. lia.
  - destruct sx; cbn [cond_Zopp]; rewrite ?opp_IZR; lra.
Qed.

Lemma binary_normalize_faithful m e sz :
  faithful (IZR m * bpow e)%R (binary_normalize prec emax m e sz).
Proof.
  destruct m as [|p|p]; cbn [binary_normalize].
  - apply faithful_exact; [split; reflexivity | cbn; lra].
  - apply (binary_round_faithful false).
  - apply (binary_round_faithful true).
Qed.


Lemma aligned_value (s : bool) m e ez :
  ez <= e ->
  (IZR (cond_Zopp s (Zpos (fst (shl_align m e ez)))) * bpow ez
   = IZR (cond_Zopp s (Zpos m)) * bpow e)%R.
Proof.
  intros H. pose proof (shl_align_spec m e ez) as [_ S]. rewrite Z.min_r in S by lia.
  assert (E : cond_Zopp s (Zpos (fst (shl_align m e ez)))
              = cond_Zopp s (Zpos m) * 2 ^ (e - ez)).
  { destruct s; cbn [cond_Zopp]; rewrite S; lia. }
  rewrite E, mult_IZR, <- bpow_IZR by lia. rewrite Rmult_assoc, <- bpow_add.
  f_equal. f_equal. lia.
Qed.

Lemma finite_valid_zero s : finite_valid (S754_zero s).
Proof. split; reflexivity. Qed.

Theorem SFadd_faithful x y :
  finite_valid x -> finite_valid y ->
  faithful (B2R x + B2R y)%R (SFadd prec emax x y).
Proof.
  intros Hx Hy.
  destruct x as [sx|sx| |sx mx ex]; try (destruct Hx; discriminate);
    destruct y as [sy|sy| |sy my ey]; try (destruct Hy; discriminate);
    cbn [SFadd B2R].
  - apply faithful_exact; [|cbn [B2R]; destruct sx, sy; cbn [B2R]; lra].
    destruct sx, sy; apply finite_valid_zero.
  - apply faithful_exact; [exact Hy | cbn [B2R]; lra].
  - apply faithful_exact; [exact Hx | cbn [B2R]; lra].
  - rewrite <- (aligned_value sx mx ex (Z.min ex ey)) by lia.
    rewrite <- (aligned_value sy my ey (Z.min ex ey)) by lia.
    rewrite <- Rmult_plus_distr_r, <- plus_IZR.
    apply binary_normalize_faithful.
Qed.

Theorem SFsub_faithful x y :
  finite_valid x -> finite_valid y ->
  faithful (B2R x - B2R y)%R (SFsub prec emax x y).
Proof.
  intros Hx Hy.
  destruct x as [sx|sx| |sx mx ex]; try (destruct Hx; discriminate);
    destruct y as [sy|sy| |sy my ey]; try (destruct Hy; discriminate);
    cbn [SFsub B2R].
  - apply faithful_exact; [|cbn [B2R]; destruct sx, sy; cbn [B2R]; lra].
    destruct sx, sy; apply finite_valid_zero.
  - apply faithful_exact.
    + destruct Hy as [Hv _]. split; [exact Hv | reflexivity].
    + cbn [B2R]. destruct sy; cbn [negb cond_Zopp]; rewrite ?opp_IZR; lra.
  - apply faithful_exact; [exact Hx | cbn [B2R]; lra].
  - rewrite <- (aligned_value sx mx ex (Z.min ex ey)) by lia.
    rewrite <- (aligned_value sy my ey (Z.min ex ey)) by lia.
    rewrite <- Rmult_minus_distr_r, <- minus_IZR.
    apply binary_normalize_faithful.
Qed.

Theorem SFmul_faithful x y :
  finite_valid x -> finite_valid y ->
  faithful (B2R x * B2R y)%R (SFmul prec emax x y).
Proof.
  intros Hx Hy.
  destruct x as [sx|sx| |sx mx ex]; try (destruct Hx; discriminate);
    destruct y as [sy|sy| |sy my ey]; try (destruct Hy; discriminate);
    cbn [SFmul B2R];
    try (apply faithful_exact; [apply finite_valid_zero | cbn [B2R]; lra]).
  destruct Hx as [Hx _], Hy as [Hy _]. cbn [valid_binary] in Hx, Hy.
  apply bounded_inv in Hx, Hy.
  destruct Hx as (Cx & _ & Dx & Mx), Hy as (Cy & _ & Dy & My).
  pose proof (binary_round_aux_faithful prec emax Hprec Hemax (xorb sx sy) (mx * my)
                (ex + ey) loc_Exact (IZR (Zpos (mx * my)))) as F.
  replace (IZR (cond_Zopp sx (Zpos mx)) * bpow ex * (IZR (cond_Zopp sy (Zpos my)) * bpow ey))%R
    with (if xorb sx sy then - (IZR (Zpos (mx * my)) * bpow (ex + ey))
          else IZR (Zpos (mx * my)) * bpow (ex + ey))%R.
  - apply F.
    + split; [cbn; lia | reflexivity].
    + pose proof (Zdigits2_mul_ge (Zpos mx) (Zpos my) ltac:(lia) ltac:(lia)) as Hd.
      cbn [Zdigits2 Z.mul] in Hd.
      pose proof (Pos2Z.is_pos (digits2_pos mx)). pose proof (Pos2Z.is_pos (digits2_pos my)).
      rewrite fexp_eq, emin_eq in *. lia.
  - rewrite Pos2Z.inj_mul, mult_IZR, bpow_add.
    destruct sx, sy; cbn [xorb cond_Zopp]; rewrite ?opp_IZR; lra.
Qed.


(** A short enough mantissa with an exponent of the format is in the
    format. *)
Lemma representable (s : bool) m e :
  Zpos (digits2_pos m) <= prec -> emin <= e ->
  Zpos (digits2_pos m) + e <= emax ->
  exists B, finite_valid B /\
            B2R B = (IZR (cond_Zopp s (Zpos m)) * bpow e)%R.
Proof.
  intros Hd He Hmax.
  set (e' := fexp (Zpos (digits2_pos m) + e)).
  assert (He' : e' <= e) by (subst e'; rewrite fexp_eq; lia).
  exists (S754_finite s (fst (shl_align m e e')) e').
  split; [split; [|reflexivity] | cbn [B2R]; apply aligned_value, He'].
  cbn [valid_binary]. unfold bounded, canonical_mantissa.
  pose proof (shl_align_spec m e e') as [_ S]. rewrite Z.min_r in S by lia.
  change (Zpos (digits2_pos (fst (shl_align m e e'))))
    with (Zdigits2 (Zpos (fst (shl_align m e e')))).
  rewrite S, Zdigits2_mul_pow2 by lia. cbn [Zdigits2].
  replace (Zpos (digits2_pos m) + (e - e') + e') with (Zpos (digits2_pos m) + e) by lia.
  fold e'. rewrite Z.eqb_refl. cbn [andb]. apply Z.leb_le.
  subst e'. rewrite fexp_eq, emin_eq in *. lia.
Qed.

Lemma faithful_representable v r B :
  faithful v r -> finite_valid B -> B2R B = v ->
  finite_valid r /\ B2R r = v.
Proof.
  intros F HB E.
  destruct (faithful_bounded v r B B F HB HB ltac:(lra)) as [H1 H2].
  split; [exact H1 | lra].
Qed.

Lemma Zdigits2_le m k : 0 < m -> m < 2 ^ k -> Zdigits2 m <= k.
Proof.
  intros Hm Hk. pose proof (Zdigits2_bounds m Hm) as [H1 _].
  pose proof (Zdigits2_pos m Hm).
  destruct (Z_lt_le_dec k (Zdigits2 m)) as [Hlt|]; [|lia].
  assert (0 <= k). { destruct (Z_lt_le_dec k 0); [|lia]. rewrite Z.pow_neg_r in Hk; lia. }
  assert (2 ^ k <= 2 ^ (Zdigits2 m - 1)) by (apply Z.pow_le_mono_r; lia). lia.
Qed.

Lemma binary_normalize_exact m e sz :
  Z.abs m < 2 ^ prec -> emin <= e -> prec + e <= emax ->
  finite_valid (binary_normalize prec emax m e sz) /\
  B2R (binary_normalize prec emax m e sz) = (IZR m * bpow e)%R.
Proof.
  intros Hm He Hmax.
  pose proof (binary_normalize_faithful m e sz) as F.
  destruct m as [|p|p].
  - cbn [binary_normalize B2R]. split; [apply finite_valid_zero | lra].
  - pose proof (Zdigits2_le (Zpos p) prec ltac:(lia) ltac:(lia)) as Hd. cbn [Zdigits2] in Hd.
    destruct (representable false p e Hd He ltac:(lia)) as (B & HB & EB).
    apply (faithful_representable _ _ B F HB EB).
  - pose proof (Zdigits2_le (Zpos p) prec ltac:(lia) ltac:(lia)) as Hd. cbn [Zdigits2] in Hd.
    destruct (representable true p e Hd He ltac:(lia)) as (B & HB & EB).
    apply (faithful_representable _ _ B F HB EB).
Qed.

(** Two floats of the format with the same non-zero value are the same
    float. *)
Lemma B2R_inj s1 m1 e1 s2 m2 e2 :
  bounded prec emax m1 e1 = true -> bounded prec emax m2 e2 = true ->
  B2R (S754_finite s1 m1 e1) = B2R (S754_finite s2 m2 e2) ->
  S754_finite s1 m1 e1 = S754_finite s2 m2 e2.
Proof.
  intros H1 H2 E. cbn [B2R] in E.
  apply bounded_inv in H1, H2.
  destruct H1 as (C1 & _ & D1 & M1), H2 as (C2 & _ & D2 & M2).
  pose proof (bpow_gt_0 e1) as G1. pose proof (bpow_gt_0 e2) as G2.
  assert (P1 : (0 < IZR (Zpos m1) * bpow e1)%R)
    by (apply Rmult_lt_0_compat; [apply IZR_lt; lia | exact G1]).
  assert (P2 : (0 < IZR (Zpos m2) * bpow e2)%R)
    by (apply Rmult_lt_0_compat; [apply IZR_lt; lia | exact G2]).
  assert (Es : s1 = s2).
  { destruct s1, s2; cbn [cond_Zopp] in E; rewrite ?opp_IZR in E; try reflexivity; lra. }
  subst s2.
  assert (E' : (IZR (Zpos m1) * bpow e1 = IZR (Zpos m2) * bpow e2)%R).
  { destruct s1; cbn [cond_Zopp] in E; rewrite ?opp_IZR in E; lra. }
  clear E.
  assert (Hmono : forall ma ea mb eb,
            (IZR (Zpos ma) * bpow ea = IZR (Zpos mb) * bpow eb)%R ->
            Zpos (digits2_pos ma) + ea <= Zpos (digits2_pos mb) + eb).
  { intros ma ea mb eb Eab.
    pose proof (digits2_pos_bounds ma) as [A1 _]. pose proof (digits2_pos_bounds mb) as [_ B2].
    apply IZR_le in A1. apply IZR_lt in B2.
    rewrite <- bpow_IZR in A1, B2 by lia.
    destruct (Z_lt_le_dec (Zpos (digits2_pos mb) + eb) (Zpos (digits2_pos ma) + ea))
      as [Hlt|]; [exfalso | lia].
    pose proof (bpow_le (Zpos (digits2_pos mb) + eb) (Zpos (digits2_pos ma) - 1 + ea)
                  ltac:(lia)) as Hb.
    rewrite !bpow_add in Hb.
    pose proof (bpow_gt_0 ea). pose proof (bpow_gt_0 eb).
    assert (IZR (Zpos mb) * bpow eb < bpow (Zpos (digits2_pos mb)) * bpow eb)%R
      by (apply Rmult_lt_compat_r; lra).
    assert (bpow (Zpos (digits2_pos ma) - 1) * bpow ea <= IZR (Zpos ma) * bpow ea)%R
      by (apply Rmult_le_compat_r; lra).
    lra. }
  pose proof (Hmono m1 e1 m2 e2 E'). pose proof (Hmono m2 e2 m1 e1 (eq_sym E')).
  assert (Ee : e1 = e2) by (rewrite fexp_eq in *; lia).
  subst e2. f_equal.
  apply Rmult_eq_reg_r in E'; [|lra]. apply eq_IZR in E'. congruence.
Qed.

End Ops.

(** ** The 32-bit encoding *)

Module F32Facts.

Lemma prec_gt_0 : 0 < F32.prec. Proof. reflexivity. Qed.
Lemma prec_lt_emax : F32.prec < F32.emax. Proof. reflexivity. Qed.

(** The three fields of a 32-bit pattern. *)
Lemma fields S E M :
  0 <= S <= 1 -> 0 <= E < 256 -> 0 <= M < 8388608 ->
  let w := S * 2147483648 + E * 8388608 + M in
  Z.testbit w 31 = (S =? 1) /\
  Z.land (Z.shiftr w 23) 255 = E /\
  Z.land w 8388607 = M.
Proof.
  intros HS HE HM w.
  split; [|split].
  - rewrite Z.testbit_odd, Z.shiftr_div_pow2 by lia.
    replace (w / 2 ^ 31) with S.
    + destruct (Z.eqb_spec S 1) as [-> | NE]; [reflexivity|].
      replace S with 0 by lia. reflexivity.
    + apply Z.div_unique with (r := E * 8388608 + M); [|subst w]; lia.
  - change 255 with (Z.ones 8). rewrite Z.land_ones, Z.shiftr_div_pow2 by lia.
    replace (w / 2 ^ 23) with (S * 256 + E).
    + symmetry. apply Z.mod_unique with (q := S); lia.
    + apply Z.div_unique with (r := M); [|subst w]; lia.
  - change 8388607 with (Z.ones 23). rewrite Z.land_ones by lia.
    symmetry. apply Z.mod_unique with (q := S * 256 + E); [|subst w]; lia.
Qed.

Lemma dec_valid w : valid_binary F32.prec F32.emax (F32.dec w) = true.
Proof.
  unfold F32.dec.
  assert (HE : 0 <= Z.land (Z.shiftr w 23) 255 < 256).
  { change 255 with (Z.ones 8). rewrite Z.land_ones by lia. apply Z.mod_pos_bound. lia. }
  assert (HM : 0 <= Z.land w 8388607 < 8388608).
  { change 8388607 with (Z.ones 23). rewrite Z.land_ones by lia. apply Z.mod_pos_bound. lia. }
  set (E := Z.land (Z.shiftr w 23) 255) in *. set (M := Z.land w 8388607) in *.
  destruct (Z.eqb_spec E 0) as [E0 | E0].
  - destruct M as [|m|m] eqn:EM; try reflexivity.
    cbn [valid_binary]. unfold bounded, canonical_mantissa.
    pose proof (Zdigits2_le (Zpos m) 23 ltac:(lia) ltac:(lia)) as Hd. cbn [Zdigits2] in Hd.
    apply andb_true_iff. split; [apply Z.eqb_eq | reflexivity].
    unfold fexp, emin, F32.prec, F32.emax. lia.
  - destruct (Z.eqb_spec E 255) as [E1 | E1].
    + destruct (M =? 0); reflexivity.
    + destruct (M + 8388608) as [|m|m] eqn:EM; try reflexivity.
      cbn [valid_binary]. unfold bounded, canonical_mantissa.
      assert (Hd : Zdigits2 (Zpos m) = 24) by (apply Zdigits2_unique; simpl; lia).
      cbn [Zdigits2] in Hd. rewrite Hd.
      apply andb_true_iff. split; [apply Z.eqb_eq | apply Z.leb_le].
      * unfold fexp, emin, F32.prec, F32.emax. lia.
      * unfold F32.prec, F32.emax. lia.
Qed.

Lemma dec_enc r :
  valid_binary F32.prec F32.emax r = true -> F32.dec (F32.enc r) = r.
Proof.
  intros Hv. destruct r as [s|s| |s m e].
  - destruct s; vm_compute; reflexivity.
  - destruct s; vm_compute; reflexivity.
  - vm_compute; reflexivity.
  - cbn [valid_binary] in Hv.
    apply (bounded_inv F32.prec F32.emax) in Hv.
    destruct Hv as (Hc & Hb & Hd & Hmin).
    unfold fexp, emin, F32.prec, F32.emax in *.
    pose proof (digits2_pos_bounds m) as [Hm1 Hm2].
    cbn [F32.enc]. destruct (Z.ltb_spec (Zpos m) 8388608) as [Hlt | Hge].
    + assert (Hd' : Zpos (digits2_pos m) <= 23).
      { apply (Zdigits2_le (Zpos m) 23); lia. }
      assert (e = -149) by lia. subst e.
      pose proof (fields (if s then 1 else 0) 0 (Zpos m) ltac:(destruct s; lia) ltac:(lia)
                    ltac:(lia)) as (F1 & F2 & F3).
      cbv zeta in F1, F2, F3.
      replace (F32.sign_bit s + Zpos m)
        with ((if s then 1 else 0) * 2147483648 + 0 * 8388608 + Zpos m)
        by (destruct s; unfold F32.sign_bit; lia).
      unfold F32.dec. rewrite F1, F2, F3. cbn [Z.eqb].
      destruct s; reflexivity.
    + assert (Hd' : Zpos (digits2_pos m) = 24).
      { assert (2 ^ 23 <= Zpos m) by (change (2 ^ 23) with 8388608; lia).
        destruct (Z_lt_le_dec (Zpos (digits2_pos m)) 24) as [Hl|]; [|lia].
        assert (2 ^ Zpos (digits2_pos m) <= 2 ^ 23) by (apply Z.pow_le_mono_r; lia). lia. }
      rewrite Hd' in *. change (2 ^ 24) with 16777216 in Hm2.
      pose proof (fields (if s then 1 else 0) (e + 150) (Zpos m - 8388608)
                    ltac:(destruct s; lia) ltac:(lia) ltac:(lia)) as (F1 & F2 & F3).
      cbv zeta in F1, F2, F3.
      replace (F32.sign_bit s + (e + 150) * 8388608 + (Zpos m - 8388608))
        with ((if s then 1 else 0) * 2147483648 + (e + 150) * 8388608 + (Zpos m - 8388608))
        by (destruct s; unfold F32.sign_bit; lia).
      unfold F32.dec. rewrite F1, F2, F3.
      destruct (Z.eqb_spec (e + 150) 0); [lia|].
      destruct (Z.eqb_spec (e + 150) 255); [lia|].
      replace (Zpos m - 8388608 + 8388608) with (Zpos m) by lia.
      replace (e + 150 - 150) with e by lia.
      destruct s; reflexivity.
Qed.

End F32Facts.

(** ** Comparison and truncation *)

Section Compare.

Variables prec emax : Z.
Hypothesis Hprec : 0 < prec.
Hypothesis Hemax : prec < emax.

Local Abbreviation emin := (SpecFloat.emin prec emax).
Local Abbreviation fexp := (SpecFloat.fexp prec emax).
Local Abbreviation finite_valid := (finite_valid prec emax).

Lemma canonical_lt m1 e1 m2 e2 :
  bounded prec emax m1 e1 = true -> bounded prec emax m2 e2 = true ->
  e1 < e2 -> (IZR (Zpos m1) * bpow e1 < IZR (Zpos m2) * bpow e2)%R.
Proof.
  intros H1 H2 He. apply bounded_inv in H1, H2.
  destruct H1 as (C1 & _ & D1 & M1), H2 as (C2 & _ & D2 & M2).
  assert (Hd2 : Zpos (digits2_pos m2) = prec) by (rewrite fexp_eq in *; lia).
  pose proof (digits2_pos_bounds m1) as [_ A]. pose proof (digits2_pos_bounds m2) as [B _].
  rewrite Hd2 in B.
  assert (A' : Zpos m1 < 2 ^ prec).
  { assert (2 ^ Zpos (digits2_pos m1) <= 2 ^ prec) by (apply Z.pow_le_mono_r; lia). lia. }
  apply IZR_lt in A'. apply IZR_le in B. rewrite <- bpow_IZR in A', B by lia.
  pose proof (bpow_le (prec + e1) (prec - 1 + e2) ltac:(lia)) as Hb.
  rewrite !bpow_add in Hb.
  pose proof (bpow_gt_0 e1). pose proof (bpow_gt_0 e2).
  assert (IZR (Zpos m1) * bpow e1 < bpow prec * bpow e1)%R
    by (apply Rmult_lt_compat_r; lra).
  assert (bpow (prec - 1) * bpow e2 <= IZR (Zpos m2) * bpow e2)%R
    by (apply Rmult_le_compat_r; lra).
  lra.
Qed.

Lemma SFcompare_spec a b :
  finite_valid a -> finite_valid b ->
  match SFcompare a b with
  | Some Lt => (B2R a < B2R b)%R
  | Some Eq => B2R a = B2R b
  | Some Gt => (B2R b < B2R a)%R
  | None => False
  end.
Proof.
  intros [Va Fa] [Vb Fb].
  destruct a as [sa|sa| |sa ma ea]; try discriminate;
    destruct b as [sb|sb| |sb mb eb]; try discriminate;
    unfold SFcompare; cbn [B2R].
  - reflexivity.
  - assert (0 < IZR (Zpos mb) * bpow eb)%R
      by (apply Rmult_lt_0_compat; [apply IZR_lt; lia | apply bpow_gt_0]).
    destruct sb; cbn [cond_Zopp]; rewrite ?opp_IZR; lra.
  - assert (0 < IZR (Zpos ma) * bpow ea)%R
      by (apply Rmult_lt_0_compat; [apply IZR_lt; lia | apply bpow_gt_0]).
    destruct sa; cbn [cond_Zopp]; rewrite ?opp_IZR; lra.
  - cbn [valid_binary] in Va, Vb.
    assert (Pa : (0 < IZR (Zpos ma) * bpow ea)%R)
      by (apply Rmult_lt_0_compat; [apply IZR_lt; lia | apply bpow_gt_0]).
    assert (Pb : (0 < IZR (Zpos mb) * bpow eb)%R)
      by (apply Rmult_lt_0_compat; [apply IZR_lt; lia | apply bpow_gt_0]).
    pose proof (bpow_gt_0 ea) as Ga.
    assert (Hm : match Pos.compare_cont Eq ma mb with
               | Lt => (IZR (Zpos ma) < IZR (Zpos mb))%R
               | Eq => IZR (Zpos ma) = IZR (Zpos mb)
               | Gt => (IZR (Zpos mb) < IZR (Zpos ma))%R
               end).
    { change (Pos.compare_cont Eq ma mb) with (Pos.compare ma mb).
      destruct (Pos.compare_spec ma mb) as [E | L | G].
      - subst; reflexivity.
      - apply IZR_lt. lia.
      - apply IZR_lt. lia. }
    destruct sa, sb; cbn [cond_Zopp]; rewrite ?opp_IZR; try lra.
    + destruct (Z.compare_spec ea eb) as [E | L | G].
      * subst eb. destruct (Pos.compare_cont Eq ma mb); cbn [CompOpp]; nra.
      * pose proof (canonical_lt ma ea mb eb Va Vb L). lra.
      * pose proof (canonical_lt mb eb ma ea Vb Va G). lra.
    + destruct (Z.compare_spec ea eb) as [E | L | G].
      * subst eb. destruct (Pos.compare_cont Eq ma mb); nra.
      * pose proof (canonical_lt ma ea mb eb Va Vb L). lra.
      * pose proof (canonical_lt mb eb ma ea Vb Va G). lra.
Qed.

Lemma SFltb_iff a b :
  finite_valid a -> finite_valid b ->
  (SFltb a b = true <-> (B2R a < B2R b)%R).
Proof.
  intros Ha Hb. pose proof (SFcompare_spec a b Ha Hb) as H. unfold SFltb.
  destruct (SFcompare a b) as [[ | | ]|]; split; intros; try discriminate;
    try reflexivity; try contradiction; lra.
Qed.

Lemma SFleb_iff a b :
  finite_valid a -> finite_valid b ->
  (SFleb a b = true <-> (B2R a <= B2R b)%R).
Proof.
  intros Ha Hb. pose proof (SFcompare_spec a b Ha Hb) as H. unfold SFleb.
  destruct (SFcompare a b) as [[ | | ]|]; split; intros; try discriminate;
    try reflexivity; try contradiction; lra.
Qed.

End Compare.

Lemma trunc_spec x :
  Fmt.is_finite x = true ->
  exists n, Fmt.trunc x = Some n /\
            ((0 <= B2R x)%R -> (IZR n <= B2R x < IZR n + 1)%R) /\
            ((B2R x <= 0)%R -> (IZR n - 1 < B2R x <= IZR n)%R).
Proof.
  intros Hf. destruct x as [s|s| |s m e]; try discriminate; cbn [Fmt.trunc B2R].
  - exists 0. split; [reflexivity|]. split; intros _; lra.
  - assert (Hnn : 0 <= e -> exists n, Some (Fmt.signed s m * 2 ^ e) = Some n /\
              ((0 <= IZR (cond_Zopp s (Zpos m)) * bpow e)%R ->
               (IZR n <= IZR (cond_Zopp s (Zpos m)) * bpow e < IZR n + 1)%R) /\
              ((IZR (cond_Zopp s (Zpos m)) * bpow e <= 0)%R ->
               (IZR n - 1 < IZR (cond_Zopp s (Zpos m)) * bpow e <= IZR n)%R)).
    { intros He. exists (Fmt.signed s m * 2 ^ e). split; [reflexivity|].
      unfold Fmt.signed. rewrite mult_IZR, <- bpow_IZR by exact He. split; intros _; lra. }
    destruct e as [|p|p]; [apply Hnn; lia | apply Hnn; lia |].
    exists (Z.quot (Fmt.signed s m) (2 ^ Zpos p)). split; [reflexivity|].
    assert (Hk : 0 < 2 ^ Zpos p) by (apply Z.pow_pos_nonneg; lia).
    pose proof (Z.div_mod (Zpos m) (2 ^ Zpos p) ltac:(lia)) as Hdm.
    pose proof (Z.mod_pos_bound (Zpos m) (2 ^ Zpos p) Hk) as Hr.
    set (q := Zpos m / 2 ^ Zpos p) in *. set (r := Zpos m mod 2 ^ Zpos p) in *.
    assert (Eb : bpow (Zneg p) = (/ IZR (2 ^ Zpos p))%R).
    { change (Zneg p) with (- Zpos p). rewrite bpow_opp, bpow_IZR by lia. reflexivity. }
    assert (Hk' : (0 < IZR (2 ^ Zpos p))%R) by (apply IZR_lt; exact Hk).
    assert (Hm : (IZR (Zpos m) * / IZR (2 ^ Zpos p) = IZR q + IZR r * / IZR (2 ^ Zpos p))%R).
    { rewrite Hdm at 1. rewrite plus_IZR, mult_IZR. field. lra. }
    assert (Hr' : (0 <= IZR r * / IZR (2 ^ Zpos p) < 1)%R).
    { destruct Hr as [R1 R2]. apply IZR_le in R1. apply IZR_lt in R2.
      assert (0 < / IZR (2 ^ Zpos p))%R by (apply Rinv_0_lt_compat; exact Hk').
      split; [nra|].
      apply Rmult_lt_reg_r with (IZR (2 ^ Zpos p)); [exact Hk'|].
      rewrite Rmult_assoc, Rinv_l by lra. lra. }
    assert (Hmp : (0 < IZR (Zpos m) * / IZR (2 ^ Zpos p))%R).
    { apply Rmult_lt_0_compat; [apply IZR_lt; lia | apply Rinv_0_lt_compat; exact Hk']. }
    rewrite Eb. unfold Fmt.signed.
    destruct s; cbn [cond_Zopp].
    + rewrite Z.quot_opp_l by lia. rewrite Z.quot_div_nonneg by lia. fold q.
      rewrite !opp_IZR. split; intros H; lra.
    + rewrite Z.quot_div_nonneg by lia. fold q. split; intros H; lra.
Qed.

(** ** Bounds through the operations of [float] *)


Lemma dyadic_float prec emax k e :
  0 < prec -> prec < emax ->
  dyadic_ok prec emax k e = true ->
  exists B, finite_valid prec emax B /\ B2R B = (IZR k * bpow e)%R.
Proof.
  intros Hp He H. unfold dyadic_ok in H.
  apply andb_true_iff in H. destruct H as [H H3].
  apply andb_true_iff in H. destruct H as [H1 H2].
  apply Z.ltb_lt in H1. apply Z.leb_le in H2, H3.
  exists (binary_normalize prec emax k e false).
  apply binary_normalize_exact; assumption.
Qed.

Lemma faithful_dyadic prec emax v r k1 e1 k2 e2 :
  0 < prec -> prec < emax ->
  faithful prec emax v r ->
  dyadic_ok prec emax k1 e1 = true -> dyadic_ok prec emax k2 e2 = true ->
  (IZR k1 * bpow e1 <= v <= IZR k2 * bpow e2)%R ->
  finite_valid prec emax r /\ (IZR k1 * bpow e1 <= B2R r <= IZR k2 * bpow e2)%R.
Proof.
  intros Hp He F D1 D2 Hv.
  destruct (dyadic_float prec emax k1 e1 Hp He D1) as (L & HL & EL).
  destruct (dyadic_float prec emax k2 e2 Hp He D2) as (H & HH & EH).
  rewrite <- EL, <- EH in *. apply (faithful_bounded prec emax v r L H); assumption.
Qed.

Module F32L.
Import F32F.

Lemma val_eq w : val w = B2R (F32.dec w).
Proof. reflexivity. Qed.


Lemma finite_dec w :
  F32.is_finite w = true -> finite_valid F32.prec F32.emax (F32.dec w).
Proof. intros H. split; [apply F32Facts.dec_valid | exact H]. Qed.

Lemma enc_finite r :
  finite_valid F32.prec F32.emax r ->
  F32.is_finite (F32.enc r) = true /\ val (F32.enc r) = B2R r.
Proof.
  intros [Hv Hf]. unfold F32.is_finite, val. rewrite F32Facts.dec_enc by exact Hv.
  split; [exact Hf | reflexivity].
Qed.

Lemma op_bounded v r k1 e1 k2 e2 :
  faithful F32.prec F32.emax v r ->
  dyadic_ok F32.prec F32.emax k1 e1 = true -> dyadic_ok F32.prec F32.emax k2 e2 = true ->
  (IZR k1 * bpow e1 <= v <= IZR k2 * bpow e2)%R ->
  F32.is_finite (F32.enc r) = true /\
  (IZR k1 * bpow e1 <= val (F32.enc r) <= IZR k2 * bpow e2)%R.
Proof.
  intros F D1 D2 Hv.
  destruct (faithful_dyadic _ _ _ _ _ _ _ _ F32Facts.prec_gt_0 F32Facts.prec_lt_emax F D1 D2 Hv)
    as [Hr Hb].
  destruct (enc_finite r Hr) as [H1 H2]. rewrite H2. split; assumption.
Qed.

Lemma add_bounded a b k1 e1 k2 e2 :
  F32.is_finite a = true -> F32.is_finite b = true ->
  dyadic_ok F32.prec F32.emax k1 e1 = true -> dyadic_ok F32.prec F32.emax k2 e2 = true ->
  (IZR k1 * bpow e1 <= val a + val b <= IZR k2 * bpow e2)%R ->
  F32.is_finite (F32.add a b) = true /\
  (IZR k1 * bpow e1 <= val (F32.add a b) <= IZR k2 * bpow e2)%R.
Proof.
  intros Ha Hb. apply op_bounded.
  apply SFadd_faithful; [reflexivity | reflexivity | apply finite_dec, Ha | apply finite_dec, Hb].
Qed.

Lemma sub_bounded a b k1 e1 k2 e2 :
  F32.is_finite a = true -> F32.is_finite b = true ->
  dyadic_ok F32.prec F32.emax k1 e1 = true -> dyadic_ok F32.prec F32.emax k2 e2 = true ->
  (IZR k1 * bpow e1 <= val a - val b <= IZR k2 * bpow e2)%R ->
  F32.is_finite (F32.sub a b) = true /\
  (IZR k1 * bpow e1 <= val (F32.sub a b) <= IZR k2 * bpow e2)%R.
Proof.
  intros Ha Hb. apply op_bounded.
  apply SFsub_faithful; [reflexivity | reflexivity | apply finite_dec, Ha | apply finite_dec, Hb].
Qed.

Lemma mul_bounded a b k1 e1 k2 e2 :
  F32.is_finite a = true -> F32.is_finite b = true ->
  dyadic_ok F32.prec F32.emax k1 e1 = true -> dyadic_ok F32.prec F32.emax k2 e2 = true ->
  (IZR k1 * bpow e1 <= val a * val b <= IZR k2 * bpow e2)%R ->
  F32.is_finite (F32.mul a b) = true /\
  (IZR k1 * bpow e1 <= val (F32.mul a b) <= IZR k2 * bpow e2)%R.
Proof.
  intros Ha Hb. apply op_bounded.
  apply SFmul_faithful; [reflexivity | reflexivity | apply finite_dec, Ha | apply finite_dec, Hb].
Qed.

End F32L.

Import F32F F32L.


Lemma bpow_Zneg_eq p v : Z.pow_pos 2 p = v -> bpow (Zneg p) = (/ IZR v)%R.
Proof.
  intros <-. change (Zneg p) with (- Zpos p). rewrite bpow_opp, bpow_IZR by lia. reflexivity.
Qed.

Lemma bpow_Zpos_eq p v : Z.pow_pos 2 p = v -> bpow (Zpos p) = IZR v.
Proof. intros <-. rewrite bpow_IZR by lia. reflexivity. Qed.

Lemma bpow_0 : bpow 0 = 1%R.
Proof. reflexivity. Qed.

(** Turn [bpow] of a literal exponent into a rational literal. *)
Ltac bpow_lit :=
  repeat match goal with
  | |- context [bpow (Zneg ?p)] =>
      let v := eval vm_compute in (Z.pow_pos 2 p) in
      rewrite (bpow_Zneg_eq p v (eq_refl v <: Z.pow_pos 2 p = v)) in *
  | |- context [bpow (Zpos ?p)] =>
      let v := eval vm_compute in (Z.pow_pos 2 p) in
      rewrite (bpow_Zpos_eq p v (eq_refl v <: Z.pow_pos 2 p = v)) in *
  | H : context [bpow (Zneg ?p)] |- _ =>
      let v := eval vm_compute in (Z.pow_pos 2 p) in
      rewrite (bpow_Zneg_eq p v (eq_refl v <: Z.pow_pos 2 p = v)) in *
  | H : context [bpow (Zpos ?p)] |- _ =>
      let v := eval vm_compute in (Z.pow_pos 2 p) in
      rewrite (bpow_Zpos_eq p v (eq_refl v <: Z.pow_pos 2 p = v)) in *
  end; rewrite ?bpow_0 in *.

(** The value of a literal float. *)
Ltac val_lit c :=
  let d := eval vm_compute in (F32.dec c) in
  let H := fresh "V" in
  assert (H : F32F.val c = B2R d) by (unfold F32F.val; apply f_equal; vm_compute; reflexivity);
  cbn [B2R cond_Zopp Z.opp] in H.

Lemma POLYEXP_bounds f :
  F32.is_finite f = true -> (-1/2 <= F32F.val f <= 3/2)%R ->
  F32.is_finite (POLYEXP f) = true /\ (1/4 <= F32F.val (POLYEXP f) <= 3)%R.
Proof.
  intros Hf Hv. unfold POLYEXP.
  val_lit Lit.exp5. val_lit Lit.exp4. val_lit Lit.exp3.
  val_lit Lit.exp2. val_lit Lit.exp1. val_lit Lit.exp0.
  assert (F5 : F32.is_finite Lit.exp5 = true) by reflexivity.
  assert (F4 : F32.is_finite Lit.exp4 = true) by reflexivity.
  assert (F3 : F32.is_finite Lit.exp3 = true) by reflexivity.
  assert (F2 : F32.is_finite Lit.exp2 = true) by reflexivity.
  assert (F1 : F32.is_finite Lit.exp1 = true) by reflexivity.
  assert (F0 : F32.is_finite Lit.exp0 = true) by reflexivity.
  bpow_lit.
  destruct (F32L.mul_bounded f Lit.exp5 (-1) (-10) 3 (-10) Hf F5 eq_refl eq_refl) as [Gp5 Bp5].
  { rewrite V. bpow_lit. nra. }
  destruct (F32L.add_bounded _ Lit.exp4 1 (-7) 13 (-10) Gp5 F4 eq_refl eq_refl) as [Gs4 Bs4].
  { rewrite V0. bpow_lit. lra. }
  bpow_lit.
  destruct (F32L.mul_bounded f _ (-7) (-10) 20 (-10) Hf Gs4 eq_refl eq_refl) as [Gp4 Bp4].
  { bpow_lit. nra. }
  destruct (F32L.add_bounded _ Lit.exp3 3 (-6) 5 (-6) Gp4 F3 eq_refl eq_refl) as [Gs3 Bs3].
  { rewrite V1. bpow_lit. lra. }
  bpow_lit.
  destruct (F32L.mul_bounded f _ (-5) (-7) 15 (-7) Hf Gs3 eq_refl eq_refl) as [Gp3 Bp3].
  { bpow_lit. nra. }
  destruct (F32L.add_bounded _ Lit.exp2 3 (-4) 6 (-4) Gp3 F2 eq_refl eq_refl) as [Gs2 Bs2].
  { rewrite V2. bpow_lit. lra. }
  bpow_lit.
  destruct (F32L.mul_bounded f _ (-3) (-4) 9 (-4) Hf Gs2 eq_refl eq_refl) as [Gp2 Bp2].
  { bpow_lit. nra. }
  destruct (F32L.add_bounded _ Lit.exp1 1 (-1) 21 (-4) Gp2 F1 eq_refl eq_refl) as [Gs1 Bs1].
  { rewrite V3. bpow_lit. lra. }
  bpow_lit.
  destruct (F32L.mul_bounded f _ (-21) (-5) 63 (-5) Hf Gs1 eq_refl eq_refl) as [Gp1 Bp1].
  { bpow_lit. nra. }
  destruct (F32L.add_bounded _ Lit.exp0 1 (-2) 3 0 Gp1 F0 eq_refl eq_refl) as [Gs0 Bs0].
  { rewrite V4. bpow_lit. lra. }
  bpow_lit.
  split; [exact Gs0 | lra].
Qed.

Lemma wrap_id z : Int32.min_signed <= z <= Int32.max_signed -> Int32.wrap z = z.
Proof.
  unfold Int32.wrap, Int32.min_signed, Int32.max_signed, Int32.modulus.
  change (2 ^ 31) with 2147483648. change (2 ^ 32) with 4294967296. intros H.
  destruct (Z_lt_le_dec z 0) as [Hn | Hp].
  - replace (z mod 4294967296) with (z + 4294967296)
      by (apply Z.mod_unique with (q := -1); lia).
    destruct (Z.ltb_spec (z + 4294967296) 2147483648); lia.
  - rewrite Z.mod_small by lia.
    destruct (Z.ltb_spec z 2147483648); lia.
Qed.

Lemma wrap_mod z : Int32.wrap (z mod 2 ^ 32) = Int32.wrap z.
Proof. unfold Int32.wrap, Int32.modulus. rewrite Z.mod_mod by lia. reflexivity. Qed.

Lemma cell_int n :
  Int32.min_signed <= n <= Int32.max_signed ->
  bitTwiddler.i (bitTwiddler.set_i n) = n.
Proof.
  intros H. unfold bitTwiddler.i, bitTwiddler.set_i. cbn [bitTwiddler.cell].
  rewrite wrap_mod. apply wrap_id, H.
Qed.

Lemma dec_mod w : F32.dec (w mod 2 ^ 32) = F32.dec w.
Proof.
  assert (E : w mod 2 ^ 32 = Z.land w (Z.ones 32)) by (rewrite Z.land_ones by lia; reflexivity).
  unfold F32.dec. rewrite E.
  assert (H1 : Z.testbit (Z.land w (Z.ones 32)) 31 = Z.testbit w 31).
  { rewrite Z.land_spec, Z.ones_spec_low by lia. apply andb_true_r. }
  assert (H2 : Z.land (Z.shiftr (Z.land w (Z.ones 32)) 23) 255 = Z.land (Z.shiftr w 23) 255).
  { rewrite Z.shiftr_land, <- Z.land_assoc. reflexivity. }
  assert (H3 : Z.land (Z.land w (Z.ones 32)) 8388607 = Z.land w 8388607).
  { rewrite <- Z.land_assoc. reflexivity. }
  rewrite H1, H2, H3. reflexivity.
Qed.

Lemma cell_float w : F32.dec (bitTwiddler.f (bitTwiddler.set_f w)) = F32.dec w.
Proof. apply dec_mod. Qed.

Module F32G.

Lemma ltb_spec a b :
  F32.is_finite a = true -> F32.is_finite b = true ->
  if F32.ltb a b then (val a < val b)%R else (val b <= val a)%R.
Proof.
  intros Ha Hb.
  pose proof (SFltb_iff F32.prec F32.emax eq_refl (F32.dec a) (F32.dec b)
                (finite_dec a Ha) (finite_dec b Hb)) as H.
  unfold F32.ltb, val. destruct (SFltb (F32.dec a) (F32.dec b)).
  - apply H. reflexivity.
  - destruct (Rlt_le_dec (B2R (F32.dec a)) (B2R (F32.dec b))) as [L | G]; [|exact G].
    apply H in L. discriminate.
Qed.

Lemma sub_faithful a b :
  F32.is_finite a = true -> F32.is_finite b = true ->
  faithful F32.prec F32.emax (val a - val b) (F32.dec (F32.sub a b)).
Proof.
  intros Ha Hb.
  pose proof (SFsub_faithful F32.prec F32.emax eq_refl eq_refl _ _
                (finite_dec a Ha) (finite_dec b Hb)) as F.
  unfold F32.sub. rewrite F32Facts.dec_enc by exact (proj1 F). exact F.
Qed.

Lemma mul_faithful a b :
  F32.is_finite a = true -> F32.is_finite b = true ->
  faithful F32.prec F32.emax (val a * val b) (F32.dec (F32.mul a b)).
Proof.
  intros Ha Hb.
  pose proof (SFmul_faithful F32.prec F32.emax eq_refl eq_refl _ _
                (finite_dec a Ha) (finite_dec b Hb)) as F.
  unfold F32.mul. rewrite F32Facts.dec_enc by exact (proj1 F). exact F.
Qed.

Lemma of_int_exact n :
  Z.abs n < 2 ^ 24 ->
  F32.is_finite (F32.of_int n) = true /\ val (F32.of_int n) = IZR n.
Proof.
  intros H. unfold F32.of_int, Fmt.of_Z.
  destruct (binary_normalize_exact F32.prec F32.emax eq_refl eq_refl n 0 false H
              ltac:(unfold emin, F32.prec, F32.emax; lia)
              ltac:(unfold F32.prec, F32.emax; lia)) as [Hf Hv].
  destruct (enc_finite _ Hf) as [H1 H2]. rewrite H2, Hv. split; [exact H1|].
  change (bpow 0) with 1%R. lra.
Qed.

End F32G.

Import F32G.


(** A faithful rounding does not cross a float of the format. *)
Lemma faithful_le prec emax v r k e :
  0 < prec -> prec < emax ->
  faithful prec emax v r -> Fmt.is_finite r = true ->
  dyadic_ok prec emax k e = true ->
  (v <= IZR k * bpow e)%R -> (B2R r <= IZR k * bpow e)%R.
Proof.
  intros Hp He [_ F] Hf D Hv.
  destruct (dyadic_float prec emax k e Hp He D) as (B & HB & EB).
  rewrite <- EB in *. destruct (F B HB) as [_ Hb]. specialize (Hb Hv).
  destruct r; try discriminate; exact Hb.
Qed.

Lemma faithful_ge prec emax v r k e :
  0 < prec -> prec < emax ->
  faithful prec emax v r -> Fmt.is_finite r = true ->
  dyadic_ok prec emax k e = true ->
  (IZR k * bpow e <= v)%R -> (IZR k * bpow e <= B2R r)%R.
Proof.
  intros Hp He [_ F] Hf D Hv.
  destruct (dyadic_float prec emax k e Hp He D) as (B & HB & EB).
  rewrite <- EB in *. destruct (F B HB) as [Ha _]. specialize (Ha Hv).
  destruct r; try discriminate; exact Ha.
Qed.

Lemma dyadic_ok_int n : Z.abs n < 2 ^ 24 -> dyadic_ok F32.prec F32.emax n 0 = true.
Proof.
  intros H. unfold dyadic_ok, F32.prec, F32.emax, emin.
  apply andb_true_iff. split; [apply andb_true_iff; split|].
  - apply Z.ltb_lt. exact H.
  - reflexivity.
  - reflexivity.
Qed.

(** ** [fExp2] *)

Lemma fExp2_clamp_spec x :
  F32.is_finite x = true ->
  F32.is_finite (fExp2_clamp x) = true /\
  (val f_LOW <= val (fExp2_clamp x) <= val f_HI)%R /\
  (forall c, (val f_LOW <= c <= val f_HI)%R ->
     ((val x <= c)%R -> (val (fExp2_clamp x) <= c)%R) /\
     ((c <= val x)%R -> (c <= val (fExp2_clamp x))%R)).
Proof.
  intros Hx. unfold fExp2_clamp, F32.min, F32.max.
  assert (FH : F32.is_finite f_HI = true) by reflexivity.
  assert (FL : F32.is_finite f_LOW = true) by reflexivity.
  val_lit f_HI. val_lit f_LOW. bpow_lit.
  pose proof (ltb_spec f_HI x FH Hx) as H1.
  destruct (F32.ltb f_HI x).
  - pose proof (ltb_spec f_HI f_LOW FH FL) as H2.
    destruct (F32.ltb f_HI f_LOW).
    + exfalso. rewrite V, V0 in H2. lra.
    + split; [exact FH|]. rewrite V, V0 in *. split; [lra|]. intros c Hc. split; lra.
  - pose proof (ltb_spec x f_LOW Hx FL) as H2.
    destruct (F32.ltb x f_LOW).
    + split; [exact FL|]. rewrite V, V0 in *. split; [lra|]. intros c Hc. split; lra.
    + split; [exact Hx|]. rewrite V, V0 in *. split; [lra|]. intros c Hc. split; lra.
Qed.

Lemma fExp2_ipart_spec x :
  F32.is_finite x = true ->
  exists n, fExp2_ipart x = Some n /\ -127 <= n <= 128 /\
            (-1/2 < val (fExp2_clamp x) - IZR n < 3/2)%R /\
            ((val x <= 127)%R -> n <= 126) /\
            ((257/2 <= val x)%R -> n = 128) /\
            ((1/2 <= val x)%R -> (0 <= val (F32.sub (fExp2_clamp x) Lit.half))%R).
Proof.
  intros Hx. destruct (fExp2_clamp_spec x Hx) as (Hc & Bc & Bx).
  assert (Bx127 : (val x <= 127)%R -> (val (fExp2_clamp x) <= 127)%R).
  { apply Bx. val_lit f_HI. val_lit f_LOW. rewrite V, V0. bpow_lit. lra. }
  assert (Bx128 : (257/2 <= val x)%R -> (257/2 <= val (fExp2_clamp x))%R).
  { apply Bx. val_lit f_HI. val_lit f_LOW. rewrite V, V0. bpow_lit. lra. }
  assert (Bxh : (1/2 <= val x)%R -> (1/2 <= val (fExp2_clamp x))%R).
  { apply Bx. val_lit f_HI. val_lit f_LOW. rewrite V, V0. bpow_lit. lra. }
  clear Bx.
  unfold fExp2_ipart. remember (fExp2_clamp x) as x' eqn:Ex'. clear Ex'.
  assert (Fh : F32.is_finite Lit.half = true) by reflexivity.
  val_lit Lit.half. val_lit f_HI. val_lit f_LOW.
  pose proof (sub_faithful x' Lit.half Hc Fh) as F.
  destruct (sub_bounded x' Lit.half (-255) (-1) 257 (-1) Hc Fh eq_refl eq_refl) as [Ft Bt].
  { rewrite V. rewrite V0, V1 in Bc. bpow_lit. lra. }
  remember (F32.sub x' Lit.half) as t eqn:Et. clear Et.
  destruct (trunc_spec (F32.dec t) Ft) as (n & Hn & Hpos & Hneg).
  rewrite <- (val_eq t) in Hpos, Hneg.
  assert (Hrange : -127 <= n <= 128).
  { bpow_lit. destruct (Rle_dec 0 (val t)) as [P | N].
    - specialize (Hpos P).
      assert (A1 : (IZR (-1) < IZR n)%R) by lra. assert (A2 : (IZR n < IZR 129)%R) by lra.
      apply lt_IZR in A1, A2. lia.
    - assert (N' : (val t <= 0)%R) by lra. specialize (Hneg N').
      assert (A1 : (IZR (-128) < IZR n)%R) by lra. assert (A2 : (IZR n < IZR 1)%R) by lra.
      apply lt_IZR in A1, A2. lia. }
  assert (Hlt : (val t < IZR n + 1)%R).
  { destruct (Rle_dec 0 (val t)) as [P | N]; [apply Hpos, P | ].
    assert (N' : (val t <= 0)%R) by lra. specialize (Hneg N'). lra. }
  assert (Hgt : (IZR n - 1 < val t)%R).
  { destruct (Rle_dec 0 (val t)) as [P | N]; [specialize (Hpos P); lra | ].
    assert (N' : (val t <= 0)%R) by lra. apply Hneg, N'. }
  assert (Hup : (val x' - val Lit.half < IZR n + 1)%R).
  { destruct (Rlt_le_dec (val x' - val Lit.half) (IZR n + 1)) as [L | G]; [exact L | exfalso].
    pose proof (faithful_ge F32.prec F32.emax _ _ (n + 1) 0 eq_refl eq_refl F Ft
                  (dyadic_ok_int (n + 1) ltac:(change (2 ^ 24) with 16777216; lia))) as Q.
    change (bpow 0) with 1%R in Q. rewrite plus_IZR, Rmult_1_r in Q.
    specialize (Q G). rewrite <- (val_eq t) in Q. lra. }
  assert (Hlo : (IZR n - 1 < val x' - val Lit.half)%R).
  { destruct (Rlt_le_dec (IZR n - 1) (val x' - val Lit.half)) as [L | G]; [exact L | exfalso].
    pose proof (faithful_le F32.prec F32.emax _ _ (n - 1) 0 eq_refl eq_refl F Ft
                  (dyadic_ok_int (n - 1) ltac:(change (2 ^ 24) with 16777216; lia))) as Q.
    change (bpow 0) with 1%R in Q. rewrite minus_IZR, Rmult_1_r in Q.
    specialize (Q G). rewrite <- (val_eq t) in Q. lra. }
  exists n. split; [|split; [exact Hrange | split; [|split; [|split]]]].
  - unfold F32.to_int. rewrite Hn.
    unfold Int32.in_range, Int32.min_signed, Int32.max_signed.
    change (- 2 ^ 31) with (-2147483648). change (2 ^ 31 - 1) with 2147483647.
    destruct (Z.leb_spec (-2147483648) n); [|lia].
    destruct (Z.leb_spec n 2147483647); [|lia]. reflexivity.
  - rewrite V in Hup, Hlo. bpow_lit. lra.
  - intros Hx127. specialize (Bx127 Hx127).
    pose proof (faithful_le F32.prec F32.emax _ _ 253 (-1) eq_refl eq_refl F Ft eq_refl) as Q.
    rewrite <- (val_eq t) in Q. rewrite V in Q. bpow_lit.
    specialize (Q ltac:(lra)).
    assert (IZR n < 127)%R by lra. apply lt_IZR in H. lia.
  - intros Hx128.
    specialize (Bx128 Hx128).
    pose proof (faithful_ge F32.prec F32.emax _ _ 128 0 eq_refl eq_refl F Ft eq_refl) as Q.
    rewrite <- (val_eq t) in Q. rewrite V in Q. bpow_lit.
    specialize (Q ltac:(lra)).
    assert (127 < IZR n)%R by lra. apply lt_IZR in H. lia.
  - intros Hxh. specialize (Bxh Hxh).
    pose proof (faithful_ge F32.prec F32.emax _ _ 0 0 eq_refl eq_refl F Ft eq_refl) as Q.
    rewrite <- (val_eq t) in Q. rewrite V in Q. bpow_lit.
    specialize (Q ltac:(lra)). lra.
Qed.

(** The float whose exponent field is [E] and whose other bits are clear. *)
Lemma dec_exponent_field E :
  0 <= E <= 255 ->
  F32.dec (E * 8388608) =
  if E =? 0 then S754_zero false
  else if E =? 255 then S754_infinity false
  else S754_finite false 8388608 (E - 150).
Proof.
  intros HE.
  pose proof (F32Facts.fields 0 E 0 ltac:(lia) ltac:(lia) ltac:(lia)) as (F1 & F2 & F3).
  cbv zeta in F1, F2, F3. replace (0 * 2147483648 + E * 8388608 + 0) with (E * 8388608) in * by lia.
  unfold F32.dec. rewrite F1, F2, F3. cbn [Z.eqb Z.add].
  destruct (E =? 0); [reflexivity|]. destruct (E =? 255); reflexivity.
Qed.

Lemma fExp2_expipart n :
  -127 <= n <= 128 ->
  bitTwiddler.f (bitTwiddler.set_i (Int32.shl (Int32.add n 127) 23)) = (n + 127) * 8388608.
Proof.
  intros H. unfold Int32.shl, Int32.add.
  rewrite (wrap_id (n + 127))
    by (unfold Int32.min_signed, Int32.max_signed; change (2 ^ 31) with 2147483648; lia).
  rewrite Z.shiftl_mul_pow2 by lia. change (2 ^ 23) with 8388608.
  rewrite wrap_id
    by (unfold Int32.min_signed, Int32.max_signed; change (2 ^ 31) with 2147483648; lia).
  unfold bitTwiddler.f, bitTwiddler.set_i. cbn [bitTwiddler.cell].
  change (2 ^ 32) with 4294967296. apply Z.mod_small. lia.
Qed.

Lemma fExp2_fpart_spec x n :
  F32.is_finite x = true -> -127 <= n <= 128 ->
  (-1/2 < val x - IZR n < 3/2)%R ->
  F32.is_finite (bitTwiddler.f (bitTwiddler.set_f (F32.sub x (F32.of_int n)))) = true /\
  (-1/2 <= val (bitTwiddler.f (bitTwiddler.set_f (F32.sub x (F32.of_int n)))) <= 3/2)%R.
Proof.
  intros Hx Hn Hv.
  destruct (of_int_exact n ltac:(change (2 ^ 24) with 16777216; lia)) as [Fn Vn].
  destruct (sub_bounded x (F32.of_int n) (-1) (-1) 3 (-1) Hx Fn eq_refl eq_refl) as [Ff Bf].
  { rewrite Vn. bpow_lit. lra. }
  split.
  - unfold F32.is_finite. rewrite cell_float. exact Ff.
  - rewrite val_eq, cell_float, <- val_eq. bpow_lit. lra.
Qed.

(** The product of the float with exponent field [n + 127] by a float
    between 1/4 and 3. *)
Lemma fExp2_scale_spec n P :
  -127 <= n <= 128 ->
  F32.is_finite P = true -> (1/4 <= val P <= 3)%R ->
  let y := F32.mul ((n + 127) * 8388608) P in
  F32.is_nan y = false /\
  (F32.is_finite y = true /\ (0 <= val y)%R \/ F32.dec y = S754_infinity false) /\
  (n <= 126 -> F32.is_finite y = true) /\
  (n = 128 -> F32.dec y = S754_infinity false).
Proof.
  intros Hn FP BP y. subst y.
  unfold F32.mul. rewrite dec_exponent_field by lia.
  assert (HP : exists m e, F32.dec P = S754_finite false m e).
  { rewrite val_eq in BP. unfold F32.is_finite in FP.
    destruct (F32.dec P) as [s|s| |s m e]; try discriminate; cbn [B2R] in BP; [lra|].
    destruct s; [|eauto]. exfalso. cbn [cond_Zopp] in BP. rewrite opp_IZR in BP.
    assert (0 < IZR (Zpos m) * bpow e)%R
      by (apply Rmult_lt_0_compat; [apply IZR_lt; lia | apply bpow_gt_0]).
    lra. }
  destruct (Z.eqb_spec (n + 127) 0) as [E0 | E0].
  { destruct HP as (m & e & ->). cbn [SFmul xorb F32.enc F32.sign_bit].
    split; [reflexivity|]. split; [left; split; [reflexivity | vm_compute; lra]|].
    split; [reflexivity | lia]. }
  destruct (Z.eqb_spec (n + 127) 255) as [E1 | E1].
  { destruct HP as (m & e & ->). cbn [SFmul xorb F32.enc F32.sign_bit].
    split; [reflexivity|]. split; [right; reflexivity|].
    split; [lia | reflexivity]. }
  assert (Fe : finite_valid F32.prec F32.emax (S754_finite false 8388608 (n + 127 - 150))).
  { split; [|reflexivity]. cbn [valid_binary]. unfold bounded, canonical_mantissa.
    apply andb_true_iff. split; [apply Z.eqb_eq | apply Z.leb_le].
    - change (Zpos (digits2_pos 8388608)) with 24. unfold fexp, emin, F32.prec, F32.emax. lia.
    - unfold F32.prec, F32.emax. lia. }
  pose proof (SFmul_faithful F32.prec F32.emax eq_refl eq_refl _ _ Fe (finite_dec P FP)) as F.
  rewrite <- (val_eq P) in F.
  assert (Ve : B2R (S754_finite false 8388608 (n + 127 - 150)) = bpow n).
  { cbn [B2R cond_Zopp]. change 8388608 with (2 ^ 23). rewrite <- bpow_IZR by lia.
    rewrite <- bpow_add. f_equal. lia. }
  rewrite Ve in F.
  remember (SFmul F32.prec F32.emax (S754_finite false 8388608 (n + 127 - 150)) (F32.dec P))
    as r eqn:Er. clear Er.
  pose proof (bpow_gt_0 n) as Gn.
  assert (Hpos : (0 <= bpow n * val P)%R) by nra.
  assert (Hr : F32.dec (F32.enc r) = r) by (apply F32Facts.dec_enc; exact (proj1 F)).
  unfold F32.is_nan, F32.is_finite. rewrite val_eq, Hr.
  destruct F as [Vr F].
  destruct (F (S754_zero false) (finite_valid_zero F32.prec F32.emax false)) as [A0 _].
  cbn [B2R] in A0. specialize (A0 Hpos). unfold above in A0.
  split; [|split; [|split]].
  - destruct r; try reflexivity. contradiction.
  - destruct r as [s|s| |s m e]; try contradiction.
    + left. split; [reflexivity | exact A0].
    + right. subst s. reflexivity.
    + left. split; [reflexivity | exact A0].
  - intros Hn126.
    destruct (faithful_dyadic F32.prec F32.emax (bpow n * val P) r 0 0 12582912 104
                eq_refl eq_refl (conj Vr F) eq_refl eq_refl) as [[_ Hfin] _]; [|exact Hfin].
    pose proof (bpow_le n 126 Hn126) as Hb.
    replace (IZR 12582912 * bpow 104)%R with (3 * bpow 126)%R.
    + change (bpow 0) with 1%R. nra.
    + bpow_lit. lra.
  - intros ->. lia.
Qed.

Lemma fExp2_body_spec x n :
  F32.is_finite x = true -> -127 <= n <= 128 ->
  (-1/2 < val x - IZR n < 3/2)%R ->
  let y := fExp2_body x n in
  F32.is_nan y = false /\
  (F32.is_finite y = true /\ (0 <= val y)%R \/ F32.dec y = S754_infinity false) /\
  (n <= 126 -> F32.is_finite y = true) /\
  (n = 128 -> F32.dec y = S754_infinity false).
Proof.
  intros Hx Hn Hv y. subst y. unfold fExp2_body.
  rewrite cell_int
    by (unfold Int32.min_signed, Int32.max_signed; change (2 ^ 31) with 2147483648; lia).
  rewrite fExp2_expipart by exact Hn.
  destruct (fExp2_fpart_spec x n Hx Hn Hv) as [Ffp Bfp].
  destruct (POLYEXP_bounds _ Ffp Bfp) as [FP BP].
  exact (fExp2_scale_spec n _ Hn FP BP).
Qed.

Theorem fExp2_total_no_nan x :
  F32.is_finite x = true ->
  exists n y,
    fExp2_ipart x = Some n /\ -127 <= n <= 128 /\
    fExp2 x = Some y /\
    F32.is_nan y = false /\
    (F32.is_finite y = true /\ (0 <= val y)%R \/ F32.dec y = S754_infinity false) /\
    ((val x <= 127)%R -> F32.is_finite y = true) /\
    ((257/2 <= val x)%R -> F32.dec y = S754_infinity false).
Proof.
  intros Hx.
  destruct (fExp2_ipart_spec x Hx) as (n & Hi & Hn & Hv & H127 & H128 & _).
  destruct (fExp2_clamp_spec x Hx) as (Hc & _).
  destruct (fExp2_body_spec (fExp2_clamp x) n Hc Hn Hv) as (B1 & B2 & B3 & B4).
  exists n, (fExp2_body (fExp2_clamp x) n).
  split; [exact Hi|]. split; [exact Hn|]. split; [unfold fExp2; rewrite Hi; reflexivity|].
  split; [exact B1|]. split; [exact B2|]. split.
  - intros H. apply B3, H127, H.
  - intros H. apply B4, H128, H.
Qed.

Lemma leb_spec a b :
  F32.is_finite a = true -> F32.is_finite b = true ->
  if F32.leb a b then (val a <= val b)%R else (val b < val a)%R.
Proof.
  intros Ha Hb.
  pose proof (SFleb_iff F32.prec F32.emax eq_refl (F32.dec a) (F32.dec b)
                (finite_dec a Ha) (finite_dec b Hb)) as H.
  unfold F32.leb. rewrite !val_eq. destruct (SFleb (F32.dec a) (F32.dec b)).
  - apply H. reflexivity.
  - destruct (Rle_lt_dec (B2R (F32.dec a)) (B2R (F32.dec b))) as [L | G]; [|exact G].
    apply H in L. discriminate.
Qed.

Lemma enc_range r :
  valid_binary F32.prec F32.emax r = true -> 0 <= F32.enc r < 2 ^ 32.
Proof.
  intros Hv. change (2 ^ 32) with 4294967296.
  destruct r as [s|s| |s m e]; cbn [F32.enc]; unfold F32.sign_bit.
  - destruct s; lia.
  - destruct s; lia.
  - lia.
  - cbn [valid_binary] in Hv. apply bounded_inv in Hv.
    destruct Hv as (Hc & Hb & Hd & Hmin).
    unfold fexp, emin, F32.prec, F32.emax in *.
    pose proof (digits2_pos_bounds m) as [_ Hm].
    assert (Hm' : Zpos m < 2 ^ 24).
    { assert (2 ^ Zpos (digits2_pos m) <= 2 ^ 24) by (apply Z.pow_le_mono_r; lia). lia. }
    change (2 ^ 24) with 16777216 in Hm'.
    destruct (Z.ltb_spec (Zpos m) 8388608); destruct s; lia.
Qed.

Lemma cell_float_id r :
  valid_binary F32.prec F32.emax r = true ->
  bitTwiddler.f (bitTwiddler.set_f (F32.enc r)) = F32.enc r.
Proof.
  intros Hv. unfold bitTwiddler.f, bitTwiddler.set_f. cbn [bitTwiddler.cell].
  apply Z.mod_small, enc_range, Hv.
Qed.

Lemma sub_valid a b :
  F32.is_finite a = true -> F32.is_finite b = true ->
  valid_binary F32.prec F32.emax (SFsub F32.prec F32.emax (F32.dec a) (F32.dec b)) = true.
Proof.
  intros Ha Hb.
  exact (proj1 (SFsub_faithful F32.prec F32.emax eq_refl eq_refl _ _
                  (finite_dec a Ha) (finite_dec b Hb))).
Qed.

(** The conversion of C is the ceiling of a negative number and the floor
    of any other. *)
Lemma trunc_floor_ceil x :
  Fmt.trunc x = if Fmt.is_negative x then Fmt.ceil x else Fmt.floor x.
Proof.
  destruct x as [s|s| |s m e]; cbn [Fmt.trunc Fmt.is_negative Fmt.ceil Fmt.floor].
  - destruct s; reflexivity.
  - destruct s; reflexivity.
  - reflexivity.
  - destruct e as [|p|p]; [destruct s; reflexivity | destruct s; reflexivity |].
    assert (Hk : 0 < 2 ^ Zpos p) by (apply Z.pow_pos_nonneg; lia).
    unfold Fmt.signed. destruct s; cbn [cond_Zopp].
    + rewrite Z.opp_involutive. rewrite Z.quot_opp_l by lia.
      rewrite Z.quot_div_nonneg by lia. reflexivity.
    + rewrite Z.quot_div_nonneg by lia. reflexivity.
Qed.

Lemma floor_of_nonneg x :
  Fmt.is_finite x = true -> (0 <= B2R x)%R ->
  (if Fmt.is_negative x then Fmt.ceil x else Fmt.floor x) = Fmt.floor x.
Proof.
  intros Hf Hv. destruct x as [s|s| |s m e]; try discriminate;
    cbn [Fmt.is_negative Fmt.ceil Fmt.floor].
  - destruct s; reflexivity.
  - destruct s; [exfalso | reflexivity]. cbn [B2R cond_Zopp] in Hv. rewrite opp_IZR in Hv.
    assert (0 < IZR (Zpos m) * bpow e)%R
      by (apply Rmult_lt_0_compat; [apply IZR_lt; lia | apply bpow_gt_0]).
    lra.
Qed.

Lemma floor_of_trunc t n :
  F32.is_finite t = true -> (0 <= val t)%R ->
  Fmt.trunc (F32.dec t) = Some n -> Fmt.floor (F32.dec t) = Some n.
Proof.
  intros Ft Hv Ht. rewrite <- Ht, trunc_floor_ceil. symmetry.
  apply floor_of_nonneg; [exact Ft | exact Hv].
Qed.

Lemma fExp2_body_eq x n :
  F32.is_finite x = true -> -127 <= n <= 128 ->
  fExp2_body x n
  = F32.mul (Z.shiftl (n + 127) 23) (POLYEXP (F32.sub x (F32.of_int n))).
Proof.
  intros Hx Hn. unfold fExp2_body.
  rewrite cell_int
    by (unfold Int32.min_signed, Int32.max_signed; change (2 ^ 31) with 2147483648; lia).
  rewrite fExp2_expipart by exact Hn.
  destruct (of_int_exact n ltac:(change (2 ^ 24) with 16777216; lia)) as [Fn _].
  unfold F32.sub at 1. rewrite cell_float_id by (apply sub_valid; assumption).
  rewrite Z.shiftl_mul_pow2 by lia. reflexivity.
Qed.

(** C1, amended.  For a finite argument [fExp2] returns a float and no
    error: the clamp keeps the exponent field [n + 127] between 0 and 255,
    so the conversion to [int] is defined and the shift does not reach the
    sign bit.  The result is never a NaN; it is finite or plus infinity,
    finite when the argument is at most 127.0, and plus infinity when the
    argument is 128.5 or more (the field is then 255). *)
Theorem fExp2_finite_or_infinite (x : Z) :
  F32.is_finite x = true ->
  exists n y,
    fExp2_ipart x = Some n /\ 0 <= n + 127 <= 255 /\
    fExp2 x = Some y /\
    F32.is_nan y = false /\
    (F32.is_finite y = true \/ F32.dec y = S754_infinity false) /\
    (F32.leb x (F32.lit 127 0) = true -> F32.is_finite y = true) /\
    (F32.leb (F32.lit 1285 (-1)) x = true -> F32.dec y = S754_infinity false).
Proof.
  intros Hx.
  destruct (fExp2_total_no_nan x Hx) as (n & y & H1 & H2 & H3 & H4 & H5 & H6 & H7).
  exists n, y. split; [exact H1|]. split; [lia|]. split; [exact H3|]. split; [exact H4|].
  split; [destruct H5 as [[H5 _] | H5]; [left | right]; exact H5|]. split.
  - intros L. apply H6.
    pose proof (leb_spec x (F32.lit 127 0) Hx eq_refl) as Q. rewrite L in Q.
    val_lit (F32.lit 127 0). rewrite V in Q. bpow_lit. lra.
  - intros L. apply H7.
    pose proof (leb_spec (F32.lit 1285 (-1)) x eq_refl Hx) as Q. rewrite L in Q.
    val_lit (F32.lit 1285 (-1)). rewrite V in Q. bpow_lit. lra.
Qed.

Lemma fExp2_finite_or_infinite_witness :
  F32.is_finite Lit.one = true /\
  exists n y,
    fExp2_ipart Lit.one = Some n /\ 0 <= n + 127 <= 255 /\
    fExp2 Lit.one = Some y /\
    F32.is_nan y = false /\
    (F32.is_finite y = true \/ F32.dec y = S754_infinity false) /\
    (F32.leb Lit.one (F32.lit 127 0) = true -> F32.is_finite y = true) /\
    (F32.leb (F32.lit 1285 (-1)) Lit.one = true -> F32.dec y = S754_infinity false).
Proof.
  split; [reflexivity | exact (fExp2_finite_or_infinite Lit.one eq_refl)].
Defined.

(** C3, amended.  For a finite argument, with [x'] the clamped argument
    and [t] the float [x' - 0.5f]: the integer part [n] is [t] rounded
    toward zero (its ceiling when [t] is negative, its floor otherwise), the
    fraction is the float [x' - (float)n], and the result is the float with
    the bits [(n + 127) << 23] times [POLYEXP] of the fraction.  When the
    argument is at least 0.5, [n] is the floor of [t], and the function
    agrees with the specification's wording. *)
Theorem fExp2_split (x : Z) :
  F32.is_finite x = true ->
  exists n,
    fExp2_ipart x = Some n /\
    (if Fmt.is_negative (F32.dec (F32.sub (fExp2_clamp x) Lit.half))
     then Fmt.ceil (F32.dec (F32.sub (fExp2_clamp x) Lit.half))
     else Fmt.floor (F32.dec (F32.sub (fExp2_clamp x) Lit.half))) = Some n /\
    fExp2 x = Some (F32.mul (Z.shiftl (n + 127) 23)
                            (POLYEXP (F32.sub (fExp2_clamp x) (F32.of_int n)))) /\
    (F32.leb Lit.half x = true ->
     Fmt.floor (F32.dec (F32.sub (fExp2_clamp x) Lit.half)) = Some n /\
     fExp2 x = fExp2_floor_model x).
Proof.
  intros Hx.
  destruct (fExp2_ipart_spec x Hx) as (n & Hi & Hn & _ & _ & _ & Hh).
  destruct (fExp2_clamp_spec x Hx) as (Hc & _).
  assert (Ht : Fmt.trunc (F32.dec (F32.sub (fExp2_clamp x) Lit.half)) = Some n).
  { unfold fExp2_ipart, F32.to_int in Hi.
    destruct (Fmt.trunc (F32.dec (F32.sub (fExp2_clamp x) Lit.half))) as [k|]; [|discriminate].
    destruct (Int32.in_range k); [exact Hi | discriminate]. }
  assert (Hin : Int32.in_range n = true).
  { unfold Int32.in_range, Int32.min_signed, Int32.max_signed.
    change (- 2 ^ 31) with (-2147483648). change (2 ^ 31 - 1) with 2147483647.
    apply andb_true_iff. split; apply Z.leb_le; lia. }
  assert (Hf : fExp2 x = Some (F32.mul (Z.shiftl (n + 127) 23)
                            (POLYEXP (F32.sub (fExp2_clamp x) (F32.of_int n))))).
  { unfold fExp2. rewrite Hi. rewrite fExp2_body_eq by assumption. reflexivity. }
  exists n. split; [exact Hi|]. split; [rewrite <- trunc_floor_ceil; exact Ht|].
  split; [exact Hf|].
  intros L.
  assert (Hxh : (1/2 <= val x)%R).
  { pose proof (leb_spec Lit.half x eq_refl Hx) as Q. rewrite L in Q.
    val_lit Lit.half. rewrite V in Q. bpow_lit. lra. }
  specialize (Hh Hxh).
  assert (Ft : F32.is_finite (F32.sub (fExp2_clamp x) Lit.half) = true).
  { destruct (sub_bounded (fExp2_clamp x) Lit.half (-255) (-1) 257 (-1) Hc eq_refl
                eq_refl eq_refl) as [Ft _]; [|exact Ft].
    destruct (fExp2_clamp_spec x Hx) as (_ & Bc & _).
    val_lit Lit.half. val_lit f_HI. val_lit f_LOW. rewrite V0, V1 in Bc. rewrite V.
    bpow_lit. lra. }
  assert (Hfl : Fmt.floor (F32.dec (F32.sub (fExp2_clamp x) Lit.half)) = Some n).
  { exact (floor_of_trunc _ n Ft Hh Ht). }
  split; [exact Hfl|].
  rewrite Hf. unfold fExp2_floor_model. rewrite Hfl, Hin.
  unfold Int32.shl, Int32.add.
  rewrite (wrap_id (n + 127))
    by (unfold Int32.min_signed, Int32.max_signed; change (2 ^ 31) with 2147483648; lia).
  assert (Hs : Z.shiftl (n + 127) 23 = (n + 127) * 8388608)
    by (rewrite Z.shiftl_mul_pow2 by lia; reflexivity).
  rewrite Hs.
  rewrite wrap_id
    by (unfold Int32.min_signed, Int32.max_signed; change (2 ^ 31) with 2147483648; lia).
  unfold bitTwiddler.f, bitTwiddler.set_i. cbn [bitTwiddler.cell].
  change (2 ^ 32) with 4294967296. rewrite Z.mod_small by lia. reflexivity.
Qed.

Lemma fExp2_split_witness :
  F32.is_finite Lit.three_halves = true /\
  F32.leb Lit.half Lit.three_halves = true /\
  exists n,
    fExp2_ipart Lit.three_halves = Some n /\
    Fmt.floor (F32.dec (F32.sub (fExp2_clamp Lit.three_halves) Lit.half)) = Some n /\
    fExp2 Lit.three_halves = fExp2_floor_model Lit.three_halves.
Proof.
  split; [reflexivity|]. split; [reflexivity|].
  destruct (fExp2_split Lit.three_halves eq_refl) as (n & H1 & _ & _ & H4).
  exists n. split; [exact H1 | exact (H4 eq_refl)].
Defined.

(** ** [double] *)

Module F64L.
Import F64F.

Lemma to_double_exact w :
  F32.is_finite w = true ->
  fv (F32.to_double w) /\ B2R (F32.to_double w) = val w.
Proof.
  intros Hw. pose proof (F32Facts.dec_valid w) as Hv.
  unfold F32.to_double. rewrite val_eq. unfold F32.is_finite in Hw.
  destruct (F32.dec w) as [s|s| |s m e]; try discriminate; cbn [Fmt.conv].
  - split; [split; reflexivity | reflexivity].
  - cbn [valid_binary] in Hv. apply bounded_inv in Hv. destruct Hv as (_ & Hb & Hd & Hmin).
    unfold emin, F32.prec, F32.emax in *.
    pose proof (digits2_pos_bounds m) as [_ Hm].
    assert (Hm' : Zpos m < 2 ^ 24).
    { assert (2 ^ Zpos (digits2_pos m) <= 2 ^ 24) by (apply Z.pow_le_mono_r; lia). lia. }
    assert (Hlt : Z.abs (Fmt.signed s m) < 2 ^ F64.prec).
    { unfold Fmt.signed, F64.prec. 
      assert (2 ^ 24 <= 2 ^ 53) by (apply Z.pow_le_mono_r; lia).
      destruct s; cbn [cond_Zopp]; lia. }
    exact (binary_normalize_exact F64.prec F64.emax eq_refl eq_refl (Fmt.signed s m) e s Hlt
             ltac:(unfold emin, F64.prec, F64.emax; lia)
             ltac:(unfold F64.prec, F64.emax; lia)).
Qed.

Lemma add64_bounded a b k1 e1 k2 e2 :
  fv a -> fv b ->
  dyadic_ok F64.prec F64.emax k1 e1 = true -> dyadic_ok F64.prec F64.emax k2 e2 = true ->
  (IZR k1 * bpow e1 <= B2R a + B2R b <= IZR k2 * bpow e2)%R ->
  fv (F64.add a b) /\ (IZR k1 * bpow e1 <= B2R (F64.add a b) <= IZR k2 * bpow e2)%R.
Proof.
  intros Ha Hb. apply faithful_dyadic; [reflexivity | reflexivity |].
  apply SFadd_faithful; [reflexivity | reflexivity | exact Ha | exact Hb].
Qed.

Lemma mul64_bounded a b k1 e1 k2 e2 :
  fv a -> fv b ->
  dyadic_ok F64.prec F64.emax k1 e1 = true -> dyadic_ok F64.prec F64.emax k2 e2 = true ->
  (IZR k1 * bpow e1 <= B2R a * B2R b <= IZR k2 * bpow e2)%R ->
  fv (F64.mul a b) /\ (IZR k1 * bpow e1 <= B2R (F64.mul a b) <= IZR k2 * bpow e2)%R.
Proof.
  intros Ha Hb. apply faithful_dyadic; [reflexivity | reflexivity |].
  apply SFmul_faithful; [reflexivity | reflexivity | exact Ha | exact Hb].
Qed.

Lemma of_double_bounded d k1 e1 k2 e2 :
  fv d ->
  dyadic_ok F32.prec F32.emax k1 e1 = true -> dyadic_ok F32.prec F32.emax k2 e2 = true ->
  (IZR k1 * bpow e1 <= B2R d <= IZR k2 * bpow e2)%R ->
  F32.is_finite (F32.of_double d) = true /\
  (IZR k1 * bpow e1 <= val (F32.of_double d) <= IZR k2 * bpow e2)%R.
Proof.
  intros [Hv Hf]. unfold F32.of_double. apply op_bounded.
  destruct d as [s|s| |s m e]; try discriminate; cbn [Fmt.conv].
  - apply faithful_exact; [split; reflexivity | reflexivity].
  - apply binary_normalize_faithful; reflexivity.
Qed.

End F64L.

(** The value of a literal double. *)
Ltac val64_lit c :=
  let d := eval vm_compute in c in
  let H := fresh "W" in
  assert (H : B2R c = B2R d) by (apply f_equal; vm_compute; reflexivity);
  cbn [B2R cond_Zopp Z.opp] in H.

Lemma POLYLOG_bounds x :
  F32.is_finite x = true -> (1 <= val x <= 2)%R ->
  F32.is_finite (POLYLOG x) = true /\ (-3 <= val (POLYLOG x) <= 6)%R.
Proof.
  intros Hx Hv. unfold POLYLOG.
  val_lit Lit.log5. val_lit Lit.log4. val_lit Lit.log3.
  val64_lit Lit.log2.
  val64_lit (F32.to_double Lit.log1). val64_lit (F32.to_double Lit.log0).
  assert (F5 : F32.is_finite Lit.log5 = true) by reflexivity.
  assert (F4 : F32.is_finite Lit.log4 = true) by reflexivity.
  assert (F3 : F32.is_finite Lit.log3 = true) by reflexivity.
  assert (F2 : F64F.fv Lit.log2) by (split; reflexivity).
  assert (F1 : F64F.fv (F32.to_double Lit.log1)) by (split; reflexivity).
  assert (F0 : F64F.fv (F32.to_double Lit.log0)) by (split; reflexivity).
  destruct (F64L.to_double_exact x Hx) as [Fxd Vxd].
  bpow_lit.
  destruct (mul_bounded x Lit.log5 (-5) (-6) (-1) (-5) Hx F5 eq_refl eq_refl) as [Gp5 Bp5].
  { rewrite V. bpow_lit. nra. }
  destruct (add_bounded _ Lit.log4 15 (-6) 19 (-6) Gp5 F4 eq_refl eq_refl) as [Gt1 Bt1].
  { rewrite V0. bpow_lit. lra. }
  bpow_lit.
  destruct (mul_bounded x _ 15 (-6) 19 (-5) Hx Gt1 eq_refl eq_refl) as [Gp4 Bp4].
  { bpow_lit. nra. }
  destruct (add_bounded _ Lit.log3 (-1) 0 (-5) (-3) Gp4 F3 eq_refl eq_refl) as [Gt2 Bt2].
  { rewrite V1. bpow_lit. lra. }
  bpow_lit.
  destruct (mul_bounded x _ (-2) 0 (-5) (-3) Hx Gt2 eq_refl eq_refl) as [Gp3 Bp3].
  { bpow_lit. nra. }
  bpow_lit.
  destruct (F64L.to_double_exact _ Gp3) as [Fp3 Vp3].
  destruct (F64L.add64_bounded _ Lit.log2 1 (-1) 2 0 Fp3 F2 eq_refl eq_refl) as [Gt3 Bt3].
  { rewrite Vp3, W. bpow_lit. lra. }
  bpow_lit.
  destruct (F64L.mul64_bounded _ _ 1 (-1) 4 0 Fxd Gt3 eq_refl eq_refl) as [Gp2 Bp2].
  { rewrite Vxd. bpow_lit. nra. }
  bpow_lit.
  destruct (F64L.add64_bounded _ _ (-3) 0 1 0 Gp2 F1 eq_refl eq_refl) as [Gt4 Bt4].
  { rewrite W0. bpow_lit. lra. }
  bpow_lit.
  destruct (F64L.mul64_bounded _ _ (-6) 0 2 0 Fxd Gt4 eq_refl eq_refl) as [Gp1 Bp1].
  { rewrite Vxd. bpow_lit. nra. }
  bpow_lit.
  destruct (F64L.add64_bounded _ _ (-3) 0 6 0 Gp1 F0 eq_refl eq_refl) as [Gt5 Bt5].
  { rewrite W1. bpow_lit. lra. }
  bpow_lit.
  destruct (F64L.of_double_bounded _ (-3) 0 6 0 Gt5 eq_refl eq_refl) as [Gr Br].
  { bpow_lit. lra. }
  bpow_lit. split; [exact Gr | lra].
Qed.

(** ** [fLog2] *)

Lemma wrap_mod_eq u : Int32.wrap u mod 2 ^ 32 = u mod 2 ^ 32.
Proof.
  unfold Int32.wrap, Int32.modulus.
  pose proof (Z.mod_pos_bound u (2 ^ 32) ltac:(lia)) as H.
  destruct (Z.ltb_spec (u mod 2 ^ 32) (2 ^ 31)).
  - apply Z.mod_mod. lia.
  - replace (u mod 2 ^ 32 - 2 ^ 32) with (u mod 2 ^ 32 + (-1) * 2 ^ 32) by lia.
    rewrite Z.mod_add by lia. apply Z.mod_mod. lia.
Qed.

(** A mask of at most 32 bits reads the same bits in an [int] and in the
    cell it was read from. *)
Lemma land_low32 a mask : Z.land (Z.ones 32) mask = mask ->
  Z.land (a mod 2 ^ 32) mask = Z.land a mask.
Proof.
  intros H. rewrite <- Z.land_ones by lia. rewrite <- Z.land_assoc, H. reflexivity.
Qed.

Lemma land_wrap u mask : Z.land (Z.ones 32) mask = mask ->
  Z.land (Int32.wrap u) mask = Z.land u mask.
Proof.
  intros H. rewrite <- (land_low32 (Int32.wrap u) mask H), wrap_mod_eq.
  apply land_low32, H.
Qed.

Lemma land_cell_int x mask : Z.land (Z.ones 32) mask = mask ->
  Z.land (bitTwiddler.i (bitTwiddler.set_f x)) mask = Z.land x mask.
Proof.
  intros H. unfold bitTwiddler.i, bitTwiddler.set_f. cbn [bitTwiddler.cell].
  rewrite land_wrap by exact H. apply land_low32, H.
Qed.

(** The exponent read by [fLog2] (line 105). *)
Lemma fLog2_exponent x :
  exists E, 0 <= E <= 255 /\
    Int32.sub (Int32.shr (Int32.and (bitTwiddler.i (bitTwiddler.set_f x)) LOG_EXP) 23) 127
    = E - 127.
Proof.
  exists (Z.land (Z.shiftr x 23) 255).
  assert (HE : 0 <= Z.land (Z.shiftr x 23) 255 < 256).
  { change 255 with (Z.ones 8). rewrite Z.land_ones by lia. apply Z.mod_pos_bound. lia. }
  split; [lia|].
  unfold Int32.sub, Int32.shr, Int32.and.
  rewrite land_cell_int by reflexivity.
  rewrite Z.shiftr_land. change (Z.shiftr LOG_EXP 23) with 255.
  apply wrap_id. unfold Int32.min_signed, Int32.max_signed.
  change (2 ^ 31) with 2147483648. lia.
Qed.

(** The mantissa read by [fLog2] (line 106): a float in [1, 2). *)
Lemma fLog2_mantissa x :
  exists M, 0 <= M < 8388608 /\
    bitTwiddler.f (bitTwiddler.set_i
      (Int32.or (Int32.and (bitTwiddler.i (bitTwiddler.set_f x)) LOG_MANT)
                (bitTwiddler.i (bitTwiddler.set_f Lit.one))))
    = 127 * 8388608 + M /\
    F32.dec (127 * 8388608 + M) = S754_finite false (Z.to_pos (M + 8388608)) (-23).
Proof.
  exists (Z.land x LOG_MANT).
  assert (HM : 0 <= Z.land x LOG_MANT < 8388608).
  { change LOG_MANT with (Z.ones 23). rewrite Z.land_ones by lia. apply Z.mod_pos_bound. lia. }
  split; [exact HM|]. split.
  - unfold Int32.or, Int32.and. rewrite land_cell_int by reflexivity.
    change (bitTwiddler.i (bitTwiddler.set_f Lit.one)) with 1065353216.
    assert (Hl : Z.land (Z.land x LOG_MANT) 1065353216 = 0).
    { rewrite <- Z.land_assoc. change (Z.land LOG_MANT 1065353216) with 0.
      apply Z.land_0_r. }
    pose proof (Z.add_lor_land (Z.land x LOG_MANT) 1065353216) as Ha. rewrite Hl in Ha.
    unfold bitTwiddler.f, bitTwiddler.set_i. cbn [bitTwiddler.cell].
    change (2 ^ 32) with 4294967296. rewrite Z.mod_small by lia. lia.
  - pose proof (F32Facts.fields 0 127 (Z.land x LOG_MANT) ltac:(lia) ltac:(lia) HM)
      as (F1 & F2 & F3).
    cbv zeta in F1, F2, F3.
    replace (0 * 2147483648 + 127 * 8388608 + Z.land x LOG_MANT)
      with (127 * 8388608 + Z.land x LOG_MANT) in * by lia.
    unfold F32.dec. rewrite F1, F2, F3. cbn [Z.eqb Pos.eqb].
    destruct (Z.land x LOG_MANT + 8388608) as [|p|p] eqn:Ep; try lia. reflexivity.
Qed.

Lemma fLog2_body_bounds M E :
  0 <= M < 8388608 -> 0 <= E <= 255 ->
  let m := 127 * 8388608 + M in
  F32.is_finite
    (F32.add (F32.mul (POLYLOG m) (F32.sub m Lit.one)) (F32.of_int (E - 127))) = true.
Proof.
  intros HM HE m.
  assert (Dm : F32.dec m = S754_finite false (Z.to_pos (M + 8388608)) (-23)).
  { subst m.
    pose proof (F32Facts.fields 0 127 M ltac:(lia) ltac:(lia) HM) as (F1 & F2 & F3).
    cbv zeta in F1, F2, F3.
    replace (0 * 2147483648 + 127 * 8388608 + M) with (127 * 8388608 + M) in * by lia.
    unfold F32.dec. rewrite F1, F2, F3. cbn [Z.eqb Pos.eqb].
    destruct (M + 8388608) as [|p|p] eqn:Ep; try lia. reflexivity. }
  assert (Fm : F32.is_finite m = true) by (unfold F32.is_finite; rewrite Dm; reflexivity).
  assert (Vm : (1 <= val m <= 2)%R).
  { rewrite val_eq, Dm. cbn [B2R cond_Zopp]. rewrite Z2Pos.id by lia.
    bpow_lit. destruct HM as [M1 M2]. apply IZR_le in M1. apply IZR_lt in M2.
    rewrite plus_IZR. lra. }
  clearbody m.
  destruct (POLYLOG_bounds m Fm Vm) as [FP BP].
  val_lit Lit.one.
  destruct (sub_bounded m Lit.one 0 0 1 0 Fm eq_refl eq_refl eq_refl) as [Fd Bd].
  { rewrite V. bpow_lit. lra. }
  bpow_lit.
  destruct (mul_bounded _ _ (-3) 0 6 0 FP Fd eq_refl eq_refl) as [Fp Bp].
  { bpow_lit. nra. }
  bpow_lit.
  destruct (of_int_exact (E - 127) ltac:(change (2 ^ 24) with 16777216; lia)) as [Fe Ve].
  destruct (add_bounded _ _ (-130) 0 134 0 Fp Fe eq_refl eq_refl) as [Fr _]; [|exact Fr].
  rewrite Ve, minus_IZR. destruct HE as [E1 E2]. apply IZR_le in E1, E2. bpow_lit. lra.
Qed.

Lemma fLog2_fabs x : fLog2 (F32.fabs x) = fLog2 x.
Proof.
  unfold fLog2, Int32.and, F32.fabs.
  rewrite !land_cell_int by reflexivity.
  rewrite <- !Z.land_assoc.
  change (Z.land 2147483647 LOG_EXP) with LOG_EXP.
  change (Z.land 2147483647 LOG_MANT) with LOG_MANT.
  reflexivity.
Qed.

Lemma finite_not_nan w : F32.is_finite w = true -> F32.is_nan w = false.
Proof.
  unfold F32.is_finite, F32.is_nan. destruct (F32.dec w); try discriminate; reflexivity.
Qed.

Lemma of_int_cell n :
  bitTwiddler.f (bitTwiddler.set_f (F32.of_int n)) = F32.of_int n.
Proof.
  unfold F32.of_int. apply cell_float_id.
  exact (proj1 (binary_normalize_faithful F32.prec F32.emax eq_refl eq_refl n 0 false)).
Qed.

Lemma one_cell : bitTwiddler.f (bitTwiddler.set_f Lit.one) = Lit.one.
Proof. reflexivity. Qed.

Lemma fLog2_finite x : F32.is_finite (fLog2 x) = true.
Proof.
  unfold fLog2.
  destruct (fLog2_exponent x) as (E & HE & ->).
  destruct (fLog2_mantissa x) as (M & HM & -> & _).
  rewrite one_cell, of_int_cell.
  exact (fLog2_body_bounds M E HM HE).
Qed.

(** C9. [fLog2] is a function of the 32 bits of its argument alone and,
    whatever those bits are (zero, negative, subnormal, infinite, NaN), its
    result is a finite float: the exponent field gives an integer between
    -127 and 128, the mantissa field with the exponent of 1.0f gives a
    float in [1, 2), and the polynomial of such a float is bounded.  The
    sign bit is not read. *)
Theorem fLog2_total (x : Z) :
  F32.is_finite (fLog2 x) = true /\
  F32.is_nan (fLog2 x) = false /\
  fLog2 (F32.fabs x) = fLog2 x.
Proof.
  split; [apply fLog2_finite|]. split; [apply finite_not_nan, fLog2_finite | apply fLog2_fabs].
Qed.

(** ** [fSin] *)

Lemma ltb64_spec a b :
  F64F.fv a -> F64F.fv b ->
  if F64.ltb a b then (B2R a < B2R b)%R else (B2R b <= B2R a)%R.
Proof.
  intros Ha Hb.
  pose proof (SFltb_iff F64.prec F64.emax eq_refl a b Ha Hb) as H.
  unfold F64.ltb. destruct (SFltb a b).
  - apply H. reflexivity.
  - destruct (Rlt_le_dec (B2R a) (B2R b)) as [L | G]; [|exact G].
    apply H in L. discriminate.
Qed.

Lemma leb_true a b :
  F32.is_finite a = true -> F32.is_finite b = true ->
  (val a <= val b)%R -> F32.leb a b = true.
Proof.
  intros Ha Hb H. pose proof (leb_spec a b Ha Hb) as Q.
  destruct (F32.leb a b); [reflexivity | lra].
Qed.

(** No float lies strictly between 13176794 * 2^-22 and (float)M_PI, and
    M_PI is between them. *)
Lemma float_above_M_PI w :
  F32.is_finite w = true -> (B2R M_PI < val w)%R -> (val Lit.pi <= val w)%R.
Proof.
  intros Hw H.
  pose proof (grid F32.prec F32.emax eq_refl 13176794 (-22) (F32.dec w) ltac:(lia) eq_refl
                (finite_dec w Hw)) as G.
  rewrite <- val_eq in G. val_lit Lit.pi. val64_lit M_PI. rewrite V. rewrite W in H.
  bpow_lit. lra.
Qed.

Lemma float_below_M_PI w :
  F32.is_finite w = true -> (val w < - B2R M_PI)%R -> (val w <= - val Lit.pi)%R.
Proof.
  intros Hw H.
  pose proof (grid F32.prec F32.emax eq_refl 13176794 (-22) (SFopp (F32.dec w)) ltac:(lia)
                eq_refl (finite_valid_opp F32.prec F32.emax _ (finite_dec w Hw))) as G.
  rewrite B2R_opp, <- val_eq in G. val_lit Lit.pi. val64_lit M_PI. rewrite V. rewrite W in H.
  bpow_lit. lra.
Qed.

Lemma val_neg_pi : val (F32.neg Lit.pi) = (- val Lit.pi)%R.
Proof. val_lit (F32.neg Lit.pi). val_lit Lit.pi. rewrite V, V0. bpow_lit. lra. Qed.

(** ** [fAsin] and [fAcos] *)

Lemma dyadic_ok_intro prec emax k e :
  Z.abs k < 2 ^ prec -> emin prec emax <= e -> prec + e <= emax ->
  dyadic_ok prec emax k e = true.
Proof.
  intros H1 H2 H3. unfold dyadic_ok.
  apply andb_true_iff. split; [apply andb_true_iff; split|].
  - apply Z.ltb_lt, H1.
  - apply Z.leb_le, H2.
  - apply Z.leb_le, H3.
Qed.

(** A float between two finite floats is finite. *)
Lemma between_finite a x b :
  F32.is_finite a = true -> F32.is_finite b = true ->
  F32.leb a x = true -> F32.leb x b = true -> F32.is_finite x = true.
Proof.
  unfold F32.is_finite, F32.leb, SFleb.
  destruct (F32.dec a) as [sa|sa| |sa ma ea]; try discriminate;
    destruct (F32.dec b) as [sb|sb| |sb mb eb]; try discriminate;
    destruct (F32.dec x) as [s|s| |s m e]; intros _ _; unfold SFcompare;
    try reflexivity; try discriminate; destruct s; discriminate.
Qed.

(** A float of the format is determined by its value, when that is not
    zero. *)
Lemma finite_value_inj r s m e :
  finite_valid F32.prec F32.emax r ->
  bounded F32.prec F32.emax m e = true ->
  B2R r = B2R (S754_finite s m e) -> r = S754_finite s m e.
Proof.
  intros [Hv Hf] Hb E.
  destruct r as [s'|s'| |s' m' e']; try discriminate.
  - exfalso. cbn [B2R] in E.
    assert (0 < IZR (Zpos m) * bpow e)%R
      by (apply Rmult_lt_0_compat; [apply IZR_lt; lia | apply bpow_gt_0]).
    destruct s; cbn [cond_Zopp] in E; rewrite ?opp_IZR in E; lra.
  - apply (B2R_inj F32.prec F32.emax); assumption.
Qed.

(** A sum whose exact value is a float is that float. *)
Lemma add_exact a b c s m e :
  F32.is_finite a = true -> F32.is_finite b = true ->
  F32.dec c = S754_finite s m e -> F32.enc (S754_finite s m e) = c ->
  (val a + val b = val c)%R -> F32.add a b = c.
Proof.
  intros Ha Hb Dc Ec E.
  pose proof (SFadd_faithful F32.prec F32.emax eq_refl eq_refl _ _
                (finite_dec a Ha) (finite_dec b Hb)) as F.
  rewrite <- !val_eq, E in F.
  pose proof (F32Facts.dec_valid c) as Vc. rewrite Dc in Vc.
  assert (Fc : finite_valid F32.prec F32.emax (S754_finite s m e)) by (split; [exact Vc | reflexivity]).
  rewrite val_eq, Dc in F.
  destruct (faithful_representable F32.prec F32.emax _ _ _ F Fc eq_refl) as [Fr Vr].
  unfold F32.add. rewrite (finite_value_inj _ s m e Fr Vc Vr). exact Ec.
Qed.

(** Sterbenz: for [b] between a/2 and 2a, with a = (float)M_PI_2, the
    difference [a - b] is a float, and adding [b] back gives [a]. *)
Lemma sub_add_pi_2 b :
  F32.is_finite b = true ->
  (val Lit.pi_4 <= val b <= val Lit.pi)%R ->
  F32.add (F32.sub Lit.pi_2 b) b = Lit.pi_2.
Proof.
  intros Hb Bb.
  val_lit Lit.pi_4. val_lit Lit.pi. val_lit Lit.pi_2. rewrite V, V0 in Bb.
  assert (Hsub : F32.is_finite (F32.sub Lit.pi_2 b) = true /\
                 val (F32.sub Lit.pi_2 b) = (val Lit.pi_2 - val b)%R).
  { pose proof (F32Facts.dec_valid b) as Vb. unfold F32.is_finite in Hb.
    rewrite val_eq in Bb. rewrite (val_eq b).
    pose proof (fun k e (D : dyadic_ok F32.prec F32.emax k e = true) =>
                  sub_bounded Lit.pi_2 b k e k e eq_refl Hb D D) as S.
    rewrite (val_eq b) in S.
    destruct (F32.dec b) as [s|s| |s m e]; try discriminate; cbn [B2R] in Bb, S |- *.
    { exfalso. bpow_lit. lra. }
    cbn [valid_binary] in Vb. apply bounded_inv in Vb. destruct Vb as (Hc & _ & Hd & Hmin).
    unfold fexp, emin, F32.prec, F32.emax in Hc, Hd, Hmin.
    pose proof (digits2_pos_bounds m) as [Hm1 Hm2].
    assert (Pm : (0 < IZR (Zpos m))%R) by (apply IZR_lt; lia).
    pose proof (bpow_gt_0 e) as Ge.
    destruct s; cbn [cond_Zopp] in Bb, S |- *.
    { exfalso. rewrite opp_IZR in Bb. bpow_lit. nra. }
    assert (Hm24 : Zpos m < 16777216).
    { assert (2 ^ Zpos (digits2_pos m) <= 2 ^ 24) by (apply Z.pow_le_mono_r; lia).
      change (2 ^ 24) with 16777216 in *. lia. }
    assert (He1 : -24 <= e).
    { destruct (Z_lt_le_dec e (-24)) as [L|]; [exfalso | lia].
      pose proof (bpow_le e (-25) ltac:(lia)) as Q. apply IZR_lt in Hm24. bpow_lit. nra. }
    assert (Hd24 : Zpos (digits2_pos m) = 24) by lia.
    rewrite Hd24 in Hm1. change (2 ^ (24 - 1)) with 8388608 in Hm1.
    assert (He2 : e <= -22).
    { destruct (Z_lt_le_dec (-22) e) as [L|]; [exfalso | lia].
      pose proof (bpow_le (-21) e ltac:(lia)) as Q. apply IZR_le in Hm1. bpow_lit. nra. }
    assert (Hcase : e = -24 \/ e = -23 \/ e = -22) by lia.
    destruct Hcase as [-> | [-> | ->]]; bpow_lit.
    - assert (Hm : 13176795 <= Zpos m).
      { apply le_IZR. lra. }
      destruct (S (26353590 - Zpos m) (-24)) as [S1 S2].
      + apply dyadic_ok_intro; [change (2 ^ F32.prec) with 16777216; lia | unfold emin, F32.prec, F32.emax; lia | unfold F32.prec, F32.emax; lia].
      + rewrite V1, minus_IZR. bpow_lit. lra.
      + split; [exact S1|]. rewrite V1. rewrite minus_IZR in S2. bpow_lit. lra.
    - destruct (S (13176795 - Zpos m) (-23)) as [S1 S2].
      + apply dyadic_ok_intro; [change (2 ^ F32.prec) with 16777216; lia | unfold emin, F32.prec, F32.emax; lia | unfold F32.prec, F32.emax; lia].
      + rewrite V1, minus_IZR. bpow_lit. lra.
      + split; [exact S1|]. rewrite V1. rewrite minus_IZR in S2. bpow_lit. lra.
    - assert (Hm : Zpos m <= 13176795).
      { apply le_IZR. lra. }
      destruct (S (13176795 - 2 * Zpos m) (-23)) as [S1 S2].
      + apply dyadic_ok_intro; [change (2 ^ F32.prec) with 16777216; lia | unfold emin, F32.prec, F32.emax; lia | unfold F32.prec, F32.emax; lia].
      + rewrite V1, minus_IZR, mult_IZR. bpow_lit. lra.
      + split; [exact S1|]. rewrite V1. rewrite minus_IZR, mult_IZR in S2. bpow_lit. lra. }
  destruct Hsub as [Fs Vs].
  apply (add_exact _ _ Lit.pi_2 false 13176795 (-23) Fs Hb); [reflexivity | reflexivity |].
  rewrite Vs. lra.
Qed.

Lemma fAsin_bounds x :
  F32.is_finite x = true -> (3/4 <= val x <= 1)%R ->
  F32.is_finite (fAsin x) = true /\
  (val Lit.pi_4 <= val (fAsin x) <= val Lit.pi)%R.
Proof.
  intros Hx Hv. unfold fAsin.
  val_lit Lit.asin5. val_lit Lit.asin4. val_lit Lit.asin3.
  val_lit Lit.asin2. val_lit Lit.asin1. val_lit Lit.pi_4. val_lit Lit.pi.
  assert (F5 : F32.is_finite Lit.asin5 = true) by reflexivity.
  assert (F4 : F32.is_finite Lit.asin4 = true) by reflexivity.
  assert (F3 : F32.is_finite Lit.asin3 = true) by reflexivity.
  assert (F2 : F32.is_finite Lit.asin2 = true) by reflexivity.
  assert (F1 : F32.is_finite Lit.asin1 = true) by reflexivity.
  bpow_lit.
  destruct (mul_bounded x x 9 (-4) 1 0 Hx Hx eq_refl eq_refl) as [Gx2 Bx2].
  { bpow_lit. nra. }
  bpow_lit.
  remember (F32.mul x x) as x2 eqn:Ex2. clear Ex2.
  destruct (mul_bounded Lit.asin5 x2 3 (-8) 3 (-7) F5 Gx2 eq_refl eq_refl) as [Gq5 Bq5].
  { rewrite V. bpow_lit. nra. }
  destruct (add_bounded Lit.asin4 _ 5 (-7) 7 (-7) F4 Gq5 eq_refl eq_refl) as [Gs4 Bs4].
  { rewrite V0. bpow_lit. lra. }
  bpow_lit.
  destruct (mul_bounded _ x2 5 (-8) 7 (-7) Gs4 Gx2 eq_refl eq_refl) as [Gq4 Bq4].
  { bpow_lit. nra. }
  destruct (add_bounded Lit.asin3 _ 1 (-4) 13 (-7) F3 Gq4 eq_refl eq_refl) as [Gs3 Bs3].
  { rewrite V1. bpow_lit. lra. }
  bpow_lit.
  destruct (mul_bounded _ x2 1 (-5) 13 (-7) Gs3 Gx2 eq_refl eq_refl) as [Gq3 Bq3].
  { bpow_lit. nra. }
  destruct (add_bounded Lit.asin2 _ 13 (-7) 23 (-7) F2 Gq3 eq_refl eq_refl) as [Gs2 Bs2].
  { rewrite V2. bpow_lit. lra. }
  bpow_lit.
  destruct (mul_bounded _ x2 7 (-7) 23 (-7) Gs2 Gx2 eq_refl eq_refl) as [Gq2 Bq2].
  { bpow_lit. nra. }
  destruct (add_bounded Lit.asin1 _ 7 (-5) 23 (-6) F1 Gq2 eq_refl eq_refl) as [Gs1 Bs1].
  { rewrite V3. bpow_lit. lra. }
  bpow_lit.
  destruct (mul_bounded _ x2 15 (-7) 23 (-6) Gs1 Gx2 eq_refl eq_refl) as [Gq1 Bq1].
  { bpow_lit. nra. }
  bpow_lit.
  destruct (add_bounded x _ 13176795 (-24) 13176795 (-22) Hx Gq1 eq_refl eq_refl) as [Gr Br].
  { bpow_lit. lra. }
  bpow_lit. split; [exact Gr|]. rewrite V4, V5. lra.
Qed.

(** C5, amended.  [fAcos x] is the float difference [(float)M_PI_2 - fAsin x],
    and adding [fAsin x] back gives (float)M_PI_2 exactly whenever
    [fAsin x] is a float between (float)M_PI_4 and (float)M_PI, where by
    Sterbenz's lemma the difference is exact; this is so for every [x]
    between 0.75 and 1.  For the other arguments of [-1, 1] the sum is only
    a rounding of pi/2. *)
Theorem fAcos_plus_fAsin (x : Z) :
  (F32.leb Lit.pi_4 (fAsin x) = true -> F32.leb (fAsin x) Lit.pi = true ->
   F32.add (fAcos x) (fAsin x) = Lit.pi_2) /\
  (F32.leb (F32.lit 75 (-2)) x = true -> F32.leb x Lit.one = true ->
   F32.add (fAcos x) (fAsin x) = Lit.pi_2).
Proof.
  assert (G : forall b, F32.leb Lit.pi_4 b = true -> F32.leb b Lit.pi = true ->
                        F32.add (F32.sub Lit.pi_2 b) b = Lit.pi_2).
  { intros b L1 L2.
    assert (Hb : F32.is_finite b = true)
      by (apply (between_finite Lit.pi_4 b Lit.pi); [reflexivity | reflexivity | exact L1 | exact L2]).
    apply sub_add_pi_2; [exact Hb|].
    pose proof (leb_spec Lit.pi_4 b eq_refl Hb) as Q1. rewrite L1 in Q1.
    pose proof (leb_spec b Lit.pi Hb eq_refl) as Q2. rewrite L2 in Q2. lra. }
  split.
  - intros L1 L2. unfold fAcos. apply G; assumption.
  - intros L1 L2.
    assert (Hx : F32.is_finite x = true)
      by (apply (between_finite (F32.lit 75 (-2)) x Lit.one);
          [reflexivity | reflexivity | exact L1 | exact L2]).
    pose proof (leb_spec (F32.lit 75 (-2)) x eq_refl Hx) as Q1. rewrite L1 in Q1.
    pose proof (leb_spec x Lit.one Hx eq_refl) as Q2. rewrite L2 in Q2.
    val_lit (F32.lit 75 (-2)). val_lit Lit.one. rewrite V in Q1. rewrite V0 in Q2.
    bpow_lit.
    destruct (fAsin_bounds x Hx ltac:(lra)) as [Fa Ba].
    unfold fAcos. apply sub_add_pi_2; assumption.
Qed.

Lemma fAcos_plus_fAsin_witness :
  F32.leb (F32.lit 75 (-2)) (F32.lit 875 (-3)) = true /\
  F32.leb (F32.lit 875 (-3)) Lit.one = true /\
  F32.add (fAcos (F32.lit 875 (-3))) (fAsin (F32.lit 875 (-3))) = Lit.pi_2.
Proof.
  split; [reflexivity|]. split; [reflexivity|].
  exact (proj2 (fAcos_plus_fAsin (F32.lit 875 (-3))) eq_refl eq_refl).
Defined.

(** ** The float modulo of [fSin] *)

(** A faithful rounding of a value of magnitude below [2^(24+e)] is off by
    at most [2^e]. *)
Lemma faithful_abs_error v r e :
  faithful F32.prec F32.emax v r -> -149 <= e <= 104 ->
  (-16777214 * bpow e <= v <= 16777214 * bpow e)%R ->
  finite_valid F32.prec F32.emax r /\ (v - bpow e <= B2R r <= v + bpow e)%R.
Proof.
  intros F He Hv.
  pose proof (bpow_gt_0 e) as Ge.
  remember (v / bpow e)%R as t eqn:Et.
  assert (Hvt : v = (t * bpow e)%R) by (subst t; field; lra).
  assert (Ht : (-16777214 <= t <= 16777214)%R).
  { rewrite Hvt in Hv. split.
    - apply (Rmult_le_reg_r (bpow e)); [exact Ge | lra].
    - apply (Rmult_le_reg_r (bpow e)); [exact Ge | lra]. }
  destruct (archimed t) as [A1 A2].
  remember (up t - 1) as j eqn:Ej.
  assert (Ej' : IZR j = (IZR (up t) - 1)%R) by (subst j; rewrite minus_IZR; reflexivity).
  assert (J1 : (IZR j <= t)%R) by lra.
  assert (J2 : (t < IZR j + 1)%R) by lra.
  assert (Jlo : -16777215 <= j).
  { assert (A : (IZR (-16777216) < IZR j)%R) by lra. apply lt_IZR in A. lia. }
  assert (Jhi : j <= 16777214).
  { assert (A : (IZR j < IZR 16777215)%R) by lra. apply lt_IZR in A. lia. }
  assert (D1 : dyadic_ok F32.prec F32.emax j e = true).
  { apply dyadic_ok_intro.
    - change (2 ^ F32.prec) with 16777216. lia.
    - unfold emin, F32.prec, F32.emax. lia.
    - unfold F32.prec, F32.emax. lia. }
  assert (D2 : dyadic_ok F32.prec F32.emax (j + 1) e = true).
  { apply dyadic_ok_intro.
    - change (2 ^ F32.prec) with 16777216. lia.
    - unfold emin, F32.prec, F32.emax. lia.
    - unfold F32.prec, F32.emax. lia. }
  assert (B : (IZR j * bpow e <= v <= IZR (j + 1) * bpow e)%R).
  { rewrite Hvt, plus_IZR. split; apply Rmult_le_compat_r; lra. }
  destruct (faithful_dyadic F32.prec F32.emax v r j e (j + 1) e eq_refl eq_refl F D1 D2 B)
    as [Fr Br].
  split; [exact Fr|]. rewrite plus_IZR in Br. rewrite Hvt in *.
  assert (X1 : (IZR j * bpow e <= t * bpow e)%R) by (apply Rmult_le_compat_r; lra).
  assert (X2 : (t * bpow e <= (IZR j + 1) * bpow e)%R) by (apply Rmult_le_compat_r; lra).
  lra.
Qed.

Lemma mul_abs_error a b e :
  F32.is_finite a = true -> F32.is_finite b = true -> -149 <= e <= 104 ->
  (-16777214 * bpow e <= val a * val b <= 16777214 * bpow e)%R ->
  F32.is_finite (F32.mul a b) = true /\
  (val a * val b - bpow e <= val (F32.mul a b) <= val a * val b + bpow e)%R.
Proof.
  intros Ha Hb He Hv.
  destruct (faithful_abs_error _ _ e (mul_faithful a b Ha Hb) He Hv) as [[_ Fr] Br].
  split; [exact Fr | rewrite val_eq; exact Br].
Qed.

(** The conversion and the subtraction of line 195, for an argument of
    magnitude at most 10^7: the quotient [x * (float)M_1_2PI] is off by at
    most 1/8 and its integer part [k] fits an [int] and a [float]; the
    product [k * (float)M_2PI] is off by at most 1; so the difference is
    within [-2, 8.5] for [x >= 0] and within [-8.5, 2] for [x <= 0]. *)
Lemma fSin_modulo_spec x :
  F32.is_finite x = true -> (-10000000 <= val x <= 10000000)%R ->
  exists k,
    F32.to_int (F32.mul x Lit.inv_two_pi) = Some k /\
    F32.is_finite (F32.sub x (F32.mul (F32.of_int k) Lit.two_pi)) = true /\
    (-17/2 <= val (F32.sub x (F32.mul (F32.of_int k) Lit.two_pi)) <= 17/2)%R.
Proof.
  intros Hx Bx.
  assert (Fc : F32.is_finite Lit.inv_two_pi = true) by reflexivity.
  assert (FT : F32.is_finite Lit.two_pi = true) by reflexivity.
  val_lit Lit.inv_two_pi. val_lit Lit.two_pi. bpow_lit.
  destruct (mul_abs_error x Lit.inv_two_pi (-3) Hx Fc ltac:(lia)) as [Fp Bp].
  { rewrite V. bpow_lit. lra. }
  pose proof (mul_faithful x Lit.inv_two_pi Hx Fc) as Fq.
  assert (Sp : ((0 <= val x)%R -> (0 <= val (F32.mul x Lit.inv_two_pi))%R) /\
               ((val x <= 0)%R -> (val (F32.mul x Lit.inv_two_pi) <= 0)%R)).
  { split; intros S.
    - pose proof (faithful_ge F32.prec F32.emax _ _ 0 0 eq_refl eq_refl Fq Fp eq_refl) as Q.
      rewrite <- val_eq in Q. rewrite V in Q. bpow_lit.
      assert (Q' := Q ltac:(lra)). lra.
    - pose proof (faithful_le F32.prec F32.emax _ _ 0 0 eq_refl eq_refl Fq Fp eq_refl) as Q.
      rewrite <- val_eq in Q. rewrite V in Q. bpow_lit.
      assert (Q' := Q ltac:(lra)). lra. }
  clear Fq. rewrite V in Bp. bpow_lit.
  remember (F32.mul x Lit.inv_two_pi) as p eqn:Ep. clear Ep.
  destruct (trunc_spec (F32.dec p) Fp) as (k & Hk & Hpos & Hneg).
  rewrite <- (val_eq p) in Hpos, Hneg.
  assert (Hkp : (IZR k - 1 < val p < IZR k + 1)%R /\
                ((0 <= val x)%R -> (0 <= IZR k <= val p)%R) /\
                ((val x <= 0)%R -> (val p <= IZR k <= 0)%R)).
  { destruct Sp as [S1 S2]. split; [|split].
    - destruct (Rle_dec 0 (val p)) as [P | N].
      + specialize (Hpos P). lra.
      + assert (N' : (val p <= 0)%R) by lra. specialize (Hneg N'). lra.
    - intros S. specialize (Hpos (S1 S)).
      assert (A : (IZR (-1) < IZR k)%R) by lra. apply lt_IZR in A.
      assert (A' : (IZR 0 <= IZR k)%R) by (apply IZR_le; lia). lra.
    - intros S. specialize (Hneg (S2 S)).
      assert (A : (IZR k < IZR 1)%R) by lra. apply lt_IZR in A.
      assert (A' : (IZR k <= IZR 0)%R) by (apply IZR_le; lia). lra. }
  clear Hpos Hneg Sp. destruct Hkp as (K1 & K2 & K3).
  assert (Kr : -1591551 <= k <= 1591551).
  { assert (A1 : (IZR (-1591552) < IZR k)%R) by lra.
    assert (A2 : (IZR k < IZR 1591552)%R) by lra.
    apply lt_IZR in A1, A2. lia. }
  exists k. split.
  { unfold F32.to_int. rewrite Hk.
    unfold Int32.in_range, Int32.min_signed, Int32.max_signed.
    change (- 2 ^ 31) with (-2147483648). change (2 ^ 31 - 1) with 2147483647.
    destruct (Z.leb_spec (-2147483648) k); [|lia].
    destruct (Z.leb_spec k 2147483647); [|lia]. reflexivity. }
  destruct (of_int_exact k ltac:(change (2 ^ 24) with 16777216; lia)) as [Fk Vk].
  destruct (mul_abs_error (F32.of_int k) Lit.two_pi 0 Fk FT ltac:(lia)) as [Fm Bm].
  { rewrite Vk, V0. bpow_lit.
    destruct (Rle_dec 0 (val x)) as [P | N].
    - specialize (K2 P). lra.
    - assert (N' : (val x <= 0)%R) by lra. specialize (K3 N'). lra. }
  rewrite Vk, V0 in Bm. bpow_lit.
  remember (F32.mul (F32.of_int k) Lit.two_pi) as m eqn:Em. clear Em.
  destruct (sub_bounded x m (-17) (-1) 17 (-1) Hx Fm eq_refl eq_refl) as [Fr Br].
  { bpow_lit.
    destruct (Rle_dec 0 (val x)) as [P | N].
    - specialize (K2 P). lra.
    - assert (N' : (val x <= 0)%R) by lra. specialize (K3 N'). lra. }
  split; [exact Fr|]. bpow_lit. lra.
Qed.

(** The adjustment by [(float)M_2PI] of lines 196-203 brings every float of
    magnitude at most 9 between [-(float)M_PI] and [(float)M_PI]. *)
Lemma fSin_adjust_spec y :
  F32.is_finite y = true -> (-9 <= val y <= 9)%R ->
  exists r,
    (if F64.ltb (F32.to_double y) (F64.opp M_PI) then Some (F32.add y Lit.two_pi)
     else if F64.ltb M_PI (F32.to_double y) then Some (F32.sub y Lit.two_pi)
     else Some y) = Some r /\
    F32.is_finite r = true /\ (- val Lit.pi <= val r <= val Lit.pi)%R.
Proof.
  intros Hy By.
  destruct (F64L.to_double_exact y Hy) as [Fyd Vyd].
  assert (Fpi : F64F.fv M_PI) by (split; reflexivity).
  assert (Fmpi : F64F.fv (F64.opp M_PI)) by (split; reflexivity).
  pose proof (ltb64_spec _ (F64.opp M_PI) Fyd Fmpi) as Q3. rewrite Vyd in Q3.
  pose proof (ltb64_spec M_PI _ Fpi Fyd) as Q4. rewrite Vyd in Q4.
  remember (F32.to_double y) as yd eqn:Eyd. clear Eyd.
  val_lit Lit.pi. val_lit Lit.two_pi.
  val64_lit M_PI. val64_lit (F64.opp M_PI).
  destruct (F64.ltb yd (F64.opp M_PI)).
  - assert (Hlow : (val y <= - val Lit.pi)%R).
    { apply float_below_M_PI; [exact Hy|]. rewrite W, W0 in *. lra. }
    destruct (add_bounded y Lit.two_pi (-13176795) (-22) 13176795 (-22) Hy eq_refl
                eq_refl eq_refl) as [Fr Br].
    { rewrite V, V0 in *. bpow_lit. lra. }
    exists (F32.add y Lit.two_pi). split; [reflexivity|]. split; [exact Fr|].
    rewrite V. bpow_lit. lra.
  - destruct (F64.ltb M_PI yd).
    + assert (Hhigh : (val Lit.pi <= val y)%R).
      { apply float_above_M_PI; [exact Hy|]. exact Q4. }
      destruct (sub_bounded y Lit.two_pi (-13176795) (-22) 13176795 (-22) Hy eq_refl
                  eq_refl eq_refl) as [Fr Br].
      { rewrite V, V0 in *. bpow_lit. lra. }
      exists (F32.sub y Lit.two_pi). split; [reflexivity|]. split; [exact Fr|].
      rewrite V. bpow_lit. lra.
    + exists y. split; [reflexivity|]. split; [exact Hy|].
      rewrite V, W, W0 in *. bpow_lit. lra.
Qed.

Lemma fSin_reduce_moderate x :
  F32.is_finite x = true -> (-10000000 <= val x <= 10000000)%R ->
  exists r, fSin_reduce x = Some r /\ F32.is_finite r = true /\
            (- val Lit.pi <= val r <= val Lit.pi)%R.
Proof.
  intros Hx Bx. unfold fSin_reduce. cbv zeta.
  destruct (F64.ltb M_2PI (F32.to_double x) || F64.ltb (F32.to_double x) (F64.opp M_2PI))
    eqn:Hb.
  - destruct (fSin_modulo_spec x Hx Bx) as (k & Hk & Fy & By).
    rewrite Hk. apply fSin_adjust_spec; [exact Fy | lra].
  - apply orb_false_elim in Hb. destruct Hb as [H1 H2].
    apply fSin_adjust_spec; [exact Hx|].
    destruct (F64L.to_double_exact x Hx) as [Fxd Vxd].
    assert (F2pi : F64F.fv M_2PI) by (split; reflexivity).
    assert (Fm2pi : F64F.fv (F64.opp M_2PI)) by (split; reflexivity).
    pose proof (ltb64_spec M_2PI _ F2pi Fxd) as Q1. rewrite H1, Vxd in Q1.
    pose proof (ltb64_spec _ (F64.opp M_2PI) Fxd Fm2pi) as Q2. rewrite H2, Vxd in Q2.
    val64_lit M_2PI. val64_lit (F64.opp M_2PI). rewrite W in Q1. rewrite W0 in Q2.
    bpow_lit. lra.
Qed.

(** C4, amended.  With [FAST_TRIG], for every float [x] of magnitude at most
    1.0e7, the reduction at the head of [fSin] is defined and hands the
    parabola a finite float [r] with [-(float)M_PI <= r <= (float)M_PI]:
    beyond M_2PI the float modulo [x -= (int)(x * (float)M_1_2PI) *
    (float)M_2PI] of line 195 runs, its conversion fits an [int], and it
    leaves a value of magnitude at most 8.5, which the adjustment by
    [(float)M_2PI] brings into the range.  The bound is the float nearest
    to pi, which is above M_PI. *)
Theorem fSin_reduces_up_to_1e7 (libm_sin : Z -> Z) (x : Z) :
  F32.leb (F32.lit (-1) 7) x = true -> F32.leb x (F32.lit 1 7) = true ->
  exists r,
    fSin_reduce x = Some r /\
    fSin true libm_sin x = Some (fSin_parabola r) /\
    F32.is_finite r = true /\
    F32.leb (F32.neg Lit.pi) r = true /\ F32.leb r Lit.pi = true.
Proof.
  intros L1 L2.
  assert (Fl : F32.is_finite (F32.lit (-1) 7) = true) by reflexivity.
  assert (Fh : F32.is_finite (F32.lit 1 7) = true) by reflexivity.
  assert (Hx : F32.is_finite x = true)
    by (apply (between_finite (F32.lit (-1) 7) x (F32.lit 1 7)); assumption).
  pose proof (leb_spec (F32.lit (-1) 7) x Fl Hx) as Q1. rewrite L1 in Q1.
  pose proof (leb_spec x (F32.lit 1 7) Hx Fh) as Q2. rewrite L2 in Q2.
  val_lit (F32.lit (-1) 7). val_lit (F32.lit 1 7). rewrite V in Q1. rewrite V0 in Q2.
  bpow_lit.
  destruct (fSin_reduce_moderate x Hx ltac:(lra)) as (r & Hr & Fr & Br).
  exists r. split; [exact Hr|]. split; [unfold fSin; rewrite Hr; reflexivity|].
  split; [exact Fr|]. split.
  - apply leb_true; [reflexivity | exact Fr | rewrite val_neg_pi; lra].
  - apply leb_true; [exact Fr | reflexivity | lra].
Qed.

Lemma fSin_reduces_up_to_1e7_witness :
  F32.leb (F32.lit (-1) 7) (F32.lit 1 6) = true /\
  F32.leb (F32.lit 1 6) (F32.lit 1 7) = true /\
  F64.ltb M_2PI (F32.to_double (F32.lit 1 6)) = true /\
  exists r,
    fSin_reduce (F32.lit 1 6) = Some r /\
    F32.is_finite r = true /\
    F32.leb (F32.neg Lit.pi) r = true /\ F32.leb r Lit.pi = true.
Proof.
  assert (H1 : F32.leb (F32.lit (-1) 7) (F32.lit 1 6) = true) by (vm_compute; reflexivity).
  assert (H2 : F32.leb (F32.lit 1 6) (F32.lit 1 7) = true) by (vm_compute; reflexivity).
  split; [exact H1|]. split; [exact H2|]. split; [vm_compute; reflexivity|].
  destruct (fSin_reduces_up_to_1e7 (fun w => w) (F32.lit 1 6) H1 H2)
    as (r & A & _ & B & C & D).
  exists r. repeat split; assumption.
Defined.

(** ** Scaling by a power of two *)

Lemma inb_of_loc m l : 0 <= m -> exists x, inb x (shr_record_of_loc m l).
Proof.
  intros Hm. destruct l as [|[| |]].
  - exists (IZR m). split; [exact Hm | reflexivity].
  - exists (IZR m + 1/2)%R. split; [exact Hm | cbn; lra].
  - exists (IZR m + 1/2)%R. split; [exact Hm | cbn; lra].
  - exists (IZR m + 1/2)%R. split; [exact Hm | cbn; lra].
Qed.

Lemma Zdigits2_ge m k : 0 < m -> 2 ^ (k - 1) <= m -> k <= Zdigits2 m.
Proof.
  intros Hm H. destruct (Z_lt_le_dec (Zdigits2 m) k) as [Hlt | Hge]; [|exact Hge].
  exfalso. pose proof (Zdigits2_bounds m Hm) as [_ Hb].
  pose proof (Zdigits2_pos m Hm) as Hp.
  assert (2 ^ Zdigits2 m <= 2 ^ (k - 1)) by (apply Z.pow_le_mono_r; lia).
  lia.
Qed.

Section Shift.

Variables prec emax : Z.
Hypothesis Hprec : 0 < prec.
Hypothesis Hemax : prec < emax.

Local Abbreviation emin := (SpecFloat.emin prec emax).
Local Abbreviation fexp := (SpecFloat.fexp prec emax).

Lemma shr_fexp_shift m e l k :
  emin <= Zdigits2 m + e - prec -> 0 <= k ->
  shr_fexp prec emax m (e + k) l
  = (fst (shr_fexp prec emax m e l), snd (shr_fexp prec emax m e l) + k).
Proof.
  intros H Hk. unfold shr_fexp. rewrite !fexp_eq.
  replace (Z.max (Zdigits2 m + (e + k) - prec) emin - (e + k))
    with (Zdigits2 m - prec) by lia.
  replace (Z.max (Zdigits2 m + e - prec) emin - e) with (Zdigits2 m - prec) by lia.
  unfold shr. destruct (Zdigits2 m - prec); cbn [fst snd]; f_equal; lia.
Qed.

(** Where the rounded value is normal, raising the exponent of the argument
    raises the exponent of the result and leaves its mantissa. *)
Lemma binary_round_aux_shift sx mx ex lx k :
  0 < mx -> ex <= fexp (Zdigits2 mx + ex) ->
  emin <= Zdigits2 mx + ex - prec -> 0 <= k ->
  binary_round_aux prec emax sx mx (ex + k) lx
  = scale2 prec emax k (binary_round_aux prec emax sx mx ex lx).
Proof.
  intros Hm He Hn Hk. unfold binary_round_aux.
  rewrite (shr_fexp_shift mx ex lx k Hn Hk).
  destruct (inb_of_loc mx lx ltac:(lia)) as [x Hx].
  pose proof (shr_fexp_spec prec emax Hprec x mx ex lx Hm Hx He) as (S1 & _ & S3 & S4).
  destruct (shr_fexp prec emax mx ex lx) as [mrs' e'] eqn:E1.
  cbn [fst snd] in *.
  remember (round_nearest_even (shr_m mrs') (loc_of_shr_record mrs')) as m1 eqn:Em1.
  pose proof (rne_bounds (shr_m mrs') (loc_of_shr_record mrs')) as Hr.
  rewrite <- Em1 in Hr.
  rewrite fexp_eq in He, S1, S3.
  assert (E' : e' = Zdigits2 mx + ex - prec) by lia.
  assert (Dq : Zdigits2 (shr_m mrs') = prec).
  { rewrite S3, Zdigits2_div by lia. lia. }
  assert (Hq0 : 0 < shr_m mrs').
  { assert (G : 0 <= shr_m mrs').
    { rewrite S3. apply Z.div_pos; [lia|]. apply Z.pow_pos_nonneg; lia. }
    destruct (Z.eq_dec (shr_m mrs') 0) as [Z0' | NZ]; [|lia].
    rewrite Z0' in Dq. cbn in Dq. lia. }
  pose proof (Zdigits2_bounds _ Hq0) as [Hb1 _]. rewrite Dq in Hb1.
  assert (D1 : prec <= Zdigits2 m1) by (apply Zdigits2_ge; lia).
  rewrite (shr_fexp_shift m1 e' loc_Exact k) by lia.
  destruct (shr_fexp prec emax m1 e' loc_Exact) as [mrs'' e''].
  cbn [fst snd]. destruct (shr_m mrs'') as [|p|p]; cbn [scale2]; try reflexivity.
  destruct (e'' <=? emax - prec) eqn:C; cbn [scale2]; [reflexivity|].
  apply Z.leb_gt in C. replace (e'' + k <=? emax - prec) with false; [reflexivity|].
  symmetry. apply Z.leb_gt. lia.
Qed.

End Shift.

(** ** Division *)

Lemma inb_div a b :
  0 <= a -> 0 < b ->
  inb (IZR a / IZR b) (shr_record_of_loc (a / b) (new_location b (a mod b))).
Proof.
  intros Ha Hb.
  pose proof (Z.div_mod a b ltac:(lia)) as Hdm.
  pose proof (Z.mod_pos_bound a b Hb) as Hr.
  assert (Hq : 0 <= a / b) by (apply Z.div_pos; lia).
  assert (Hb' : (0 < IZR b)%R) by (apply IZR_lt; exact Hb).
  assert (Hx : (IZR a / IZR b = IZR (a / b) + IZR (a mod b) / IZR b)%R).
  { rewrite Hdm at 1. rewrite plus_IZR, mult_IZR. field. lra. }
  assert (Hcase : a mod b = 0 \/ 0 < a mod b) by lia.
  destruct Hcase as [E0 | N0].
  - assert (L : new_location b (a mod b) = loc_Exact).
    { unfold new_location. rewrite E0.
      destruct (Z.even b); reflexivity. }
    rewrite L. split; [exact Hq|]. cbn. rewrite Hx, E0. unfold Rdiv. lra.
  - assert (Hr1 : (0 < IZR (a mod b))%R) by (apply IZR_lt; lia).
    assert (Hr2 : (IZR (a mod b) < IZR b)%R) by (apply IZR_lt; lia).
    assert (Hf : (0 < IZR (a mod b) / IZR b < 1)%R).
    { split.
      - apply Rdiv_lt_0_compat; assumption.
      - apply (Rmult_lt_reg_r (IZR b)); [exact Hb'|].
        unfold Rdiv. rewrite Rmult_assoc, Rinv_l by lra. lra. }
    assert (L : exists c, new_location b (a mod b) = loc_Inexact c).
    { assert (Z0' : (a mod b =? 0) = false) by (apply Z.eqb_neq; lia).
      unfold new_location.
      destruct (Z.even b); unfold new_location_even, new_location_odd;
        rewrite Z0'; eexists; reflexivity. }
    destruct L as [c L]. rewrite L.
    split; [destruct c; exact Hq|].
    destruct c; cbn; rewrite Hx; lra.
Qed.

Section Division.

Variables prec emax : Z.
Hypothesis Hprec : 0 < prec.
Hypothesis Hemax : prec < emax.

Local Abbreviation emin := (SpecFloat.emin prec emax).
Local Abbreviation fexp := (SpecFloat.fexp prec emax).
Local Abbreviation finite_valid := (finite_valid prec emax).
Local Abbreviation faithful := (faithful prec emax).

(** The integer division [SFdiv] performs when the quotient is normal. *)
Lemma SFdiv_core_normal m1 e1 m2 e2 :
  0 < m1 -> 0 < m2 -> Zdigits2 m1 <= prec ->
  emin + prec <= Zdigits2 m1 + e1 - (Zdigits2 m2 + e2) ->
  SFdiv_core_binary prec emax m1 e1 m2 e2
  = (m1 * 2 ^ (Zdigits2 m2 - Zdigits2 m1 + prec) / m2,
     Zdigits2 m1 + e1 - (Zdigits2 m2 + e2) - prec,
     new_location m2 (m1 * 2 ^ (Zdigits2 m2 - Zdigits2 m1 + prec) mod m2)).
Proof.
  intros H1 H2 Hd Hn. unfold SFdiv_core_binary. rewrite fexp_eq.
  pose proof (Zdigits2_pos m2 H2) as Hd2.
  pose proof (Zdigits2_pos m1 H1) as Hd1.
  replace (Z.min (Z.max (Zdigits2 m1 + e1 - (Zdigits2 m2 + e2) - prec) emin) (e1 - e2))
    with (Zdigits2 m1 + e1 - (Zdigits2 m2 + e2) - prec) by lia.
  replace (e1 - e2 - (Zdigits2 m1 + e1 - (Zdigits2 m2 + e2) - prec))
    with (Zdigits2 m2 - Zdigits2 m1 + prec) by lia.
  remember (Zdigits2 m2 - Zdigits2 m1 + prec) as s eqn:Es.
  assert (Hs : 0 < s) by lia.
  destruct s as [|p|p]; try lia.
  rewrite Z.shiftl_mul_pow2 by lia.
  unfold Z.div, Z.modulo.
  destruct (Z.div_eucl (m1 * 2 ^ Zpos p) m2) as [q r]. reflexivity.
Qed.

Lemma div_quotient_normal m1 m2 :
  0 < m1 -> 0 < m2 -> Zdigits2 m1 <= prec ->
  2 ^ (prec - 1) <= m1 * 2 ^ (Zdigits2 m2 - Zdigits2 m1 + prec) / m2.
Proof.
  intros H1 H2 Hd.
  pose proof (Zdigits2_pos m2 H2) as Hd2.
  pose proof (Zdigits2_pos m1 H1) as Hd1.
  pose proof (Zdigits2_bounds m1 H1) as [B1 _].
  pose proof (Zdigits2_bounds m2 H2) as [_ B2].
  apply Z.div_le_lower_bound; [exact H2|].
  remember (Zdigits2 m2 - Zdigits2 m1 + prec) as s eqn:Es.
  assert (P : 2 ^ (Zdigits2 m1 - 1) * 2 ^ s = 2 ^ Zdigits2 m2 * 2 ^ (prec - 1)).
  { rewrite <- !Z.pow_add_r by lia. f_equal. lia. }
  assert (Ps : 0 < 2 ^ s) by (apply Z.pow_pos_nonneg; lia).
  assert (Pp : 0 < 2 ^ (prec - 1)) by (apply Z.pow_pos_nonneg; lia).
  assert (L1 : 2 ^ (Zdigits2 m1 - 1) * 2 ^ s <= m1 * 2 ^ s)
    by (apply Z.mul_le_mono_nonneg_r; lia).
  assert (L2 : m2 * 2 ^ (prec - 1) <= 2 ^ Zdigits2 m2 * 2 ^ (prec - 1))
    by (apply Z.mul_le_mono_nonneg_r; lia).
  lia.
Qed.


(** [SFdiv] is faithful where the quotient is normal. *)
Theorem SFdiv_faithful (sx : bool) mx ex (sy : bool) my ey :
  bounded prec emax mx ex = true ->
  emin + prec <= Zpos (digits2_pos mx) + ex - (Zpos (digits2_pos my) + ey) ->
  faithful (B2R (S754_finite sx mx ex) / B2R (S754_finite sy my ey))%R
           (SFdiv prec emax (S754_finite sx mx ex) (S754_finite sy my ey)).
Proof.
  intros Hbx Hn.
  destruct (bounded_inv prec emax mx ex Hbx) as (_ & _ & Hdx & _).
  unfold SFdiv.
  rewrite (SFdiv_core_normal (Zpos mx) ex (Zpos my) ey) by (cbn [Zdigits2]; lia).
  cbn [Zdigits2].
  remember (Zpos (digits2_pos my) - Zpos (digits2_pos mx) + prec) as s eqn:Es.
  remember (Zpos (digits2_pos mx) + ex - (Zpos (digits2_pos my) + ey) - prec) as e' eqn:Ee.
  pose proof (div_quotient_normal (Zpos mx) (Zpos my) ltac:(lia) ltac:(lia)
                ltac:(cbn [Zdigits2]; lia)) as Hq.
  cbn [Zdigits2] in Hq. rewrite <- Es in Hq.
  assert (Hs : 0 <= s) by lia.
  assert (Hp2 : 0 < 2 ^ s) by (apply Z.pow_pos_nonneg; lia).
  pose proof (inb_div (Zpos mx * 2 ^ s) (Zpos my) ltac:(lia) ltac:(lia)) as Hin.
  assert (Hpp : 0 < 2 ^ (prec - 1)) by (apply Z.pow_pos_nonneg; lia).
  destruct (Zpos mx * 2 ^ s / Zpos my) as [|q|q] eqn:Eq; try lia.
  assert (Dq : prec <= Zpos (digits2_pos q)).
  { change (Zpos (digits2_pos q)) with (Zdigits2 (Zpos q)). apply Zdigits2_ge; lia. }
  pose proof (binary_round_aux_faithful prec emax Hprec Hemax (xorb sx sy) q e'
                (new_location (Zpos my) ((Zpos mx * 2 ^ s) mod Zpos my))
                (IZR (Zpos mx * 2 ^ s) / IZR (Zpos my)) Hin
                ltac:(rewrite fexp_eq; lia)) as F.
  assert (Hv : ((if xorb sx sy
                 then - (IZR (Zpos mx * 2 ^ s) / IZR (Zpos my) * bpow e')
                 else IZR (Zpos mx * 2 ^ s) / IZR (Zpos my) * bpow e')
                = B2R (S754_finite sx mx ex) / B2R (S754_finite sy my ey))%R).
  { cbn [B2R]. rewrite mult_IZR, <- (bpow_IZR s) by lia.
    assert (Hbe : bpow ex = (bpow s * bpow e' * bpow ey)%R).
    { rewrite <- !bpow_add. f_equal. lia. }
    rewrite Hbe.
    pose proof (bpow_gt_0 s). pose proof (bpow_gt_0 e'). pose proof (bpow_gt_0 ey).
    assert (Hmy : (0 < IZR (Zpos my))%R) by (apply IZR_lt; lia).
    destruct sx, sy; cbn [xorb cond_Zopp]; rewrite ?opp_IZR; field; lra. }
  rewrite Hv in F. exact F.
Qed.

(** Raising the exponent of the divisor lowers the exponent of a normal
    quotient and leaves its mantissa. *)
Lemma SFdiv_shift (sx : bool) mx ex (sy : bool) my ey k :
  Zpos (digits2_pos mx) <= prec -> 0 <= k ->
  emin + prec <= Zpos (digits2_pos mx) + ex - (Zpos (digits2_pos my) + (ey + k)) ->
  SFdiv prec emax (S754_finite sx mx ex) (S754_finite sy my ey)
  = scale2 prec emax k
      (SFdiv prec emax (S754_finite sx mx ex) (S754_finite sy my (ey + k))).
Proof.
  intros Hdx Hk Hn. unfold SFdiv.
  rewrite (SFdiv_core_normal (Zpos mx) ex (Zpos my) ey) by (cbn [Zdigits2]; lia).
  rewrite (SFdiv_core_normal (Zpos mx) ex (Zpos my) (ey + k)) by (cbn [Zdigits2]; lia).
  cbn [Zdigits2].
  remember (Zpos (digits2_pos my) - Zpos (digits2_pos mx) + prec) as s eqn:Es.
  pose proof (div_quotient_normal (Zpos mx) (Zpos my) ltac:(lia) ltac:(lia)
                ltac:(cbn [Zdigits2]; lia)) as Hq.
  cbn [Zdigits2] in Hq. rewrite <- Es in Hq.
  assert (Hpp : 0 < 2 ^ (prec - 1)) by (apply Z.pow_pos_nonneg; lia).
  remember (Zpos mx * 2 ^ s / Zpos my) as q eqn:Eq.
  assert (Dq : prec <= Zdigits2 q) by (apply Zdigits2_ge; lia).
  replace (Zpos (digits2_pos mx) + ex - (Zpos (digits2_pos my) + ey) - prec)
    with (Zpos (digits2_pos mx) + ex - (Zpos (digits2_pos my) + (ey + k)) - prec + k) by lia.
  apply binary_round_aux_shift; try assumption; try lia.
  rewrite fexp_eq. lia.
Qed.

End Division.

(** ** Addition *)

Lemma bpow_lt_inv a b : (bpow a < bpow b)%R -> a < b.
Proof.
  intros H. destruct (Z_lt_le_dec a b) as [L | G]; [exact L | exfalso].
  pose proof (bpow_le b a G). lra.
Qed.

Section Addition.

Variables prec emax : Z.
Hypothesis Hprec : 0 < prec.
Hypothesis Hemax : prec < emax.

Local Abbreviation emin := (SpecFloat.emin prec emax).
Local Abbreviation fexp := (SpecFloat.fexp prec emax).

Lemma shl_align_shift mx ex ez k :
  shl_align mx (ex + k) (ez + k)
  = (fst (shl_align mx ex ez), snd (shl_align mx ex ez) + k).
Proof.
  unfold shl_align.
  replace (ez + k - (ex + k)) with (ez - ex) by lia.
  destruct (ez - ex); reflexivity.
Qed.

Lemma binary_round_shift sx mx ex k :
  emin <= Zpos (digits2_pos mx) + ex - prec -> 0 <= k ->
  binary_round prec emax sx mx (ex + k)
  = scale2 prec emax k (binary_round prec emax sx mx ex).
Proof.
  intros Hn Hk. unfold binary_round. rewrite !fexp_eq.
  replace (Z.max (Zpos (digits2_pos mx) + (ex + k) - prec) emin)
    with (Z.max (Zpos (digits2_pos mx) + ex - prec) emin + k) by lia.
  rewrite shl_align_shift.
  pose proof (shl_align_spec mx ex (Z.max (Zpos (digits2_pos mx) + ex - prec) emin))
    as S. cbv zeta in S. destruct S as [S1 S2].
  destruct (shl_align mx ex (Z.max (Zpos (digits2_pos mx) + ex - prec) emin))
    as [mz ez].
  cbn [fst snd] in *.
  assert (D : Zdigits2 (Zpos mz) + ez = Zpos (digits2_pos mx) + ex).
  { rewrite S2, Zdigits2_mul_pow2 by lia. cbn [Zdigits2]. lia. }
  apply binary_round_aux_shift; try assumption; try lia.
  rewrite fexp_eq. lia.
Qed.

(** Raising the exponents of two positive floats by [k] raises the
    exponent of their sum by [k], where the sum is normal. *)
Lemma SFadd_shift mx ex my ey k :
  0 <= k ->
  (bpow (emin + prec - 1)
   <= B2R (S754_finite false mx ex) + B2R (S754_finite false my ey))%R ->
  SFadd prec emax (S754_finite false mx (ex + k)) (S754_finite false my (ey + k))
  = scale2 prec emax k
      (SFadd prec emax (S754_finite false mx ex) (S754_finite false my ey)).
Proof.
  intros Hk Hv. unfold SFadd.
  rewrite Z.add_min_distr_r, !shl_align_shift. cbn [fst].
  pose proof (aligned_value false mx ex (Z.min ex ey) ltac:(lia)) as A1.
  pose proof (aligned_value false my ey (Z.min ex ey) ltac:(lia)) as A2.
  remember (fst (shl_align mx ex (Z.min ex ey))) as a eqn:Ea.
  remember (fst (shl_align my ey (Z.min ex ey))) as b eqn:Eb.
  cbn [cond_Zopp Z.add binary_normalize] in *.
  apply binary_round_shift; [|exact Hk].
  cbn [B2R cond_Zopp] in Hv.
  assert (Hs : (IZR (Zpos (a + b)) * bpow (Z.min ex ey)
                = IZR (Zpos mx) * bpow ex + IZR (Zpos my) * bpow ey)%R).
  { rewrite <- A1, <- A2. rewrite Pos2Z.inj_add, plus_IZR. ring. }
  pose proof (Zdigits2_bounds (Zpos (a + b)) ltac:(lia)) as [_ Hb].
  cbn [Zdigits2] in Hb.
  assert (Hlt : (IZR (Zpos (a + b)) < bpow (Zpos (digits2_pos (a + b))))%R).
  { rewrite bpow_IZR by lia. apply IZR_lt. exact Hb. }
  assert (Hlt' : (bpow (emin + prec - 1)
                  < bpow (Zpos (digits2_pos (a + b)) + Z.min ex ey))%R).
  { rewrite bpow_add. pose proof (bpow_gt_0 (Z.min ex ey)).
    apply Rle_lt_trans with (IZR (Zpos (a + b)) * bpow (Z.min ex ey))%R; [lra|].
    apply Rmult_lt_compat_r; assumption. }
  apply bpow_lt_inv in Hlt'. lia.
Qed.

End Addition.

(** ** Multiplication by a power of two *)

Lemma SFmul_pow2 e0 (s : bool) m e :
  bounded F32.prec F32.emax 8388608 e0 = true ->
  bounded F32.prec F32.emax m e = true ->
  bounded F32.prec F32.emax m (e + (e0 + 23)) = true ->
  SFmul F32.prec F32.emax (S754_finite false 8388608 e0) (S754_finite s m e)
  = S754_finite s m (e + (e0 + 23)).
Proof.
  intros H0 H1 H2.
  pose proof (SFmul_faithful F32.prec F32.emax eq_refl eq_refl
                (S754_finite false 8388608 e0) (S754_finite s m e)
                (conj H0 eq_refl) (conj H1 eq_refl)) as F.
  assert (E : B2R (S754_finite s m (e + (e0 + 23)))
              = (B2R (S754_finite false 8388608 e0) * B2R (S754_finite s m e))%R).
  { cbn [B2R cond_Zopp]. rewrite !bpow_add.
    assert (P : bpow 23 = 8388608%R) by (rewrite bpow_IZR by lia; reflexivity).
    rewrite P. ring. }
  destruct (faithful_representable F32.prec F32.emax _ _
              (S754_finite s m (e + (e0 + 23))) F (conj H2 eq_refl) E) as [G1 G2].
  apply finite_value_inj; [exact G1 | exact H2 |]. rewrite G2, E. reflexivity.
Qed.

Lemma SFmul_half (s : bool) m e :
  bounded F32.prec F32.emax m e = true ->
  bounded F32.prec F32.emax m (e - 1) = true ->
  SFmul F32.prec F32.emax (S754_finite false 8388608 (-24)) (S754_finite s m e)
  = S754_finite s m (e - 1).
Proof.
  intros H1 H2. rewrite (SFmul_pow2 (-24) s m e eq_refl H1).
  - f_equal.
  - replace (e + (-24 + 23)) with (e - 1) by lia. exact H2.
Qed.

Lemma SFmul_quarter (s : bool) m e :
  bounded F32.prec F32.emax m e = true ->
  bounded F32.prec F32.emax m (e - 2) = true ->
  SFmul F32.prec F32.emax (S754_finite false 8388608 (-25)) (S754_finite s m e)
  = S754_finite s m (e - 2).
Proof.
  intros H1 H2. rewrite (SFmul_pow2 (-25) s m e eq_refl H1).
  - f_equal.
  - replace (e + (-25 + 23)) with (e - 2) by lia. exact H2.
Qed.

(** ** Positive normal floats *)

Lemma bounded_normal m e :
  Zpos (digits2_pos m) = 24 -> -149 <= e <= 104 ->
  bounded F32.prec F32.emax m e = true.
Proof.
  intros Hd He. unfold bounded, canonical_mantissa. rewrite Hd.
  apply andb_true_intro. split.
  - apply Z.eqb_eq. unfold fexp, emin, F32.prec, F32.emax. lia.
  - apply Z.leb_le. unfold F32.prec, F32.emax. lia.
Qed.

Lemma positive_normal r a b :
  finite_valid F32.prec F32.emax r ->
  (bpow a <= B2R r <= bpow b)%R -> -126 <= a ->
  exists m e, r = S754_finite false m e /\
              bounded F32.prec F32.emax m e = true /\
              Zpos (digits2_pos m) = 24 /\ a - 24 < e /\ e + 23 <= b.
Proof.
  intros [Hv Hf] [Ha Hb] Hn.
  pose proof (bpow_gt_0 a) as Ga.
  destruct r as [s|s| |s m e]; try discriminate; cbn [B2R] in *; [lra|].
  pose proof (bpow_gt_0 e) as Ge.
  assert (Hm : (0 < IZR (Zpos m))%R) by (apply IZR_lt; lia).
  assert (Hpos : (0 < IZR (Zpos m) * bpow e)%R) by (apply Rmult_lt_0_compat; assumption).
  destruct s; cbn [cond_Zopp] in *; [rewrite opp_IZR in *; lra|].
  cbn [valid_binary] in Hv.
  destruct (bounded_inv F32.prec F32.emax m e Hv) as (Hc & He1 & Hd & He2).
  pose proof (Zdigits2_bounds (Zpos m) ltac:(lia)) as [Hl Hu]. cbn [Zdigits2] in Hl, Hu.
  assert (Hd0 : 0 < Zpos (digits2_pos m)) by lia.
  assert (U : (IZR (Zpos m) * bpow e < bpow (Zpos (digits2_pos m) + e))%R).
  { rewrite bpow_add. apply Rmult_lt_compat_r; [exact Ge|].
    rewrite bpow_IZR by lia. apply IZR_lt. exact Hu. }
  assert (L : (bpow (Zpos (digits2_pos m) - 1 + e) <= IZR (Zpos m) * bpow e)%R).
  { rewrite bpow_add. apply Rmult_le_compat_r; [lra|].
    rewrite bpow_IZR by lia. apply IZR_le. exact Hl. }
  assert (U' : a < Zpos (digits2_pos m) + e) by (apply bpow_lt_inv; lra).
  assert (L' : Zpos (digits2_pos m) - 1 + e < b + 1).
  { apply bpow_lt_inv. apply Rle_lt_trans with (bpow b); [lra|]. apply bpow_lt. lia. }
  rewrite fexp_eq in Hc. unfold emin, F32.prec, F32.emax in *.
  exists m, e. split; [reflexivity|]. split; [exact Hv|]. lia.
Qed.

Lemma div_bounds x y a b c d :
  (bpow a <= x <= bpow b)%R -> (bpow c <= y <= bpow d)%R ->
  (bpow (a - d) <= x / y <= bpow (b - c))%R.
Proof.
  intros [Hx1 Hx2] [Hy1 Hy2].
  pose proof (bpow_gt_0 a). pose proof (bpow_gt_0 c). pose proof (bpow_gt_0 d).
  assert (I1 : (/ bpow d <= / y)%R) by (apply Rinv_le_contravar; lra).
  assert (I2 : (/ y <= / bpow c)%R) by (apply Rinv_le_contravar; lra).
  assert (I3 : (0 < / bpow d)%R) by (apply Rinv_0_lt_compat; lra).
  unfold Zminus. rewrite !bpow_add, !bpow_opp. unfold Rdiv. split.
  - apply Rmult_le_compat; lra.
  - apply Rmult_le_compat; lra.
Qed.

Lemma finite_valid_finite (s : bool) m e :
  bounded F32.prec F32.emax m e = true ->
  finite_valid F32.prec F32.emax (S754_finite s m e).
Proof. intros H. split; [exact H | reflexivity]. Qed.

Lemma dyadic_pow2 e : -149 <= e <= 104 -> dyadic_ok F32.prec F32.emax 1 e = true.
Proof.
  intros H. apply dyadic_ok_intro.
  - reflexivity.
  - unfold emin, F32.prec, F32.emax. lia.
  - unfold F32.prec, F32.emax. lia.
Qed.

Lemma float_lt_bpow m e :
  (IZR (Zpos m) * bpow e < bpow (Zpos (digits2_pos m) + e))%R.
Proof.
  pose proof (Zdigits2_bounds (Zpos m) ltac:(lia)) as [_ Hu]. cbn [Zdigits2] in Hu.
  rewrite bpow_add. apply Rmult_lt_compat_r; [apply bpow_gt_0|].
  rewrite bpow_IZR by lia. apply IZR_lt. exact Hu.
Qed.

(** ** The folded body of [bab2xSqrt] *)

(** With [s = a + x / a] a normal float well inside the range, halving [s],
    dividing [x] by the half, adding and halving again goes through the
    values of [0.25 * s + x / s] scaled by a power of two: the quotient and
    the sum have the mantissas of the folded body and an exponent one
    higher, and the last halving is exact. *)
Lemma babylonian_fold mx ex ms es G :
  bounded F32.prec F32.emax mx ex = true ->
  bounded F32.prec F32.emax ms es = true ->
  -64 <= G <= 64 ->
  (bpow (G - 85) <= B2R (S754_finite false mx ex) <= bpow (2 * G + 2))%R ->
  (bpow G <= B2R (S754_finite false ms es) <= bpow (G + 3))%R ->
  exists mq eq0 mr er,
    (bounded F32.prec F32.emax ms (es - 1) = true /\
     bounded F32.prec F32.emax ms (es - 2) = true /\
     bounded F32.prec F32.emax mq eq0 = true /\
     bounded F32.prec F32.emax mq (eq0 + 1) = true /\
     bounded F32.prec F32.emax mr er = true /\
     bounded F32.prec F32.emax mr (er + 1) = true) /\
    SFmul F32.prec F32.emax (S754_finite false 8388608 (-24)) (S754_finite false ms es)
    = S754_finite false ms (es - 1) /\
    SFmul F32.prec F32.emax (S754_finite false 8388608 (-25)) (S754_finite false ms es)
    = S754_finite false ms (es - 2) /\
    SFdiv F32.prec F32.emax (S754_finite false mx ex) (S754_finite false ms es)
    = S754_finite false mq eq0 /\
    SFdiv F32.prec F32.emax (S754_finite false mx ex) (S754_finite false ms (es - 1))
    = S754_finite false mq (eq0 + 1) /\
    SFadd F32.prec F32.emax (S754_finite false ms (es - 2)) (S754_finite false mq eq0)
    = S754_finite false mr er /\
    SFadd F32.prec F32.emax (S754_finite false ms (es - 1)) (S754_finite false mq (eq0 + 1))
    = S754_finite false mr (er + 1) /\
    SFmul F32.prec F32.emax (S754_finite false 8388608 (-24)) (S754_finite false mr (er + 1))
    = S754_finite false mr er.
Proof.
  intros Hbx Hbs HG HX HS.
  destruct (positive_normal _ G (G + 3) (finite_valid_finite false ms es Hbs) HS ltac:(lia))
    as (m & e & E & _ & Hds & Hes1 & Hes2).
  injection E as <- <-.
  destruct (bounded_inv F32.prec F32.emax mx ex Hbx) as (_ & _ & Hdx & _).
  unfold F32.prec in Hdx.
  assert (Hmx : G - 85 < Zpos (digits2_pos mx) + ex).
  { apply bpow_lt_inv. cbn [B2R cond_Zopp] in HX.
    pose proof (float_lt_bpow mx ex). lra. }
  (* the two products *)
  assert (E1 : SFmul F32.prec F32.emax (S754_finite false 8388608 (-24))
                 (S754_finite false ms es) = S754_finite false ms (es - 1)).
  { apply SFmul_half; [exact Hbs | apply bounded_normal; [exact Hds | lia]]. }
  assert (E2 : SFmul F32.prec F32.emax (S754_finite false 8388608 (-25))
                 (S754_finite false ms es) = S754_finite false ms (es - 2)).
  { apply SFmul_quarter; [exact Hbs | apply bounded_normal; [exact Hds | lia]]. }
  (* the two quotients *)
  assert (Hn : emin F32.prec F32.emax + F32.prec
               <= Zpos (digits2_pos mx) + ex - (Zpos (digits2_pos ms) + es)).
  { unfold emin, F32.prec, F32.emax. lia. }
  pose proof (SFdiv_faithful F32.prec F32.emax eq_refl eq_refl
                false mx ex false ms es Hbx Hn) as FQ.
  pose proof (div_bounds _ _ _ _ _ _ HX HS) as BQ.
  replace (G - 85 - (G + 3)) with (-88) in BQ by lia.
  replace (2 * G + 2 - G) with (G + 2) in BQ by lia.
  assert (BQ1 : (1 * bpow (-88)
                 <= B2R (S754_finite false mx ex) / B2R (S754_finite false ms es)
                 <= 1 * bpow (G + 2))%R) by lra.
  destruct (faithful_dyadic F32.prec F32.emax _ _ 1 (-88) 1 (G + 2) eq_refl eq_refl FQ
              (dyadic_pow2 (-88) ltac:(lia)) (dyadic_pow2 (G + 2) ltac:(lia)) BQ1)
    as [VQ BQ'].
  rewrite !Rmult_1_l in BQ'.
  destruct (positive_normal _ (-88) (G + 2) VQ BQ' ltac:(lia))
    as (mq & eq0 & EQ0 & Hbq & Hdq & Heq1 & Heq2).
  assert (EQ1 : SFdiv F32.prec F32.emax (S754_finite false mx ex)
                  (S754_finite false ms (es - 1)) = S754_finite false mq (eq0 + 1)).
  { rewrite (SFdiv_shift F32.prec F32.emax eq_refl false mx ex false ms (es - 1) 1)
      by (unfold emin, F32.prec, F32.emax; lia).
    replace (es - 1 + 1) with es by lia. rewrite EQ0. cbn [scale2].
    replace (eq0 + 1 <=? F32.emax - F32.prec) with true; [reflexivity|].
    symmetry. apply Z.leb_le. unfold F32.prec, F32.emax. lia. }
  rewrite EQ0 in *.
  (* the two sums *)
  assert (VT : bounded F32.prec F32.emax ms (es - 2) = true)
    by (apply bounded_normal; [exact Hds | lia]).
  assert (BT : (bpow (G - 2) <= B2R (S754_finite false ms (es - 2)) <= bpow (G + 1))%R).
  { cbn [B2R cond_Zopp] in *.
    replace (es - 2) with (es + -2) by lia.
    replace (G - 2) with (G + -2) by lia.
    replace (G + 3) with (G + 1 + 2) in HS by lia.
    rewrite !bpow_add in *. bpow_lit.
    pose proof (bpow_gt_0 G). pose proof (bpow_gt_0 es). lra. }
  pose proof (SFadd_faithful F32.prec F32.emax eq_refl eq_refl
                (S754_finite false ms (es - 2)) (S754_finite false mq eq0)
                (finite_valid_finite _ _ _ VT) (finite_valid_finite _ _ _ Hbq)) as FR.
  assert (P2 : (bpow (G + 1) + bpow (G + 2) <= bpow (G + 3))%R).
  { rewrite !bpow_add. bpow_lit. pose proof (bpow_gt_0 G). lra. }
  assert (P0 : (0 < bpow (-88))%R) by apply bpow_gt_0.
  assert (BR1 : (1 * bpow (G - 2)
                 <= B2R (S754_finite false ms (es - 2)) + B2R (S754_finite false mq eq0)
                 <= 1 * bpow (G + 3))%R) by lra.
  destruct (faithful_dyadic F32.prec F32.emax _ _ 1 (G - 2) 1 (G + 3) eq_refl eq_refl FR
              (dyadic_pow2 (G - 2) ltac:(lia)) (dyadic_pow2 (G + 3) ltac:(lia)) BR1)
    as [VR BR].
  rewrite !Rmult_1_l in BR.
  destruct (positive_normal _ (G - 2) (G + 3) VR BR ltac:(lia))
    as (mr & er & ER & Hbr & Hdr & Her1 & Her2).
  assert (ER1 : SFadd F32.prec F32.emax (S754_finite false ms (es - 1))
                  (S754_finite false mq (eq0 + 1)) = S754_finite false mr (er + 1)).
  { replace (es - 1) with (es - 2 + 1) by lia.
    rewrite (SFadd_shift F32.prec F32.emax eq_refl ms (es - 2) mq eq0 1 ltac:(lia)).
    - rewrite ER. cbn [scale2].
      replace (er + 1 <=? F32.emax - F32.prec) with true; [reflexivity|].
      symmetry. apply Z.leb_le. unfold F32.prec, F32.emax. lia.
    - change (emin F32.prec F32.emax + F32.prec - 1) with (-126).
      assert (bpow (-126) <= bpow (G - 2))%R by (apply bpow_le; lia).
      lra. }
  assert (Bs1 : bounded F32.prec F32.emax ms (es - 1) = true)
    by (apply bounded_normal; [exact Hds | lia]).
  assert (Bq1 : bounded F32.prec F32.emax mq (eq0 + 1) = true)
    by (apply bounded_normal; [exact Hdq | lia]).
  assert (Br1 : bounded F32.prec F32.emax mr (er + 1) = true)
    by (apply bounded_normal; [exact Hdr | lia]).
  exists mq, eq0, mr, er.
  split; [repeat split; assumption|].
  split; [exact E1|]. split; [exact E2|]. split; [reflexivity|].
  split; [exact EQ1|]. split; [exact ER|]. split; [exact ER1|].
  rewrite (SFmul_half false mr (er + 1)).
  - f_equal. lia.
  - exact Br1.
  - replace (er + 1 - 1) with er by lia. exact Hbr.
Qed.

(** ** [bab2xSqrt] *)

Lemma bits_fields w :
  exists S E M, 0 <= S <= 1 /\ 0 <= E < 256 /\ 0 <= M < 8388608 /\
                w mod 2 ^ 32 = S * 2147483648 + E * 8388608 + M.
Proof.
  pose proof (Z.mod_pos_bound w (2 ^ 32) ltac:(lia)) as H.
  change (2 ^ 32) with 4294967296 in *.
  remember (w mod 4294967296) as u eqn:Eu. clear Eu.
  exists (u / 2147483648), ((u / 8388608) mod 256), (u mod 8388608).
  pose proof (Z.div_mod u 8388608 ltac:(lia)) as D1.
  pose proof (Z.mod_pos_bound u 8388608 ltac:(lia)) as B1.
  pose proof (Z.div_mod (u / 8388608) 256 ltac:(lia)) as D2.
  pose proof (Z.mod_pos_bound (u / 8388608) 256 ltac:(lia)) as B2.
  rewrite (Z.div_div u 8388608 256) in D2 by lia.
  change (8388608 * 256) with 2147483648 in D2.
  assert (B3 : 0 <= u / 2147483648 <= 1).
  { split; [apply Z.div_pos; lia|].
    apply Z.lt_succ_r. apply Z.div_lt_upper_bound; lia. }
  lia.
Qed.

Lemma dec_fields S E M :
  0 <= S <= 1 -> 0 <= E < 256 -> 0 <= M < 8388608 ->
  F32.dec (S * 2147483648 + E * 8388608 + M) =
  if E =? 0 then
    match M with
    | Zpos m => S754_finite (S =? 1) m (-149)
    | _ => S754_zero (S =? 1)
    end
  else if E =? 255 then
    (if M =? 0 then S754_infinity (S =? 1) else S754_nan)
  else
    match M + 8388608 with
    | Zpos m => S754_finite (S =? 1) m (E - 150)
    | _ => S754_nan
    end.
Proof.
  intros HS HE HM.
  pose proof (F32Facts.fields S E M HS HE HM) as (F1 & F2 & F3).
  cbv zeta in F1, F2, F3. unfold F32.dec. rewrite F1, F2, F3. reflexivity.
Qed.

(** A float that is not below zero is a zero, plus infinity, or positive
    and finite. *)
Lemma nonneg_cases x :
  F32.leb Lit.zero x = true ->
  x mod 2 ^ 32 = 0 \/ x mod 2 ^ 32 = 2147483648 \/ x mod 2 ^ 32 = 2139095040 \/
  exists E M, 0 <= E < 255 /\ 0 <= M < 8388608 /\ 0 < E * 8388608 + M /\
              x mod 2 ^ 32 = E * 8388608 + M.
Proof.
  intros H. unfold F32.leb in H. rewrite <- (dec_mod x) in H.
  destruct (bits_fields x) as (S & E & M & HS & HE & HM & Hw).
  rewrite Hw in *. rewrite (dec_fields S E M HS HE HM) in H.
  assert (Z0 : F32.dec Lit.zero = S754_zero false) by (vm_compute; reflexivity).
  rewrite Z0 in H. clear Z0.
  assert (HS' : S = 0 \/ S = 1) by lia.
  destruct HS' as [-> | ->]; cbn [Z.eqb Z.mul Z.add] in *.
  - destruct (Z.eqb_spec E 0) as [E0 | E0].
    + subst E. destruct M as [|m|m]; [left; reflexivity | | lia].
      right. right. right. exists 0, (Zpos m). lia.
    + destruct (Z.eqb_spec E 255) as [E1 | E1].
      * subst E. destruct (Z.eqb_spec M 0) as [M0 | M0].
        -- subst M. right. right. left. reflexivity.
        -- discriminate H.
      * right. right. right. exists E, M. lia.
  - destruct (Z.eqb_spec E 0) as [E0 | E0].
    + subst E. destruct M as [|m|m]; [right; left; reflexivity | | lia].
      discriminate H.
    + destruct (Z.eqb_spec E 255) as [E1 | E1].
      * destruct (M =? 0); discriminate H.
      * destruct (M + 8388608) as [|m|m]; discriminate H.
Qed.

(** The first step from a seed [a] near the square root of [x]: the sum
    [a + x / a] is a positive normal float. *)
Lemma babylonian_first mx ex ma ea G :
  bounded F32.prec F32.emax mx ex = true ->
  bounded F32.prec F32.emax ma ea = true ->
  -64 <= G <= 64 ->
  (bpow (G - 85) <= B2R (S754_finite false mx ex) <= bpow (2 * G + 2))%R ->
  (bpow G <= B2R (S754_finite false ma ea) <= bpow (G + 1))%R ->
  exists q0 ms es,
    valid_binary F32.prec F32.emax q0 = true /\
    SFdiv F32.prec F32.emax (S754_finite false mx ex) (S754_finite false ma ea) = q0 /\
    bounded F32.prec F32.emax ms es = true /\
    SFadd F32.prec F32.emax (S754_finite false ma ea) q0 = S754_finite false ms es /\
    (bpow G <= B2R (S754_finite false ms es) <= bpow (G + 3))%R.
Proof.
  intros Hbx Hba HG HX HA.
  destruct (positive_normal _ G (G + 1) (finite_valid_finite false ma ea Hba) HA ltac:(lia))
    as (m & e & E & _ & Hda & Hea1 & Hea2).
  injection E as <- <-.
  assert (Hmx : G - 85 < Zpos (digits2_pos mx) + ex).
  { apply bpow_lt_inv. cbn [B2R cond_Zopp] in HX.
    pose proof (float_lt_bpow mx ex). lra. }
  assert (Hn : emin F32.prec F32.emax + F32.prec
               <= Zpos (digits2_pos mx) + ex - (Zpos (digits2_pos ma) + ea)).
  { unfold emin, F32.prec, F32.emax. lia. }
  pose proof (SFdiv_faithful F32.prec F32.emax eq_refl eq_refl
                false mx ex false ma ea Hbx Hn) as FQ.
  pose proof (div_bounds _ _ _ _ _ _ HX HA) as BQ.
  replace (G - 85 - (G + 1)) with (-86) in BQ by lia.
  replace (2 * G + 2 - G) with (G + 2) in BQ by lia.
  assert (BQ1 : (1 * bpow (-86)
                 <= B2R (S754_finite false mx ex) / B2R (S754_finite false ma ea)
                 <= 1 * bpow (G + 2))%R) by lra.
  destruct (faithful_dyadic F32.prec F32.emax _ _ 1 (-86) 1 (G + 2) eq_refl eq_refl FQ
              (dyadic_pow2 (-86) ltac:(lia)) (dyadic_pow2 (G + 2) ltac:(lia)) BQ1)
    as [VQ BQ'].
  rewrite !Rmult_1_l in BQ'.
  remember (SFdiv F32.prec F32.emax (S754_finite false mx ex) (S754_finite false ma ea))
    as q0 eqn:Eq0.
  pose proof (SFadd_faithful F32.prec F32.emax eq_refl eq_refl
                (S754_finite false ma ea) q0 (finite_valid_finite _ _ _ Hba) VQ) as FS.
  assert (P2 : (bpow (G + 1) + bpow (G + 2) <= bpow (G + 3))%R).
  { rewrite !bpow_add. bpow_lit. pose proof (bpow_gt_0 G). lra. }
  assert (P0 : (0 < bpow (-86))%R) by apply bpow_gt_0.
  assert (BS1 : (1 * bpow G <= B2R (S754_finite false ma ea) + B2R q0
                 <= 1 * bpow (G + 3))%R) by lra.
  destruct (faithful_dyadic F32.prec F32.emax _ _ 1 G 1 (G + 3) eq_refl eq_refl FS
              (dyadic_pow2 G ltac:(lia)) (dyadic_pow2 (G + 3) ltac:(lia)) BS1)
    as [VS BS].
  rewrite !Rmult_1_l in BS.
  destruct (positive_normal _ G (G + 3) VS BS ltac:(lia))
    as (ms & es & ES & Hbs & _).
  exists q0, ms, es.
  split; [exact (proj1 VQ)|]. split; [reflexivity|]. split; [exact Hbs|].
  split; [exact ES|]. rewrite <- ES. exact BS.
Qed.

Lemma dec_half : F32.dec Lit.half = S754_finite false 8388608 (-24).
Proof. vm_compute. reflexivity. Qed.

Lemma dec_quarter : F32.dec Lit.quarter = S754_finite false 8388608 (-25).
Proof. vm_compute. reflexivity. Qed.

(** The folded body and the two steps agree from any seed near the square
    root of a positive [x]. *)
Lemma bab2xSqrt_fold x a mx ex ma ea G :
  F32.dec x = S754_finite false mx ex ->
  F32.dec a = S754_finite false ma ea ->
  -64 <= G <= 64 ->
  (bpow (G - 85) <= B2R (S754_finite false mx ex) <= bpow (2 * G + 2))%R ->
  (bpow G <= B2R (S754_finite false ma ea) <= bpow (G + 1))%R ->
  F32.add (F32.mul Lit.quarter (F32.add a (F32.div x a)))
          (F32.div x (F32.add a (F32.div x a)))
  = babylonian_step x (babylonian_step x a).
Proof.
  intros Hx Ha HG HX HA.
  assert (Hbx : bounded F32.prec F32.emax mx ex = true).
  { pose proof (F32Facts.dec_valid x) as V. rewrite Hx in V. exact V. }
  assert (Hba : bounded F32.prec F32.emax ma ea = true).
  { pose proof (F32Facts.dec_valid a) as V. rewrite Ha in V. exact V. }
  destruct (babylonian_first mx ex ma ea G Hbx Hba HG HX HA)
    as (q0 & ms & es & Vq0 & Eq0 & Hbs & ES & BS).
  destruct (babylonian_fold mx ex ms es G Hbx Hbs HG HX BS)
    as (mq & eq0 & mr & er & (B1 & B2 & B3 & B4 & B5 & B6)
        & E1 & E2 & E3 & E4 & E5 & E6 & E7).
  assert (Ds : F32.dec (F32.add a (F32.div x a)) = S754_finite false ms es).
  { unfold F32.add, F32.div. rewrite Hx, Ha, Eq0, (F32Facts.dec_enc q0 Vq0), ES.
    apply F32Facts.dec_enc. exact Hbs. }
  unfold babylonian_step.
  remember (F32.add a (F32.div x a)) as s eqn:Es. clear Es.
  unfold F32.mul, F32.add, F32.div.
  rewrite Ds, Hx, dec_half, dec_quarter.
  rewrite E1, E2, E3.
  rewrite (F32Facts.dec_enc (S754_finite false ms (es - 1)) B1).
  rewrite (F32Facts.dec_enc (S754_finite false ms (es - 2)) B2).
  rewrite (F32Facts.dec_enc (S754_finite false mq eq0) B3).
  rewrite E4, E5.
  rewrite (F32Facts.dec_enc (S754_finite false mq (eq0 + 1)) B4).
  rewrite E6.
  rewrite (F32Facts.dec_enc (S754_finite false mr (er + 1)) B6).
  rewrite E7. reflexivity.
Qed.

(** The seed, for a float with a clear sign bit: half its bits plus the
    constant [(1 << 29) - (1 << 22)]; no integer operation wraps. *)
Lemma bab2xSqrt_seed_bits x E M :
  0 <= E < 256 -> 0 <= M < 8388608 -> x mod 2 ^ 32 = E * 8388608 + M ->
  bab2xSqrt_seed x = 532676608 + (E * 8388608 + M) / 2.
Proof.
  intros HE HM Hx.
  unfold bab2xSqrt_seed, bitTwiddler.i, bitTwiddler.f, bitTwiddler.set_f, bitTwiddler.set_i.
  cbn [bitTwiddler.cell]. rewrite Hx.
  assert (R1 : forall z, -2147483648 <= z <= 2147483647 -> Int32.wrap z = z).
  { intros z Hz. apply wrap_id. unfold Int32.min_signed, Int32.max_signed.
    change (2 ^ 31) with 2147483648. lia. }
  assert (S29 : Int32.shl 1 29 = 536870912) by (vm_compute; reflexivity).
  assert (S22 : Int32.shl 1 22 = 4194304) by (vm_compute; reflexivity).
  rewrite S29, S22. unfold Int32.shr, Int32.add, Int32.sub.
  rewrite (R1 (E * 8388608 + M)) by lia.
  rewrite Z.shiftr_div_pow2 by lia. change (2 ^ 1) with 2.
  assert (W : 0 <= (E * 8388608 + M) / 2 < 1073741824).
  { split; [apply Z.div_pos; lia | apply Z.div_lt_upper_bound; lia]. }
  rewrite (R1 (536870912 + (E * 8388608 + M) / 2)) by lia.
  rewrite R1 by lia.
  change (2 ^ 32) with 4294967296. rewrite Z.mod_small by lia. lia.
Qed.

Lemma normal_value m e :
  8388608 <= Zpos m < 16777216 ->
  (bpow (e + 23) <= IZR (Zpos m) * bpow e <= bpow (e + 24))%R.
Proof.
  intros [H1 H2]. rewrite !bpow_add. bpow_lit.
  pose proof (bpow_gt_0 e) as Ge.
  apply IZR_le in H1. apply IZR_lt in H2.
  rewrite !(Rmult_comm (bpow e)).
  split; apply Rmult_le_compat_r; lra.
Qed.

(** The seed of a positive finite float [x]: a normal float [a] with
    [x <= 4 a^2], and not above [2^86 x]. *)
Lemma bab2xSqrt_seed_spec x E M :
  0 <= E < 255 -> 0 <= M < 8388608 -> 0 < E * 8388608 + M ->
  x mod 2 ^ 32 = E * 8388608 + M ->
  exists mx ex ma ea G,
    F32.dec x = S754_finite false mx ex /\
    F32.dec (bab2xSqrt_seed x) = S754_finite false ma ea /\
    -64 <= G <= 64 /\
    (bpow (G - 85) <= B2R (S754_finite false mx ex) <= bpow (2 * G + 2))%R /\
    (bpow G <= B2R (S754_finite false ma ea) <= bpow (G + 1))%R.
Proof.
  intros HE HM Hpos Hx.
  rewrite (bab2xSqrt_seed_bits x E M ltac:(lia) HM Hx).
  remember (532676608 + (E * 8388608 + M) / 2) as v eqn:Ev.
  pose proof (Z.div_mod (E * 8388608 + M) 2 ltac:(lia)) as D0.
  pose proof (Z.mod_pos_bound (E * 8388608 + M) 2 ltac:(lia)) as B0.
  pose proof (Z.div_mod v 8388608 ltac:(lia)) as D1.
  pose proof (Z.mod_pos_bound v 8388608 ltac:(lia)) as B1.
  pose proof (Z.div_mod M 2 ltac:(lia)) as D2.
  pose proof (Z.mod_pos_bound M 2 ltac:(lia)) as B2.
  assert (Par : (E * 8388608 + M) mod 2 = M mod 2).
  { replace (E * 8388608 + M) with (M + (E * 4194304) * 2) by lia.
    apply Z.mod_add. lia. }
  remember (v / 8388608) as Ea eqn:EEa. remember (v mod 8388608) as Ma eqn:EMa.
  assert (HEa : E + 126 <= 2 * Ea <= E + 127) by lia.
  clear EEa EMa.
  assert (Dv : F32.dec v = S754_finite false (Z.to_pos (Ma + 8388608)) (Ea - 150)).
  { replace v with (0 * 2147483648 + Ea * 8388608 + Ma) by lia.
    rewrite (dec_fields 0 Ea Ma) by lia.
    destruct (Z.eqb_spec Ea 0); [lia|]. destruct (Z.eqb_spec Ea 255); [lia|].
    destruct (Ma + 8388608) as [|p|p] eqn:Ep; try lia. reflexivity. }
  assert (Va : (bpow (Ea - 150 + 23)
                <= B2R (S754_finite false (Z.to_pos (Ma + 8388608)) (Ea - 150))
                <= bpow (Ea - 150 + 24))%R).
  { cbn [B2R cond_Zopp]. apply normal_value. rewrite Z2Pos.id by lia. lia. }
  assert (Dx : F32.dec x = F32.dec (0 * 2147483648 + E * 8388608 + M)).
  { rewrite <- (dec_mod x), Hx. f_equal. }
  rewrite (dec_fields 0 E M) in Dx by lia. cbn [Z.eqb] in Dx.
  destruct (Z.eqb_spec E 0) as [E0 | E0].
  - (* subnormal *)
    subst E. destruct M as [|m|m]; try lia.
    exists m, (-149), (Z.to_pos (Ma + 8388608)), (Ea - 150), (Ea - 127).
    assert (Ea = 63) by lia. subst Ea.
    split; [exact Dx|]. split; [exact Dv|]. split; [lia|]. split; [|exact Va].
    cbn [B2R cond_Zopp].
    change (63 - 127 - 85) with (-149). change (2 * (63 - 127) + 2) with (-126).
    assert (H1 : (1 <= IZR (Zpos m))%R) by (apply IZR_le; lia).
    assert (H2 : (IZR (Zpos m) <= 8388608)%R) by (apply IZR_le; lia).
    pose proof (bpow_gt_0 (-149)) as Gp.
    replace (bpow (-126)) with (8388608 * bpow (-149))%R.
    + split; [|apply Rmult_le_compat_r; lra].
      rewrite <- (Rmult_1_l (bpow (-149))) at 1. apply Rmult_le_compat_r; lra.
    + bpow_lit. lra.
  - destruct (Z.eqb_spec E 255) as [E1 | E1]; [lia|].
    destruct (M + 8388608) as [|m|m] eqn:Em; try lia.
    exists m, (E - 150), (Z.to_pos (Ma + 8388608)), (Ea - 150), (Ea - 127).
    split; [exact Dx|]. split; [exact Dv|]. split; [lia|].
    replace (Ea - 150 + 23) with (Ea - 127) in Va by lia.
    replace (Ea - 150 + 24) with (Ea - 127 + 1) in Va by lia.
    split; [|exact Va].
    cbn [B2R cond_Zopp].
    pose proof (normal_value m (E - 150) ltac:(lia)) as [V1 V2].
    split.
    + apply Rle_trans with (bpow (E - 150 + 23)); [apply bpow_le; lia | exact V1].
    + apply Rle_trans with (bpow (E - 150 + 24)); [exact V2 | apply bpow_le; lia].
Qed.

Lemma bab2xSqrt_mod x :
  bab2xSqrt (x mod 2 ^ 32) = bab2xSqrt x /\
  bab2xSqrt_model (x mod 2 ^ 32) = bab2xSqrt_model x.
Proof.
  assert (S : bab2xSqrt_seed (x mod 2 ^ 32) = bab2xSqrt_seed x).
  { unfold bab2xSqrt_seed, bitTwiddler.set_f. rewrite Z.mod_mod by lia. reflexivity. }
  assert (D : forall a, F32.div (x mod 2 ^ 32) a = F32.div x a).
  { intros a. unfold F32.div. rewrite dec_mod. reflexivity. }
  unfold bab2xSqrt, bab2xSqrt_model, babylonian_step. cbv zeta.
  rewrite S, !D. split; reflexivity.
Qed.

(** C8. For every float [x >= 0] (either zero, every positive finite float
    and plus infinity), [bab2xSqrt x], computed as in the source by
    [a = a + x / a] and [0.25f * a + x / a] from the seed, has the bits of
    two steps [a <- 0.5f * (a + x / a)] from the same seed. *)
Theorem bab2xSqrt_two_steps (x : Z) :
  F32.leb Lit.zero x = true ->
  bab2xSqrt x = bab2xSqrt_model x.
Proof.
  intros H. destruct (bab2xSqrt_mod x) as [M1 M2].
  destruct (nonneg_cases x H) as [H0 | [H0 | [H0 | (E & M & HE & HM & Hp & Hx)]]].
  - rewrite <- M1, <- M2, H0. vm_compute. reflexivity.
  - rewrite <- M1, <- M2, H0. vm_compute. reflexivity.
  - rewrite <- M1, <- M2, H0. vm_compute. reflexivity.
  - destruct (bab2xSqrt_seed_spec x E M HE HM Hp Hx)
      as (mx & ex & ma & ea & G & Dx & Da & HG & BX & BA).
    unfold bab2xSqrt, bab2xSqrt_model. cbv zeta.
    exact (bab2xSqrt_fold x (bab2xSqrt_seed x) mx ex ma ea G Dx Da HG BX BA).
Qed.

Lemma bab2xSqrt_two_steps_witness :
  F32.leb Lit.zero (F32.lit 2 0) = true /\
  bab2xSqrt (F32.lit 2 0) = bab2xSqrt_model (F32.lit 2 0).
Proof.
  assert (H : F32.leb Lit.zero (F32.lit 2 0) = true) by (vm_compute; reflexivity).
  split; [exact H | exact (bab2xSqrt_two_steps (F32.lit 2 0) H)].
Defined.

(** ** Properties settled by evaluation *)

Lemma ltb_f_LOW_f_HI x : F32.ltb x f_LOW = true -> F32.ltb f_HI x = false.
Proof.
  assert (DL : F32.dec f_LOW = S754_finite true 16646143 (-17)) by (vm_compute; reflexivity).
  assert (DH : F32.dec f_HI = S754_finite false 8454144 (-16)) by (vm_compute; reflexivity).
  unfold F32.ltb, SFltb. rewrite DL, DH.
  destruct (F32.dec x) as [s|s| |s m e]; unfold SFcompare.
  - destruct s; discriminate.
  - destruct s; auto.
  - discriminate.
  - destruct s; [reflexivity | discriminate].
Qed.

(** C6. An argument above 129.0 gives what 129.0 gives, and an argument
    below -126.99999 gives what -126.99999 gives: the clamp replaces the
    argument before anything else reads it. *)
Theorem fExp2_clamps (x : Z) :
  (F32.ltb f_HI x = true -> fExp2 x = fExp2 f_HI) /\
  (F32.ltb x f_LOW = true -> fExp2 x = fExp2 f_LOW).
Proof.
  assert (Hhi : fExp2_clamp f_HI = f_HI) by (vm_compute; reflexivity).
  assert (Hlo : fExp2_clamp f_LOW = f_LOW) by (vm_compute; reflexivity).
  assert (Hmax : F32.max f_HI f_LOW = f_HI) by (vm_compute; reflexivity).
  split; intros H.
  - unfold fExp2, fExp2_ipart.
    assert (E : fExp2_clamp x = f_HI).
    { unfold fExp2_clamp, F32.min. rewrite H. exact Hmax. }
    rewrite E, Hhi. reflexivity.
  - unfold fExp2, fExp2_ipart.
    assert (E : fExp2_clamp x = f_LOW).
    { unfold fExp2_clamp, F32.min. rewrite (ltb_f_LOW_f_HI x H).
      unfold F32.max. rewrite H. reflexivity. }
    rewrite E, Hlo. reflexivity.
Qed.

Lemma fExp2_clamps_witness :
  (F32.ltb f_HI (F32.lit 200 0) = true /\ fExp2 (F32.lit 200 0) = fExp2 f_HI) /\
  (F32.ltb (F32.lit (-200) 0) f_LOW = true /\ fExp2 (F32.lit (-200) 0) = fExp2 f_LOW).
Proof.
  split.
  - assert (H : F32.ltb f_HI (F32.lit 200 0) = true) by (vm_compute; reflexivity).
    split; [exact H | exact (proj1 (fExp2_clamps (F32.lit 200 0)) H)].
  - assert (H : F32.ltb (F32.lit (-200) 0) f_LOW = true) by (vm_compute; reflexivity).
    split; [exact H | exact (proj2 (fExp2_clamps (F32.lit (-200) 0)) H)].
Defined.

(** C7. With [FAST_TRIG], [fCos x] is [fSin] of the float sum
    [x + (float)M_PI_2], whatever the C library's functions are: the same
    bits, or the same absence of a result. *)
Theorem fCos_is_fSin_shifted (libm_sin libm_cos : Z -> Z) (x : Z) :
  fCos true libm_sin libm_cos x = fSin true libm_sin (F32.add x Lit.pi_2).
Proof. reflexivity. Qed.

(** C10. [iSqrt(0.0f)] is the finite positive float 9012071 * 2^41, about
    1.98e19: the seed for the bits of 0.0f is the float with the bits
    0x5f3759df, and the Newton step multiplies it by 1.5.  With [FAST_MATH],
    [fISqrt(0.0f)] is that value. *)
Theorem iSqrt_zero :
  iSqrt_seed Lit.zero = 0x5f3759df /\
  F32.is_finite (iSqrt_seed Lit.zero) = true /\
  iSqrt Lit.zero = 1602847591 /\
  F32.dec (iSqrt Lit.zero) = S754_finite false 9012071 41 /\
  F32.is_finite (iSqrt Lit.zero) = true /\
  F32.ltb (F32.lit 198 17) (iSqrt Lit.zero) = true /\
  F32.ltb (iSqrt Lit.zero) (F32.lit 199 17) = true /\
  (forall libm_sqrt, fISqrt true libm_sqrt Lit.zero = Some (iSqrt Lit.zero)).
Proof. repeat split; vm_compute; reflexivity. Qed.

(** C2. The bodies of [fAsin] and [fAtan] add to [x] a polynomial in
    [x * x]: the even part is not multiplied by [x], and neither function
    is odd.  At 1.0f: [fAsin(-1.0f)] is about -0.661 and [-fAsin(1.0f)]
    about -1.339; [fAtan(-1.0f)] is about -1.370 and [-fAtan(1.0f)] about
    -0.630. *)
Theorem fAsin_fAtan_not_odd :
  fAsin Lit.one = 1068197488 /\
  fAsin (F32.neg Lit.one) = 3207148320 /\
  F32.neg (fAsin Lit.one) = 3215681136 /\
  F32.eqb (fAsin (F32.neg Lit.one)) (F32.neg (fAsin Lit.one)) = false /\
  fAtan Lit.one = 1059141046 /\
  fAtan (F32.neg Lit.one) = 3215942949 /\
  F32.neg (fAtan Lit.one) = 3206624694 /\
  F32.eqb (fAtan (F32.neg Lit.one)) (F32.neg (fAtan Lit.one)) = false.
Proof. repeat split; vm_compute; reflexivity. Qed.

(** C1, as stated, fails at 129.0f: the exponent field is 255 and the
    result is plus infinity. *)
Lemma fExp2_f_HI_is_infinite :
  F32.is_finite f_HI = true /\
  fExp2_ipart f_HI = Some 128 /\
  fExp2 f_HI = Some 0x7F800000 /\
  F32.dec 0x7F800000 = S754_infinity false /\
  F32.is_finite 0x7F800000 = false.
Proof. repeat split; vm_compute; reflexivity. Qed.

(** C3, as stated, fails at 0.25f: [(int)(0.25f - 0.5f)] is 0, the floor of
    -0.25 is -1, and the two splits give different floats. *)
Lemma fExp2_floor_model_differs :
  F32.is_finite Lit.quarter = true /\
  fExp2_ipart Lit.quarter = Some 0 /\
  Fmt.floor (F32.dec (F32.sub (fExp2_clamp Lit.quarter) Lit.half)) = Some (-1) /\
  fExp2 Lit.quarter = Some 1066940400 /\
  fExp2_floor_model Lit.quarter = Some 1066940314 /\
  F32.eqb 1066940400 1066940314 = false.
Proof. repeat split; vm_compute; reflexivity. Qed.

(** C4, as stated, fails at 1.0e9f, where the reduced value is about -57.7,
    and at -(float)M_PI, where the reduced value is (float)M_PI, which
    is above M_PI. *)
Lemma fSin_reduce_out_of_range :
  (F32.is_finite (F32.lit 1 9) = true /\
   fSin_reduce (F32.lit 1 9) = Some 3261521413 /\
   F32.dec 3261521413 = S754_finite true 15130117 (-18) /\
   F64.ltb (F32.to_double 3261521413) (F64.opp M_PI) = true) /\
  (fSin_reduce (F32.neg Lit.pi) = Some Lit.pi /\
   F64.ltb M_PI (F32.to_double Lit.pi) = true).
Proof. repeat split; vm_compute; reflexivity. Qed.

(** C5, as stated, fails at 0.25f: the sum is the float just below
    (float)M_PI_2. *)
Lemma fAcos_plus_fAsin_quarter :
  F32.leb (F32.neg Lit.one) Lit.quarter = true /\
  F32.leb Lit.quarter Lit.one = true /\
  F32.add (fAcos Lit.quarter) (fAsin Lit.quarter) = 1070141402 /\
  Lit.pi_2 = 1070141403 /\
  F32.eqb (F32.add (fAcos Lit.quarter) (fAsin Lit.quarter)) Lit.pi_2 = false.
Proof. repeat split; vm_compute; reflexivity. Qed.

(** * Further properties *)

(** ** [fExp2] outside the finite floats, and at the low end *)

Lemma faithful_not_nan prec emax v r :
  faithful prec emax v r -> Fmt.is_nan r = false.
Proof.
  intros [_ F].
  destruct (F (S754_zero false) (finite_valid_zero prec emax false)) as [A B].
  cbn [B2R] in A, B. destruct r; try reflexivity.
  destruct (Rle_dec 0 v) as [P | N].
  - exact (False_ind _ (A P)).
  - assert (N' : (v <= 0)%R) by lra. exact (False_ind _ (B N')).
Qed.

Lemma fExp2_clamp_cases x :
  match F32.dec x with
  | S754_nan => fExp2_clamp x = x
  | S754_infinity false => fExp2_clamp x = f_HI
  | S754_infinity true => fExp2_clamp x = f_LOW
  | _ => True
  end.
Proof.
  assert (DL : F32.dec f_LOW = S754_finite true 16646143 (-17)) by (vm_compute; reflexivity).
  assert (DH : F32.dec f_HI = S754_finite false 8454144 (-16)) by (vm_compute; reflexivity).
  assert (Hmax : F32.max f_HI f_LOW = f_HI) by (vm_compute; reflexivity).
  unfold fExp2_clamp, F32.min.
  destruct (F32.dec x) as [s|s| |s m e] eqn:Dx; try exact I.
  - destruct s.
    + assert (L1 : F32.ltb f_HI x = false)
        by (unfold F32.ltb, SFltb; rewrite DH, Dx; reflexivity).
      assert (L2 : F32.ltb x f_LOW = true)
        by (unfold F32.ltb, SFltb; rewrite DL, Dx; reflexivity).
      rewrite L1. unfold F32.max. rewrite L2. reflexivity.
    + assert (L1 : F32.ltb f_HI x = true)
        by (unfold F32.ltb, SFltb; rewrite DH, Dx; reflexivity).
      rewrite L1. exact Hmax.
  - assert (L1 : F32.ltb f_HI x = false)
      by (unfold F32.ltb, SFltb; rewrite DH, Dx; reflexivity).
    assert (L2 : F32.ltb x f_LOW = false)
      by (unfold F32.ltb, SFltb; rewrite DL, Dx; reflexivity).
    rewrite L1. unfold F32.max. rewrite L2. reflexivity.
Qed.

Lemma fExp2_nan x : F32.is_nan x = true -> fExp2 x = None.
Proof.
  intros H. unfold F32.is_nan in H.
  pose proof (fExp2_clamp_cases x) as C.
  destruct (F32.dec x) eqn:Dx; try discriminate.
  unfold fExp2, fExp2_ipart. rewrite C.
  assert (E : F32.sub x Lit.half = 2143289344).
  { unfold F32.sub. rewrite Dx. reflexivity. }
  rewrite E. reflexivity.
Qed.

Lemma fExp2_not_nan x :
  F32.is_nan x = false ->
  exists y, fExp2 x = Some y /\ F32.is_nan y = false /\
            (F32.is_finite y = true /\ (0 <= val y)%R \/ F32.dec y = S754_infinity false).
Proof.
  intros H. unfold F32.is_nan in H.
  pose proof (fExp2_clamp_cases x) as C.
  assert (EH : fExp2_clamp f_HI = f_HI) by (vm_compute; reflexivity).
  assert (EL : fExp2_clamp f_LOW = f_LOW) by (vm_compute; reflexivity).
  destruct (F32.dec x) as [s|s| |s m e] eqn:Dx; try discriminate.
  - destruct (fExp2_total_no_nan x) as (n & y & _ & _ & Hy & N & P & _).
    { unfold F32.is_finite. rewrite Dx. reflexivity. }
    exists y. auto.
  - assert (E : fExp2 x = fExp2 (if s then f_LOW else f_HI)).
    { unfold fExp2, fExp2_ipart. destruct s; rewrite C, ?EH, ?EL; reflexivity. }
    rewrite E. destruct s.
    + exists 0. split; [vm_compute; reflexivity|]. split; [reflexivity|].
      left. split; [reflexivity | vm_compute; lra].
    + exists 2139095040. split; [vm_compute; reflexivity|]. split; [reflexivity|].
      right. reflexivity.
  - destruct (fExp2_total_no_nan x) as (n & y & _ & _ & Hy & N & P & _).
    { unfold F32.is_finite. rewrite Dx. reflexivity. }
    exists y. auto.
Qed.

(** X1. [fExp2] has undefined behaviour exactly when its argument is a NaN
    (the clamp lets a NaN through and the conversion to [int] is then
    undefined); for every other argument, the infinities included, it
    returns a float that is not a NaN: a non-negative finite float or plus
    infinity. *)
Theorem fExp2_undefined_iff_nan (x : Z) :
  (fExp2 x = None <-> F32.is_nan x = true) /\
  (forall y, fExp2 x = Some y ->
     F32.is_nan y = false /\
     (F32.is_finite y = true /\ F32.leb Lit.zero y = true
      \/ F32.dec y = S754_infinity false)).
Proof.
  destruct (F32.is_nan x) eqn:N.
  - pose proof (fExp2_nan x N) as E. rewrite E. split.
    + split; reflexivity.
    + intros y Hy. discriminate Hy.
  - destruct (fExp2_not_nan x N) as (y & Hy & Ny & Py). rewrite Hy. split.
    + split; discriminate.
    + intros y' E. injection E as <-. split; [exact Ny|].
      destruct Py as [[F P] | I]; [left | right; exact I].
      split; [exact F|]. apply leb_true; [reflexivity | exact F |].
      replace (val Lit.zero) with 0%R by (vm_compute; lra). exact P.
Qed.

(** No float lies strictly between -126.5 and -126.5 + 2^-17. *)
Lemma float_above_minus_126_5 w :
  F32.is_finite w = true -> (-253/2 < val w)%R -> (-16580607 / 131072 <= val w)%R.
Proof.
  intros Hw H.
  pose proof (grid F32.prec F32.emax eq_refl 16580607 (-17) (SFopp (F32.dec w)) ltac:(lia)
                eq_refl (finite_valid_opp F32.prec F32.emax _ (finite_dec w Hw))) as G.
  rewrite B2R_opp, <- val_eq in G. bpow_lit. lra.
Qed.

Lemma fExp2_ipart_low x :
  F32.is_finite x = true ->
  ((val x <= -253/2)%R -> fExp2_ipart x = Some (-127)) /\
  ((-253/2 < val x)%R ->
   exists n, fExp2_ipart x = Some n /\ -126 <= n <= 128 /\
             (-1/2 < val (fExp2_clamp x) - IZR n < 3/2)%R).
Proof.
  intros Hx.
  destruct (fExp2_ipart_spec x Hx) as (n & Hi & Hn & Hv & _).
  destruct (fExp2_clamp_spec x Hx) as (Hc & Bc & Bx).
  val_lit f_HI. val_lit f_LOW. rewrite V, V0 in *. bpow_lit.
  split.
  - intros Hlow.
    destruct (Bx (-253/2)%R ltac:(lra)) as [B1 _]. specialize (B1 Hlow).
    assert (A : (IZR n < IZR (-126))%R) by lra. apply lt_IZR in A.
    replace n with (-127) in Hi by lia. exact Hi.
  - intros Hhigh.
    pose proof (float_above_minus_126_5 x Hx Hhigh) as Hx1.
    destruct (Bx (-16580607 / 131072)%R ltac:(lra)) as [_ B2]. specialize (B2 Hx1).
    exists n. split; [exact Hi|]. split; [|exact Hv].
    split; [|lia].
    assert (Fh : F32.is_finite Lit.half = true) by reflexivity.
    val_lit Lit.half.
    pose proof (sub_faithful (fExp2_clamp x) Lit.half Hc Fh) as F.
    destruct (sub_bounded (fExp2_clamp x) Lit.half (-255) (-1) 257 (-1) Hc Fh eq_refl eq_refl)
      as [Ft Bt].
    { rewrite V1. bpow_lit. lra. }
    pose proof (faithful_ge F32.prec F32.emax _ _ (-16646143) (-17) eq_refl eq_refl F Ft
                  eq_refl) as Q.
    rewrite <- val_eq in Q. rewrite V1 in Q. bpow_lit. specialize (Q ltac:(lra)).
    unfold fExp2_ipart, F32.to_int in Hi.
    remember (F32.sub (fExp2_clamp x) Lit.half) as t eqn:Et. clear Et.
    destruct (trunc_spec (F32.dec t) Ft) as (n' & Hn' & Hpos & Hneg).
    rewrite Hn' in Hi. destruct (Int32.in_range n'); [|discriminate].
    injection Hi as ->. rewrite <- (val_eq t) in Hpos, Hneg.
    destruct (Rle_dec 0 (val t)) as [P | N].
    + specialize (Hpos P). assert (A : (IZR (-1) < IZR n)%R) by lra.
      apply lt_IZR in A. lia.
    + assert (N' : (val t <= 0)%R) by lra. specialize (Hneg N').
      assert (A : (IZR (-127) < IZR n)%R) by lra. apply lt_IZR in A. lia.
Qed.

Lemma positive_finite P :
  F32.is_finite P = true -> (0 < val P)%R ->
  exists m e, F32.dec P = S754_finite false m e.
Proof.
  intros FP BP. rewrite val_eq in BP. unfold F32.is_finite in FP.
  destruct (F32.dec P) as [s|s| |s m e]; try discriminate; cbn [B2R] in BP; [lra|].
  destruct s; [|eauto]. exfalso. cbn [cond_Zopp] in BP. rewrite opp_IZR in BP.
  assert (0 < IZR (Zpos m) * bpow e)%R
    by (apply Rmult_lt_0_compat; [apply IZR_lt; lia | apply bpow_gt_0]).
  lra.
Qed.

(** The product of the float with exponent field [n + 127] by a float
    between 1/4 and 3: zero for the field 0, positive otherwise. *)
Lemma fExp2_scale_sign n P :
  -127 <= n <= 128 ->
  F32.is_finite P = true -> (1/4 <= val P <= 3)%R ->
  (n = -127 -> F32.mul ((n + 127) * 8388608) P = 0) /\
  (-126 <= n -> F32.ltb Lit.zero (F32.mul ((n + 127) * 8388608) P) = true).
Proof.
  intros Hn FP BP.
  destruct (positive_finite P FP ltac:(lra)) as (m & e & DP).
  split.
  - intros ->. unfold F32.mul. change ((-127 + 127) * 8388608) with 0.
    change (F32.dec 0) with (S754_zero false). rewrite DP. reflexivity.
  - intros Hlow.
    destruct (fExp2_scale_spec n P Hn FP BP) as (_ & Hy & _).
    cbv zeta in Hy.
    destruct Hy as [[Fy _] | Iy].
    + (* finite: at least 2^-128 *)
      assert (Dz : F32.is_finite Lit.zero = true) by reflexivity.
      pose proof (ltb_spec Lit.zero (F32.mul ((n + 127) * 8388608) P) Dz Fy) as L.
      destruct (F32.ltb Lit.zero (F32.mul ((n + 127) * 8388608) P)); [reflexivity|].
      exfalso. replace (val Lit.zero) with 0%R in L by (vm_compute; lra).
      assert (Fe : F32.is_finite ((n + 127) * 8388608) = true).
      { destruct (Z.eq_dec n 128) as [-> | NE].
        - exfalso. revert Fy. unfold F32.mul.
          change ((128 + 127) * 8388608) with 2139095040.
          change (F32.dec 2139095040) with (S754_infinity false). rewrite DP.
          cbn [SFmul xorb]. discriminate.
        - unfold F32.is_finite. rewrite dec_exponent_field by lia.
          destruct (Z.eqb_spec (n + 127) 0); [reflexivity|].
          destruct (Z.eqb_spec (n + 127) 255); [lia | reflexivity]. }
      assert (Ve : val ((n + 127) * 8388608) = bpow n).
      { rewrite val_eq, dec_exponent_field by lia.
        destruct (Z.eqb_spec (n + 127) 0); [lia|].
        destruct (Z.eqb_spec (n + 127) 255) as [E1|E1].
        - exfalso. revert Fe. unfold F32.is_finite. rewrite dec_exponent_field by lia.
          destruct (Z.eqb_spec (n + 127) 0); [lia|]. rewrite E1. discriminate.
        - cbn [B2R cond_Zopp]. change 8388608 with (2 ^ 23). rewrite <- bpow_IZR by lia.
          rewrite <- bpow_add. f_equal. lia. }
      pose proof (mul_faithful _ P Fe FP) as F. rewrite Ve in F.
      pose proof (faithful_ge F32.prec F32.emax _ _ 1 (-128) eq_refl eq_refl F Fy eq_refl) as Q.
      rewrite <- val_eq in Q.
      assert (B126 : (bpow (-126) <= bpow n)%R) by (apply bpow_le; lia).
      pose proof (bpow_gt_0 n) as Gn.
      assert (Hq : (IZR 1 * bpow (-128) <= bpow n * val P)%R).
      { bpow_lit. nra. }
      specialize (Q Hq). pose proof (bpow_gt_0 (-128)). lra.
    + unfold F32.ltb. rewrite Iy. reflexivity.
Qed.

Lemma fExp2_low_finite x :
  F32.is_finite x = true ->
  ((val x <= -253/2)%R -> fExp2 x = Some 0) /\
  ((-253/2 < val x)%R -> exists y, fExp2 x = Some y /\ F32.ltb Lit.zero y = true).
Proof.
  intros Hx. destruct (fExp2_ipart_low x Hx) as [L H].
  destruct (fExp2_clamp_spec x Hx) as (Hc & _).
  split.
  - intros Hlow. specialize (L Hlow).
    destruct (fExp2_ipart_spec x Hx) as (n & Hi & Hn & Hv & _).
    rewrite L in Hi. injection Hi as <-.
    unfold fExp2. rewrite L. f_equal.
    unfold fExp2_body.
    rewrite cell_int
      by (unfold Int32.min_signed, Int32.max_signed; change (2 ^ 31) with 2147483648; lia).
    rewrite fExp2_expipart by lia.
    destruct (fExp2_fpart_spec (fExp2_clamp x) (-127) Hc ltac:(lia) Hv) as [Ffp Bfp].
    destruct (POLYEXP_bounds _ Ffp Bfp) as [FP BP].
    exact (proj1 (fExp2_scale_sign (-127) _ ltac:(lia) FP BP) eq_refl).
  - intros Hhigh. destruct (H Hhigh) as (n & Hi & Hn & Hv).
    exists (fExp2_body (fExp2_clamp x) n). unfold fExp2. rewrite Hi.
    split; [reflexivity|].
    unfold fExp2_body.
    rewrite cell_int
      by (unfold Int32.min_signed, Int32.max_signed; change (2 ^ 31) with 2147483648; lia).
    rewrite fExp2_expipart by lia.
    destruct (fExp2_fpart_spec (fExp2_clamp x) n Hc ltac:(lia) Hv) as [Ffp Bfp].
    destruct (POLYEXP_bounds _ Ffp Bfp) as [FP BP].
    exact (proj2 (fExp2_scale_sign n _ ltac:(lia) FP BP) ltac:(lia)).
Qed.

Lemma fExp2_infinite x s :
  F32.dec x = S754_infinity s ->
  fExp2 x = Some (if s then 0 else 2139095040).
Proof.
  intros Dx. pose proof (fExp2_clamp_cases x) as C. rewrite Dx in C.
  assert (EH : fExp2 f_HI = Some 2139095040) by (vm_compute; reflexivity).
  assert (EL : fExp2 f_LOW = Some 0) by (vm_compute; reflexivity).
  assert (CH : fExp2_clamp f_HI = f_HI) by (vm_compute; reflexivity).
  assert (CL : fExp2_clamp f_LOW = f_LOW) by (vm_compute; reflexivity).
  destruct s.
  - rewrite <- EL. unfold fExp2, fExp2_ipart. rewrite C, CL. reflexivity.
  - rewrite <- EH. unfold fExp2, fExp2_ipart. rewrite C, CH. reflexivity.
Qed.

(** X2. [fExp2] underflows abruptly: for every argument at or below -126.5
    (minus infinity included) the result is exactly +0.0f, because the
    exponent field written is 0; for every argument above -126.5 (plus
    infinity included) the result is greater than zero. *)
Theorem fExp2_zero_iff_low (x : Z) :
  (F32.leb x (F32.lit (-1265) (-1)) = true -> fExp2 x = Some Lit.zero) /\
  (F32.ltb (F32.lit (-1265) (-1)) x = true ->
   exists y, fExp2 x = Some y /\ F32.ltb Lit.zero y = true).
Proof.
  assert (Dm : F32.dec (F32.lit (-1265) (-1)) = S754_finite true 16580608 (-17))
    by (vm_compute; reflexivity).
  assert (Fm : F32.is_finite (F32.lit (-1265) (-1)) = true) by reflexivity.
  assert (Vm : val (F32.lit (-1265) (-1)) = (-253/2)%R).
  { rewrite val_eq, Dm. cbn [B2R cond_Zopp Z.opp]. bpow_lit. lra. }
  change Lit.zero with 0.
  destruct (F32.dec x) as [s|s| |s m e] eqn:Dx.
  - assert (Hx : F32.is_finite x = true) by (unfold F32.is_finite; rewrite Dx; reflexivity).
    destruct (fExp2_low_finite x Hx) as [L H]. split.
    + intros Hle. apply L. pose proof (leb_spec x _ Hx Fm) as Q.
      rewrite Hle, Vm in Q. exact Q.
    + intros Hlt. apply H. pose proof (ltb_spec _ x Fm Hx) as Q.
      rewrite Hlt, Vm in Q. exact Q.
  - split.
    + intros Hle. destruct s.
      * exact (fExp2_infinite x true Dx).
      * exfalso. revert Hle. unfold F32.leb, SFleb. rewrite Dx, Dm. discriminate.
    + intros Hlt. destruct s.
      * exfalso. revert Hlt. unfold F32.ltb, SFltb. rewrite Dx, Dm. discriminate.
      * exists 2139095040. split; [exact (fExp2_infinite x false Dx) | reflexivity].
  - split.
    + intros Hle. exfalso. revert Hle. unfold F32.leb, SFleb. rewrite Dx, Dm. discriminate.
    + intros Hlt. exfalso. revert Hlt. unfold F32.ltb, SFltb. rewrite Dx, Dm. discriminate.
  - assert (Hx : F32.is_finite x = true) by (unfold F32.is_finite; rewrite Dx; reflexivity).
    destruct (fExp2_low_finite x Hx) as [L H]. split.
    + intros Hle. apply L. pose proof (leb_spec x _ Hx Fm) as Q.
      rewrite Hle, Vm in Q. exact Q.
    + intros Hlt. apply H. pose proof (ltb_spec _ x Fm Hx) as Q.
      rewrite Hlt, Vm in Q. exact Q.
Qed.


Lemma fExp2_zero_iff_low_witness :
  (F32.leb (F32.lit (-130) 0) (F32.lit (-1265) (-1)) = true /\
   fExp2 (F32.lit (-130) 0) = Some Lit.zero) /\
  (F32.ltb (F32.lit (-1265) (-1)) (F32.lit (-126) 0) = true /\
   exists y, fExp2 (F32.lit (-126) 0) = Some y /\ F32.ltb Lit.zero y = true).
Proof.
  split.
  - assert (H : F32.leb (F32.lit (-130) 0) (F32.lit (-1265) (-1)) = true)
      by (vm_compute; reflexivity).
    split; [exact H | exact (proj1 (fExp2_zero_iff_low (F32.lit (-130) 0)) H)].
  - assert (H : F32.ltb (F32.lit (-1265) (-1)) (F32.lit (-126) 0) = true)
      by (vm_compute; reflexivity).
    split; [exact H | exact (proj2 (fExp2_zero_iff_low (F32.lit (-126) 0)) H)].
Defined.

Lemma fExp2_high_cases x :
  F32.leb (F32.lit 1285 (-1)) x = true ->
  exists y, fExp2 x = Some y /\ F32.dec y = S754_infinity false.
Proof.
  assert (Dm : F32.dec (F32.lit 1285 (-1)) = S754_finite false 8421376 (-16))
    by (vm_compute; reflexivity).
  assert (Fm : F32.is_finite (F32.lit 1285 (-1)) = true) by reflexivity.
  assert (Vm : val (F32.lit 1285 (-1)) = (257/2)%R).
  { rewrite val_eq, Dm. cbn [B2R cond_Zopp Z.opp]. bpow_lit. lra. }
  intros Hle.
  assert (Hfin : F32.is_finite x = true ->
                 exists y, fExp2 x = Some y /\ F32.dec y = S754_infinity false).
  { intros Hx. destruct (fExp2_total_no_nan x Hx) as (n & y & _ & _ & Hy & _ & _ & _ & I).
    exists y. split; [exact Hy|]. apply I.
    pose proof (leb_spec _ x Fm Hx) as Q. rewrite Hle, Vm in Q. exact Q. }
  destruct (F32.dec x) as [s|s| |s m e] eqn:Dx.
  - apply Hfin. unfold F32.is_finite. rewrite Dx. reflexivity.
  - destruct s.
    + exfalso. revert Hle. unfold F32.leb, SFleb. rewrite Dx, Dm. discriminate.
    + exists 2139095040. split; [exact (fExp2_infinite x false Dx) | reflexivity].
  - exfalso. revert Hle. unfold F32.leb, SFleb. rewrite Dx, Dm. discriminate.
  - apply Hfin. unfold F32.is_finite. rewrite Dx. reflexivity.
Qed.

(** ** [fExp] and [fPow] *)

Lemma is_nan_enc r :
  valid_binary F32.prec F32.emax r = true ->
  F32.is_nan (F32.enc r) = Fmt.is_nan r.
Proof. intros V. unfold F32.is_nan. rewrite F32Facts.dec_enc by exact V. reflexivity. Qed.

Lemma mul_finite_not_nan a b :
  F32.is_finite a = true -> F32.is_finite b = true ->
  F32.is_nan (F32.mul a b) = false.
Proof.
  intros Ha Hb. pose proof (mul_faithful a b Ha Hb) as F.
  unfold F32.is_nan. exact (faithful_not_nan _ _ _ _ F).
Qed.

(** A product known to be at most a float of the format is finite and at
    most that float, or minus infinity; and symmetrically. *)
Lemma mul_le_cases a b k e :
  F32.is_finite a = true -> F32.is_finite b = true ->
  dyadic_ok F32.prec F32.emax k e = true ->
  (val a * val b <= IZR k * bpow e)%R ->
  (F32.is_finite (F32.mul a b) = true /\ (val (F32.mul a b) <= IZR k * bpow e)%R)
  \/ F32.dec (F32.mul a b) = S754_infinity true.
Proof.
  intros Ha Hb Hk Hv. pose proof (mul_faithful a b Ha Hb) as [V F].
  destruct (dyadic_float F32.prec F32.emax k e eq_refl eq_refl Hk) as (B & HB & EB).
  destruct (F B HB) as [_ L]. rewrite EB in L. specialize (L Hv).
  rewrite val_eq. unfold F32.is_finite.
  destruct (F32.dec (F32.mul a b)) as [s|s| |s m e']; cbn [below] in L.
  - left. split; [reflexivity | exact L].
  - right. rewrite L. reflexivity.
  - contradiction.
  - left. split; [reflexivity | exact L].
Qed.

Lemma mul_ge_cases a b k e :
  F32.is_finite a = true -> F32.is_finite b = true ->
  dyadic_ok F32.prec F32.emax k e = true ->
  (IZR k * bpow e <= val a * val b)%R ->
  (F32.is_finite (F32.mul a b) = true /\ (IZR k * bpow e <= val (F32.mul a b))%R)
  \/ F32.dec (F32.mul a b) = S754_infinity false.
Proof.
  intros Ha Hb Hk Hv. pose proof (mul_faithful a b Ha Hb) as [V F].
  destruct (dyadic_float F32.prec F32.emax k e eq_refl eq_refl Hk) as (B & HB & EB).
  destruct (F B HB) as [L _]. rewrite EB in L. specialize (L Hv).
  rewrite val_eq. unfold F32.is_finite.
  destruct (F32.dec (F32.mul a b)) as [s|s| |s m e']; cbn [above] in L.
  - left. split; [reflexivity | exact L].
  - right. rewrite L. reflexivity.
  - contradiction.
  - left. split; [reflexivity | exact L].
Qed.

Lemma dec_log2e : F32.dec log2e = S754_finite false 12102203 (-23).
Proof. vm_compute. reflexivity. Qed.

(** The product [(float)M_LOG2E * a]. *)
Lemma log2e_mul a :
  match F32.dec a with
  | S754_nan => F32.is_nan (F32.mul log2e a) = true
  | S754_infinity s => F32.dec (F32.mul log2e a) = S754_infinity s
  | _ => F32.is_nan (F32.mul log2e a) = false
  end.
Proof.
  assert (Fc : F32.is_finite log2e = true) by reflexivity.
  destruct (F32.dec a) as [s|s| |s m e] eqn:Da.
  - apply mul_finite_not_nan; [exact Fc|]. unfold F32.is_finite. rewrite Da. reflexivity.
  - unfold F32.mul. rewrite Da, dec_log2e. destruct s; reflexivity.
  - unfold F32.mul. rewrite Da, dec_log2e. reflexivity.
  - apply mul_finite_not_nan; [exact Fc|]. unfold F32.is_finite. rewrite Da. reflexivity.
Qed.

(** X3. With [FAST_MATH], [fExp] has undefined behaviour exactly for a NaN
    argument; it returns exactly +0.0f for every argument at or below -88
    and plus infinity for every argument at or above 90 (the infinities
    included). *)
Theorem fExp_edges (libm_exp : Z -> Z) (a : Z) :
  (fExp true libm_exp a = None <-> F32.is_nan a = true) /\
  (F32.leb a (F32.lit (-88) 0) = true -> fExp true libm_exp a = Some Lit.zero) /\
  (F32.leb (F32.lit 90 0) a = true ->
   exists y, fExp true libm_exp a = Some y /\ F32.dec y = S754_infinity false).
Proof.
  assert (Fc : F32.is_finite log2e = true) by reflexivity.
  assert (Vc : val log2e = (12102203 / 8388608)%R).
  { rewrite val_eq, dec_log2e. cbn [B2R cond_Zopp]. bpow_lit. lra. }
  assert (Dl : F32.dec (F32.lit (-88) 0) = S754_finite true 11534336 (-17))
    by (vm_compute; reflexivity).
  assert (Dh : F32.dec (F32.lit 90 0) = S754_finite false 11796480 (-17))
    by (vm_compute; reflexivity).
  assert (Fl : F32.is_finite (F32.lit (-88) 0) = true) by reflexivity.
  assert (Fh : F32.is_finite (F32.lit 90 0) = true) by reflexivity.
  assert (Vl : val (F32.lit (-88) 0) = (-88)%R).
  { rewrite val_eq, Dl. cbn [B2R cond_Zopp Z.opp]. bpow_lit. lra. }
  assert (Vh : val (F32.lit 90 0) = 90%R).
  { rewrite val_eq, Dh. cbn [B2R cond_Zopp Z.opp]. bpow_lit. lra. }
  pose proof (log2e_mul a) as M.
  unfold fExp. unfold F32.is_nan at 1.
  assert (Low : forall p, F32.is_finite p = true -> (val p <= -253/2)%R ->
                          fExp2 p = Some Lit.zero).
  { intros p Fp Vp. exact (proj1 (fExp2_low_finite p Fp) Vp). }
  assert (High : forall p, F32.is_finite p = true -> (257/2 <= val p)%R ->
                           exists y, fExp2 p = Some y /\ F32.dec y = S754_infinity false).
  { intros p Fp Vp.
    destruct (fExp2_total_no_nan p Fp) as (n & y & _ & _ & Hy & _ & _ & _ & I).
    exists y. split; [exact Hy | exact (I Vp)]. }
  destruct (F32.dec a) as [s|s| |s m e] eqn:Da.
  - (* zero *)
    assert (Fa : F32.is_finite a = true) by (unfold F32.is_finite; rewrite Da; reflexivity).
    assert (Va : val a = 0%R) by (rewrite val_eq, Da; reflexivity).
    destruct (fExp2_not_nan _ M) as (y & Hy & _). rewrite Hy.
    split; [split; discriminate|]. split.
    + intros H. pose proof (leb_spec a _ Fa Fl) as Q. rewrite H, Va, Vl in Q. lra.
    + intros H. pose proof (leb_spec _ a Fh Fa) as Q. rewrite H, Va, Vh in Q. lra.
  - (* infinity *)
    rewrite (fExp2_infinite _ s M).
    split; [split; discriminate|]. split.
    + intros H. destruct s; [reflexivity|].
      exfalso. revert H. unfold F32.leb, SFleb. rewrite Da, Dl. discriminate.
    + intros H. destruct s.
      * exfalso. revert H. unfold F32.leb, SFleb. rewrite Da, Dh. discriminate.
      * exists 2139095040. split; reflexivity.
  - (* NaN *)
    rewrite (fExp2_nan _ M). split; [split; reflexivity|]. split.
    + intros H. exfalso. revert H. unfold F32.leb, SFleb. rewrite Da, Dl. discriminate.
    + intros H. exfalso. revert H. unfold F32.leb, SFleb. rewrite Da, Dh. discriminate.
  - (* finite *)
    assert (Fa : F32.is_finite a = true) by (unfold F32.is_finite; rewrite Da; reflexivity).
    destruct (fExp2_not_nan _ M) as (y & Hy & _).
    split; [rewrite Hy; split; discriminate|]. split.
    + intros H. pose proof (leb_spec a _ Fa Fl) as Q. rewrite H, Vl in Q.
      destruct (mul_le_cases log2e a (-253) (-1) Fc Fa eq_refl) as [[Fp Vp] | Ip].
      { rewrite Vc. bpow_lit. lra. }
      * apply Low; [exact Fp|]. bpow_lit. lra.
      * exact (fExp2_infinite _ true Ip).
    + intros H. pose proof (leb_spec _ a Fh Fa) as Q. rewrite H, Vh in Q.
      destruct (mul_ge_cases log2e a 257 (-1) Fc Fa eq_refl) as [[Fp Vp] | Ip].
      { rewrite Vc. bpow_lit. lra. }
      * apply High; [exact Fp|]. bpow_lit. lra.
      * exists 2139095040. split; [exact (fExp2_infinite _ false Ip) | reflexivity].
Qed.

Lemma fExp_edges_witness :
  (F32.leb (F32.lit (-100) 0) (F32.lit (-88) 0) = true /\
   fExp true (fun a => a) (F32.lit (-100) 0) = Some Lit.zero) /\
  (F32.leb (F32.lit 90 0) (F32.lit 100 0) = true /\
   exists y, fExp true (fun a => a) (F32.lit 100 0) = Some y /\
             F32.dec y = S754_infinity false).
Proof.
  split.
  - assert (H : F32.leb (F32.lit (-100) 0) (F32.lit (-88) 0) = true)
      by (vm_compute; reflexivity).
    split; [exact H|].
    exact (proj1 (proj2 (fExp_edges (fun a => a) (F32.lit (-100) 0))) H).
  - assert (H : F32.leb (F32.lit 90 0) (F32.lit 100 0) = true)
      by (vm_compute; reflexivity).
    split; [exact H|].
    exact (proj2 (proj2 (fExp_edges (fun a => a) (F32.lit 100 0))) H).
Defined.


Lemma fExp2_of_zero s : fExp2 (F32.enc (S754_zero s)) = Some 1065353215.
Proof. destruct s; vm_compute; reflexivity. Qed.

Lemma eqb_zero_dec b :
  F32.eqb b Lit.zero = true -> exists s, F32.dec b = S754_zero s.
Proof.
  assert (Dz : F32.dec Lit.zero = S754_zero false) by (vm_compute; reflexivity).
  unfold F32.eqb, SFeqb. rewrite Dz.
  destruct (F32.dec b) as [s|s| |s m e]; intros H.
  - exists s. reflexivity.
  - destruct s; discriminate H.
  - discriminate H.
  - destruct s; discriminate H.
Qed.

Lemma mul_finite_zero a b s :
  F32.is_finite a = true -> F32.dec b = S754_zero s ->
  exists s', F32.mul a b = F32.enc (S754_zero s').
Proof.
  intros Fa Db. unfold F32.mul. rewrite Db. unfold F32.is_finite in Fa.
  destruct (F32.dec a) as [s'|s'| |s' m' e']; try discriminate Fa.
  - exists (xorb s' s). reflexivity.
  - exists (xorb s' s). reflexivity.
Qed.

Lemma mul_nan_r a b : F32.is_nan b = true -> F32.is_nan (F32.mul a b) = true.
Proof.
  intros Nb. unfold F32.is_nan in Nb. unfold F32.mul.
  destruct (F32.dec b); try discriminate Nb.
  destruct (F32.dec a); apply is_nan_enc; reflexivity.
Qed.

Lemma fPow_fast (libm_pow : Z -> Z -> Z) a b :
  fPow true libm_pow a b = fExp2 (F32.mul (fLog2 a) b).
Proof. reflexivity. Qed.

(** X4. With [FAST_MATH], [fPow(a, b)] is [fExp2(fLog2(a) * b)]: for every
    base [a], whatever its bits (negative, zero, infinite or NaN), and every
    finite exponent [b] it returns a float that is not a NaN; the sign of
    the base is ignored; a zero exponent gives 0.99999994f, not 1; and a NaN
    exponent is undefined behaviour. *)
Theorem fPow_edges (libm_pow : Z -> Z -> Z) (a b : Z) :
  (F32.is_finite b = true ->
   exists y, fPow true libm_pow a b = Some y /\ F32.is_nan y = false) /\
  (F32.eqb b Lit.zero = true -> fPow true libm_pow a b = Some 1065353215) /\
  (F32.is_nan b = true -> fPow true libm_pow a b = None) /\
  fPow true libm_pow (F32.fabs a) b = fPow true libm_pow a b.
Proof.
  pose proof (fLog2_finite a) as Fl.
  rewrite !fPow_fast. split; [|split; [|split]].
  - intros Fb. pose proof (mul_finite_not_nan _ b Fl Fb) as N.
    destruct (fExp2_not_nan _ N) as (y & Hy & Ny & _). exists y. split; assumption.
  - intros Hb. destruct (eqb_zero_dec b Hb) as [s Db].
    destruct (mul_finite_zero (fLog2 a) b s Fl Db) as [s' E].
    rewrite E. apply fExp2_of_zero.
  - intros Nb. apply fExp2_nan. apply mul_nan_r. exact Nb.
  - rewrite fLog2_fabs. reflexivity.
Qed.

Lemma fPow_edges_witness :
  F32.is_finite (F32.lit 10 0) = true /\
  exists y, fPow true (fun a b => a) (F32.neg (F32.lit 2 0)) (F32.lit 10 0) = Some y /\
            F32.is_nan y = false.
Proof.
  split; [reflexivity|].
  exact (proj1 (fPow_edges (fun a b => a) (F32.neg (F32.lit 2 0)) (F32.lit 10 0)) eq_refl).
Defined.

(** ** [fLog] *)

Lemma fLog2_body_range M E :
  0 <= M < 8388608 -> 0 <= E <= 255 ->
  let m := 127 * 8388608 + M in
  (-130 <= val (F32.add (F32.mul (POLYLOG m) (F32.sub m Lit.one)) (F32.of_int (E - 127)))
        <= 134)%R.
Proof.
  intros HM HE m.
  assert (Dm : F32.dec m = S754_finite false (Z.to_pos (M + 8388608)) (-23)).
  { subst m.
    pose proof (F32Facts.fields 0 127 M ltac:(lia) ltac:(lia) HM) as (F1 & F2 & F3).
    cbv zeta in F1, F2, F3.
    replace (0 * 2147483648 + 127 * 8388608 + M) with (127 * 8388608 + M) in * by lia.
    unfold F32.dec. rewrite F1, F2, F3. cbn [Z.eqb Pos.eqb].
    destruct (M + 8388608) as [|p|p] eqn:Ep; try lia. reflexivity. }
  assert (Fm : F32.is_finite m = true) by (unfold F32.is_finite; rewrite Dm; reflexivity).
  assert (Vm : (1 <= val m <= 2)%R).
  { rewrite val_eq, Dm. cbn [B2R cond_Zopp]. rewrite Z2Pos.id by lia.
    bpow_lit. destruct HM as [M1 M2]. apply IZR_le in M1. apply IZR_lt in M2.
    rewrite plus_IZR. lra. }
  clearbody m.
  destruct (POLYLOG_bounds m Fm Vm) as [FP BP].
  val_lit Lit.one.
  destruct (sub_bounded m Lit.one 0 0 1 0 Fm eq_refl eq_refl eq_refl) as [Fd Bd].
  { rewrite V. bpow_lit. lra. }
  bpow_lit.
  destruct (mul_bounded _ _ (-3) 0 6 0 FP Fd eq_refl eq_refl) as [Fp Bp].
  { bpow_lit. nra. }
  bpow_lit.
  destruct (of_int_exact (E - 127) ltac:(change (2 ^ 24) with 16777216; lia)) as [Fe Ve].
  destruct (add_bounded _ _ (-130) 0 134 0 Fp Fe eq_refl eq_refl) as [_ Br].
  { rewrite Ve, minus_IZR. destruct HE as [E1 E2]. apply IZR_le in E1, E2. bpow_lit. lra. }
  revert Br. bpow_lit. intros Br. lra.
Qed.

Lemma fLog2_range x : (-130 <= val (fLog2 x) <= 134)%R.
Proof.
  unfold fLog2.
  destruct (fLog2_exponent x) as (E & HE & ->).
  destruct (fLog2_mantissa x) as (M & HM & -> & _).
  rewrite one_cell, of_int_cell.
  exact (fLog2_body_range M E HM HE).
Qed.

Lemma fLog_fast (libm_log : Z -> Z) a :
  fLog true libm_log a = Some (F32.of_double (F64.mul (F32.to_double (fLog2 a)) M_LN2)).
Proof. reflexivity. Qed.

Lemma fLog_range (libm_log : Z -> Z) a :
  exists y, fLog true libm_log a = Some y /\ F32.is_finite y = true /\
            (-91 <= val y <= 93)%R.
Proof.
  rewrite fLog_fast. eexists. split; [reflexivity|].
  pose proof (fLog2_finite a) as Fl. pose proof (fLog2_range a) as Rl.
  destruct (F64L.to_double_exact _ Fl) as [Fd Vd].
  remember (F32.to_double (fLog2 a)) as d eqn:Ed. clear Ed.
  assert (F2 : F64F.fv M_LN2) by (split; reflexivity).
  val64_lit M_LN2.
  destruct (F64L.mul64_bounded d M_LN2 (-91) 0 93 0 Fd F2 eq_refl eq_refl) as [Fp Bp].
  { rewrite Vd, W. bpow_lit. lra. }
  destruct (F64L.of_double_bounded _ (-91) 0 93 0 Fp eq_refl eq_refl Bp) as [Fr Br].
  split; [exact Fr|]. revert Br. bpow_lit. intros Br. lra.
Qed.

(** X5. With [FAST_MATH], [fLog] returns a finite float between -91 and 93
    for every argument, whatever its bits: at zero, at a negative number, at
    an infinity or a NaN it returns no infinity and no NaN, and the sign of
    the argument is ignored. *)
Theorem fLog_finite_everywhere (libm_log : Z -> Z) (a : Z) :
  exists y,
    fLog true libm_log a = Some y /\
    fLog true libm_log (F32.fabs a) = Some y /\
    F32.is_finite y = true /\
    F32.leb (F32.lit (-91) 0) y = true /\ F32.leb y (F32.lit 93 0) = true.
Proof.
  destruct (fLog_range libm_log a) as (y & Hy & Fy & By).
  exists y. split; [exact Hy|]. split.
  - rewrite fLog_fast in *. rewrite fLog2_fabs. exact Hy.
  - split; [exact Fy|].
    val_lit (F32.lit (-91) 0). val_lit (F32.lit 93 0).
    split; apply leb_true; try reflexivity; try exact Fy.
    + rewrite V. bpow_lit. lra.
    + rewrite V0. bpow_lit. lra.
Qed.

(** ** [fTan] *)

Lemma fTan_fast (libm_sin libm_cos libm_tan : Z -> Z) x :
  fTan true libm_sin libm_cos libm_tan x =
  match fSin_reduce x, fSin_reduce (F32.add x Lit.pi_2) with
  | Some r1, Some r2 => Some (F32.div (fSin_parabola r1) (fSin_parabola r2))
  | _, _ => None
  end.
Proof.
  unfold fTan, fCos, fSin.
  destruct (fSin_reduce x); destruct (fSin_reduce (F32.add x Lit.pi_2)); reflexivity.
Qed.

(** X6. With [FAST_TRIG], [fTan] is defined for every float of magnitude at
    most 9.0e6: both range reductions, of [x] for the sine and of
    [x + (float)M_PI_2] for the cosine, convert to [int] within range, and
    the result is the float quotient of the parabola at two reduced
    arguments that both lie between [-(float)M_PI] and [(float)M_PI]. *)
Theorem fTan_defined (libm_sin libm_cos libm_tan : Z -> Z) (x : Z) :
  F32.leb (F32.lit (-9) 6) x = true -> F32.leb x (F32.lit 9 6) = true ->
  exists r1 r2,
    fSin_reduce x = Some r1 /\
    fSin_reduce (F32.add x Lit.pi_2) = Some r2 /\
    fTan true libm_sin libm_cos libm_tan x =
      Some (F32.div (fSin_parabola r1) (fSin_parabola r2)) /\
    F32.leb (F32.neg Lit.pi) r1 = true /\ F32.leb r1 Lit.pi = true /\
    F32.leb (F32.neg Lit.pi) r2 = true /\ F32.leb r2 Lit.pi = true.
Proof.
  intros L1 L2.
  assert (Fl : F32.is_finite (F32.lit (-9) 6) = true) by reflexivity.
  assert (Fh : F32.is_finite (F32.lit 9 6) = true) by reflexivity.
  assert (Hx : F32.is_finite x = true)
    by (apply (between_finite (F32.lit (-9) 6) x (F32.lit 9 6)); assumption).
  pose proof (leb_spec (F32.lit (-9) 6) x Fl Hx) as Q1. rewrite L1 in Q1.
  pose proof (leb_spec x (F32.lit 9 6) Hx Fh) as Q2. rewrite L2 in Q2.
  val_lit (F32.lit (-9) 6). val_lit (F32.lit 9 6). rewrite V in Q1. rewrite V0 in Q2.
  val_lit Lit.pi_2.
  destruct (add_bounded x Lit.pi_2 (-10000000) 0 10000000 0 Hx eq_refl eq_refl eq_refl)
    as [Fs Bs].
  { rewrite V1. revert Q1 Q2. bpow_lit. intros Q1 Q2. lra. }
  revert Q1 Q2 Bs. bpow_lit. intros Q1 Q2 Bs.
  destruct (fSin_reduce_moderate x Hx ltac:(lra)) as (r1 & H1 & F1 & B1).
  destruct (fSin_reduce_moderate _ Fs ltac:(lra)) as (r2 & H2 & F2 & B2).
  exists r1, r2. split; [exact H1|]. split; [exact H2|]. split.
  { rewrite fTan_fast, H1, H2. reflexivity. }
  repeat split; apply leb_true; try reflexivity; try assumption;
    try (rewrite val_neg_pi); lra.
Qed.

Lemma fTan_defined_witness :
  F32.leb (F32.lit (-9) 6) (F32.lit 1 6) = true /\
  F32.leb (F32.lit 1 6) (F32.lit 9 6) = true /\
  exists y, fTan true (fun w => w) (fun w => w) (fun w => w) (F32.lit 1 6) = Some y.
Proof.
  assert (H1 : F32.leb (F32.lit (-9) 6) (F32.lit 1 6) = true) by (vm_compute; reflexivity).
  assert (H2 : F32.leb (F32.lit 1 6) (F32.lit 9 6) = true) by (vm_compute; reflexivity).
  split; [exact H1|]. split; [exact H2|].
  destruct (fTan_defined (fun w => w) (fun w => w) (fun w => w) (F32.lit 1 6) H1 H2)
    as (r1 & r2 & _ & _ & E & _).
  eexists. exact E.
Defined.
